(** * Citation post-processing of generated answers

    A shallow embedding of [scholarqa/postprocess/json_output_utils.py]:
    the identifier normalizer, the robust decoder, the section segmenter,
    the citation token resolver, the label disambiguator, the citation
    record builder and the answer assembler, followed by the properties
    the specification states about them.

    Text.  A Python [str] is held as a Rocq [string], one character per
    byte of its UTF-8 encoding.  Searching, splitting, replacing and
    prefix tests act on bytes exactly as they act on code points.  The
    character classes ([str.strip], [\s], [\S], [\w], [\d]) are Python's
    on the ASCII range; a byte above 127 is in none of [\s], [\w] and
    [\d].  Python also counts the white space, letters and digits beyond
    ASCII (U+00A0, U+2003, ...), so the functions that use a class are
    those of the code on ASCII text, and the statements that rest on a
    class are made for ASCII text.

    Errors.  A raising function returns [Raise e]; [try ... except] is a
    match on the result.

    Libraries.  [anyascii], [json.loads], [ast.literal_eval] and [str] of
    a value are parameters of the functions that call them. *)

From Stdlib Require Import Ascii String.
From stdpp Require Import base option list gmap strings pretty.

Set Warnings "-register-all".

Open Scope string_scope.

(** ** Exceptions *)

Inductive PyError :=
  | IndexError
  | KeyError (key : string)
  | ValueError (msg : string)
  | Exception_ (msg : string).

Inductive result (A : Type) :=
  | Ok (a : A)
  | Raise (e : PyError).
Arguments Ok {A} a.
Arguments Raise {A} e.

Definition bind {A B} (r : result A) (k : A -> result B) : result B :=
  match r with
  | Ok a => k a
  | Raise e => Raise e
  end.

Notation "'do' x <- r ; k" := (bind r (fun x => k))
  (at level 10, x pattern, r at level 100, k at level 200).

(** [xs[i]] on a list: [IndexError] out of range. *)
Definition item {A} (xs : list A) (i : nat) : result A :=
  match xs !! i with
  | Some x => Ok x
  | None => Raise IndexError
  end.

(** ** Characters *)

Definition code (c : ascii) : nat := nat_of_ascii c.

Definition ascii_eqb (a b : ascii) : bool := Ascii.eqb a b.

Definition between (lo hi : nat) (c : ascii) : bool :=
  (lo <=? code c)%nat && (code c <=? hi)%nat.

Definition is_digit (c : ascii) : bool := between 48 57 c.
Definition is_upper (c : ascii) : bool := between 65 90 c.
Definition is_lower (c : ascii) : bool := between 97 122 c.
Definition is_alpha (c : ascii) : bool := is_upper c || is_lower c.

(** [\w] *)
Definition is_word (c : ascii) : bool := is_alpha c || is_digit c || ascii_eqb c "_".

(** [\s], and the characters [str.strip()] removes, in ASCII text: tab,
    newline, vertical tab, form feed, carriage return, the four
    separators 28..31, space. *)
Definition is_space (c : ascii) : bool :=
  between 9 13 c || between 28 31 c || ascii_eqb c " ".

Definition lower (c : ascii) : ascii :=
  if is_upper c then ascii_of_nat (code c + 32) else c.
Definition upper (c : ascii) : ascii :=
  if is_lower c then ascii_of_nat (code c - 32) else c.

(** [c in chars] for a character. *)
Fixpoint char_in (chars : string) (c : ascii) : bool :=
  match chars with
  | "" => false
  | String d chars' => ascii_eqb c d || char_in chars' c
  end.

(** ** String methods *)

Definition is_empty (s : string) : bool :=
  match s with "" => true | _ => false end.

(** The text after [p] when [s] starts with [p]. *)
Fixpoint after_prefix (p s : string) : option string :=
  match p, s with
  | "", _ => Some s
  | String a p', String b s' => if ascii_eqb a b then after_prefix p' s' else None
  | String _ _, "" => None
  end.

(** [s.startswith(p)] *)
Definition startswith (s p : string) : bool :=
  match after_prefix p s with Some _ => true | None => false end.

Fixpoint drop_chars (n : nat) (s : string) : string :=
  match n, s with
  | 0, _ => s
  | S n', String _ s' => drop_chars n' s'
  | S _, "" => ""
  end.

Fixpoint take_chars (n : nat) (s : string) : string :=
  match n, s with
  | 0, _ => ""
  | S n', String c s' => String c (take_chars n' s')
  | S _, "" => ""
  end.

(** [s.endswith(p)] *)
Definition endswith (s p : string) : bool :=
  String.eqb (drop_chars (String.length s - String.length p) s) p
  && (String.length p <=? String.length s)%nat.

(** [s[a:-b]] for literal non-negative [a] and [b]. *)
Definition slice (a b : nat) (s : string) : string :=
  take_chars (String.length s - a - b) (drop_chars a s).

(** [s.lstrip(chars)], with the set of characters given as a predicate. *)
Fixpoint lstrip (p : ascii -> bool) (s : string) : string :=
  match s with
  | "" => ""
  | String c s' => if p c then lstrip p s' else s
  end.

(** [s.rstrip(chars)] *)
Fixpoint rstrip (p : ascii -> bool) (s : string) : string :=
  match s with
  | "" => ""
  | String c s' =>
      let r := rstrip p s' in
      if is_empty r && p c then "" else String c r
  end.

(** [s.strip()] and [s.strip(chars)] *)
Definition strip_chars (p : ascii -> bool) (s : string) : string := lstrip p (rstrip p s).
Definition strip (s : string) : string := strip_chars is_space s.

(** The first occurrence of a non-empty [sep] in [s]: the text before it
    and the text after it ([str.partition] without the middle). *)
Fixpoint cut (sep s : string) : option (string * string) :=
  match after_prefix sep s with
  | Some rest => Some ("", rest)
  | None =>
      match s with
      | "" => None
      | String c s' =>
          match cut sep s' with
          | Some (a, b) => Some (String c a, b)
          | None => None
          end
      end
  end.

(** [sep in s] *)
Definition contains (s sep : string) : bool :=
  match cut sep s with Some _ => true | None => false end.

(** [s.split(sep, maxsplit)] for a non-empty [sep]: at most [maxsplit]
    cuts, left to right. *)
Fixpoint split_max (maxsplit : nat) (sep s : string) : list string :=
  match maxsplit with
  | 0 => [s]
  | S n =>
      match cut sep s with
      | Some (a, b) => a :: split_max n sep b
      | None => [s]
      end
  end.

(** [s.split(sep)]: every cut consumes a character, so [len(s)] cuts are
    never exceeded. *)
Definition split (sep s : string) : list string := split_max (String.length s) sep s.

(** [s.replace(old, new)] for a non-empty [old]; the counter bounds the
    number of replacements as in [split]. *)
Fixpoint replace_max (n : nat) (old new s : string) : string :=
  match n with
  | 0 => s
  | S n' =>
      match cut old s with
      | Some (a, b) => a +:+ new +:+ replace_max n' old new b
      | None => s
      end
  end.

Definition replace (old new s : string) : string := replace_max (String.length s) old new s.

(** [s.capitalize()] *)
Fixpoint map_chars (f : ascii -> ascii) (s : string) : string :=
  match s with
  | "" => ""
  | String c s' => String (f c) (map_chars f s')
  end.

Definition capitalize (s : string) : string :=
  match s with
  | "" => ""
  | String c s' => String (upper c) (map_chars lower s')
  end.

(** ** Values

    The values the module receives as [Any]: JSON-like data, without
    floating point numbers. *)

Inductive pyval :=
  | VNone
  | VBool (b : bool)
  | VInt (z : Z)
  | VStr (s : string)
  | VList (l : list pyval)
  | VDict (d : list (string * pyval)).

(** ** [scholarqa.utils.make_int]

    [int(x)] of an ASCII string accepts surrounding white space, one
    sign, and decimal digits in groups separated by single underscores,
    [4300] digits at most; whenever [int] raises, [make_int] answers 0. *)

Fixpoint digits_value (acc : Z) (sep_ok : bool) (s : string) : option Z :=
  match s with
  | "" => if sep_ok then Some acc else None
  | String c s' =>
      if is_digit c then digits_value (10 * acc + Z.of_nat (code c - 48))%Z true s'
      else if ascii_eqb c "_" && sep_ok
           then match s' with "" => None | _ => digits_value acc false s' end
           else None
  end.

(** The white space [int] skips at the two ends of an ASCII text: tab,
    newline, vertical tab, form feed, carriage return and space.  The
    separators 28..31, which [str.strip()] removes, make [int] raise. *)
Definition int_space (c : ascii) : bool := between 9 13 c || ascii_eqb c " ".

(** [sys.get_int_max_str_digits()]: [int] raises on a text with more
    digits than this, leading zeros counted, underscores not. *)
Definition int_max_str_digits : N := 4300.

Fixpoint digit_count (s : string) : N :=
  match s with
  | "" => 0
  | String c s' => if is_digit c then N.succ (digit_count s') else digit_count s'
  end.

Definition parse_int (x : string) : option Z :=
  let digits s :=
    if (digit_count s <=? int_max_str_digits)%N then digits_value 0 false s else None in
  match strip_chars int_space x with
  | String "-" s => Z.opp <$> digits s
  | String "+" s => digits s
  | s => digits s
  end.

Definition make_int (x : pyval) : Z :=
  match x with
  | VInt z => z
  | VBool b => if b then 1%Z else 0%Z
  | VStr s => default 0%Z (parse_int s)
  | _ => 0%Z
  end.

(** ** Dictionaries in insertion order

    A [dict] whose order of keys matters is a list of items; assigning
    to a present key keeps its position. *)

Definition dict (V : Type) := list (string * V).

Fixpoint dict_get {V} (d : dict V) (k : string) : option V :=
  match d with
  | [] => None
  | (k', v) :: d' => if String.eqb k k' then Some v else dict_get d' k
  end.

Definition dict_has {V} (d : dict V) (k : string) : bool :=
  match dict_get d k with Some _ => true | None => false end.

Fixpoint dict_set {V} (d : dict V) (k : string) (v : V) : dict V :=
  match d with
  | [] => [(k, v)]
  | (k', v') :: d' =>
      if String.eqb k k' then (k, v) :: d' else (k', v') :: dict_set d' k v
  end.

(** A dict comprehension over [items], in order. *)
Definition dict_of {V} (items : list (string * V)) : dict V :=
  fold_left (fun d kv => dict_set d kv.1 kv.2) items [].

Definition dict_keys {V} (d : dict V) : list string := d.*1.

(** [d[k]] *)
Definition getitem {V} (d : dict V) (k : string) : result V :=
  match dict_get d k with
  | Some v => Ok v
  | None => Raise (KeyError k)
  end.

(** ** LabelDisambiguator: [resolve_ref_id]

    [citation_ids] maps an author/year string to the labels handed out
    under it, by corpus id.  The function answers the label and the
    updated map. *)

Definition resolve_ref_id (ref_str ref_corpus_id : string)
    (citation_ids : gmap string (gmap string string))
    : string * gmap string (gmap string string) :=
  let citation_ids :=
    match citation_ids !! ref_str with
    | None => <[ref_str := ∅]> citation_ids
    | Some _ => citation_ids
    end in
  let seen : gmap string string := default ∅ (citation_ids !! ref_str) in
  match seen !! ref_corpus_id with
  | None =>
      let ref_str_id :=
        if decide (size seen = 0) then ref_str
        else
          match split "," ref_str with
          | r0 :: r1 :: _ => r0 +:+ "_" +:+ pretty (size seen) +:+ "," +:+ r1
          | _ => ref_str +:+ "_" +:+ pretty (size seen)
          end in
      (ref_str_id, <[ref_str := <[ref_corpus_id := ref_str_id]> seen]> citation_ids)
  | Some ref_str_id => (ref_str_id, citation_ids)
  end.

(** A run of assignments over one shared map, in call order. *)
Fixpoint assign_all (calls : list (string * string))
    (citation_ids : gmap string (gmap string string))
    : list string * gmap string (gmap string string) :=
  match calls with
  | [] => ([], citation_ids)
  | (ref_str, ref_corpus_id) :: calls' =>
      let '(l, citation_ids') := resolve_ref_id ref_str ref_corpus_id citation_ids in
      let '(ls, final) := assign_all calls' citation_ids' in
      (l :: ls, final)
  end.

(** ** Regular expressions

    The patterns of the module are sequences of the atoms below, matched
    by backtracking in Python's order: a greedy repetition tries the
    longest run first, a lazy one the shortest, an optional literal is
    tried before its absence, and a search takes the leftmost position
    at which the pattern matches. *)

Inductive atom :=
  | Lit (s : string)                                     (* literal text *)
  | LitI (s : string)                                    (* literal text, re.IGNORECASE *)
  | Rep (cls : ascii -> bool) (least : nat) (greedy : bool)  (* cls*, cls+, cls*? *)
  | Opt (s : string)                                     (* (?:s)? *)
  | WordB                                                (* \b *)
  | Open                                                 (* start of group 1, which runs to the end of the pattern *).

Definition regex := list atom.

Definition not_space (c : ascii) : bool := negb (is_space c).
Definition not_newline (c : ascii) : bool := negb (ascii_eqb c "010").

(** [after_prefix] under IGNORECASE. *)
Fixpoint after_prefix_ci (p s : string) : option string :=
  match p, s with
  | "", _ => Some s
  | String a p', String b s' =>
      if ascii_eqb (lower a) (lower b) then after_prefix_ci p' s' else None
  | String _ _, "" => None
  end.

(** The character before the position reached after consuming [n]
    characters of [s], [prev] when nothing was consumed. *)
Fixpoint last_consumed (n : nat) (s : string) (prev : option ascii) : option ascii :=
  match n, s with
  | S n', String c s' => last_consumed n' s' (Some c)
  | _, _ => prev
  end.

Definition word_at (c : option ascii) : bool :=
  match c with Some c => is_word c | None => false end.

Definition first_char (s : string) : option ascii :=
  match s with String c _ => Some c | "" => None end.

Section Repetition.
Context {R : Type} (cls : ascii -> bool) (k : option ascii -> string -> option R).

Fixpoint rep_greedy (least : nat) (prev : option ascii) (s : string) : option R :=
  let stop := match least with 0 => k prev s | S _ => None end in
  match s with
  | String c s' =>
      if cls c then
        match rep_greedy (pred least) (Some c) s' with
        | Some r => Some r
        | None => stop
        end
      else stop
  | "" => stop
  end.

Fixpoint rep_lazy (least : nat) (prev : option ascii) (s : string) : option R :=
  match (match least with 0 => k prev s | S _ => None end) with
  | Some r => Some r
  | None =>
      match s with
      | String c s' => if cls c then rep_lazy (pred least) (Some c) s' else None
      | "" => None
      end
  end.
End Repetition.

(** Match [p] at the start of [s], [prev] being the character before it.
    The answer is the input at the start of group 1 (if the pattern has
    one) and the input left after the match. *)
Fixpoint match_here (p : regex) (grp : option string) (prev : option ascii) (s : string)
    : option (option string * string) :=
  match p with
  | [] => Some (grp, s)
  | Lit l :: p' =>
      match after_prefix l s with
      | Some s' => match_here p' grp (last_consumed (String.length l) s prev) s'
      | None => None
      end
  | LitI l :: p' =>
      match after_prefix_ci l s with
      | Some s' => match_here p' grp (last_consumed (String.length l) s prev) s'
      | None => None
      end
  | Rep cls least true :: p' => rep_greedy cls (match_here p' grp) least prev s
  | Rep cls least false :: p' => rep_lazy cls (match_here p' grp) least prev s
  | Opt l :: p' =>
      let without := match_here p' grp prev s in
      match after_prefix l s with
      | Some s' =>
          match match_here p' grp (last_consumed (String.length l) s prev) s' with
          | Some r => Some r
          | None => without
          end
      | None => without
      end
  | WordB :: p' =>
      if xorb (word_at prev) (word_at (first_char s)) then match_here p' grp prev s else None
  | Open :: p' => match_here p' (Some s) prev s
  end.

(** The text consumed between input [s] and its suffix [rest]. *)
Definition consumed (s rest : string) : string :=
  take_chars (String.length s - String.length rest) s.

(** [re.search(p, s)]: the text before the leftmost match, the match and
    the text after it. *)
Fixpoint search_from (p : regex) (prev : option ascii) (s : string)
    : option (string * string * string) :=
  match match_here p None prev s with
  | Some (_, rest) => Some ("", consumed s rest, rest)
  | None =>
      match s with
      | "" => None
      | String c s' =>
          match search_from p (Some c) s' with
          | Some (before, m, rest) => Some (String c before, m, rest)
          | None => None
          end
      end
  end.

Definition re_search (p : regex) (s : string) : option (string * string * string) :=
  search_from p None s.

(** [re.sub(p, repl, s)] for a pattern that matches no empty text; [repl]
    receives group 1 (the whole match when the pattern has no group).
    Each round consumes a character, so [len(s) + 1] rounds suffice. *)
Fixpoint sub_from (n : nat) (p : regex) (repl : string -> string)
    (prev : option ascii) (s : string) : string :=
  match n with
  | 0 => s
  | S n' =>
      let skip :=
        match s with
        | "" => ""
        | String c s' => String c (sub_from n' p repl (Some c) s')
        end in
      match match_here p None prev s with
      | Some (grp, rest) =>
          if (String.length rest <? String.length s)%nat then
            repl (consumed (default s grp) rest)
            +:+ sub_from n' p repl
                  (last_consumed (String.length s - String.length rest) s prev) rest
          else skip
      | None => skip
      end
  end.

Definition re_sub (p : regex) (repl : string -> string) (s : string) : string :=
  sub_from (S (String.length s)) p repl None s.

(** [re.findall(p, s)] for a pattern without group that matches no empty
    text. *)
Fixpoint findall_from (n : nat) (p : regex) (prev : option ascii) (s : string) : list string :=
  match n with
  | 0 => []
  | S n' =>
      let skip :=
        match s with
        | "" => []
        | String c s' => findall_from n' p (Some c) s'
        end in
      match match_here p None prev s with
      | Some (_, rest) =>
          if (String.length rest <? String.length s)%nat then
            consumed s rest
            :: findall_from n' p
                 (last_consumed (String.length s - String.length rest) s prev) rest
          else skip
      | None => skip
      end
  end.

Definition re_findall (p : regex) (s : string) : list string :=
  findall_from (S (String.length s)) p None s.

(** ** Records of the answer *)

Record QuoteRecord := {
  quote : string;
  inline_citations : list (string * string);
}.

(** The dictionary [pop_ref_data] builds; [paper] is the nested
    dictionary, [score] is absent without metadata. *)
Record CitationRecord := {
  id : string;
  snippets : list string;
  paper : dict pyval;
  score : option pyval;
}.

(** The dictionary of one section; [citations] is set by the assembler. *)
Record section := {
  title : string;
  tldr : option string;
  text : string;
  citations : list CitationRecord;
}.

(** ** SectionSegmenter: [find_tldr_super_token], [get_section_text] *)

Definition nl : string := String "010" "".

(** [\b\w*tldr\w*\b] under IGNORECASE *)
Definition tldr_word : regex :=
  [WordB; Rep is_word 0 true; LitI "tldr"; Rep is_word 0 true; WordB].

(** [[^\s]*<token>[^\s]*] under IGNORECASE; the token is made of word
    characters, which [re.escape] leaves as they are. *)
Definition tldr_super (tldr_token : string) : regex :=
  [Rep not_space 0 true; LitI tldr_token; Rep not_space 0 true].

Definition find_tldr_super_token (text : string) : option string :=
  match re_search tldr_word text with
  | Some (_, tldr_token, _) =>
      match re_search (tldr_super tldr_token) text with
      | Some (_, tldr_super_token, _) => Some tldr_super_token
      | None => None
      end
  | None => None
  end.

Definition get_section_text (gen_text : string) : result section :=
  let tldr_token := find_tldr_super_token gen_text in
  let parts :=
    match tldr_token with
    | Some tok => split tok gen_text
    | None => [gen_text]
    end in
  if (1 <? length parts)%nat then
    do part0 <- item parts 0;
    let title := strip part0 in
    let title := re_sub [Rep is_space 0 true; Lit "(list)"] (fun _ => "") title in
    let title := re_sub [Rep is_space 0 true; Lit "(synthesis)"] (fun _ => "") title in
    let title := strip (strip_chars (char_in "#") title) in
    match tldr_token with
    | Some _ =>
        do part1 <- item parts 1;
        let text_parts := split_max 1 nl (strip part1) in
        do tldr <- item text_parts 0;
        do text <- item text_parts 1;
        Ok {| title := title;
              tldr := Some (strip (strip_chars (char_in "#") tldr));
              text := text;
              citations := [] |}
    | None =>
        do part1 <- item parts 1;
        Ok {| title := title; tldr := None; text := strip part1; citations := [] |}
    end
  else Raise (Exception_ "Invalid content generated for the query by the LLM").

(** ** CitationRecordBuilder: [pop_ref_data] *)

Definition pop_ref_data (ref_str_id ref_corpus_id fixed_quote : string)
    (curr_paper_metadata : option (dict pyval)) : result CitationRecord :=
  let snippets := strip <$> split "..." fixed_quote in
  let paper := [("corpus_id", VStr ref_corpus_id)] in
  match curr_paper_metadata with
  | Some ((_ :: _) as m) =>
      let score := default (VInt 0) (dict_get m "relevance_judgement") in
      do title <- getitem m "title";
      let paper := dict_set paper "title" title in
      do authors <- getitem m "authors";
      let paper := dict_set paper "authors" authors in
      let paper := dict_set paper "year" (VInt (make_int (default (VInt 0) (dict_get m "year")))) in
      do venue <- getitem m "venue";
      let paper := dict_set paper "venue" venue in
      do n_citations <- getitem m "citationCount";
      let paper := dict_set paper "n_citations" n_citations in
      Ok {| id := ref_str_id; snippets := snippets; paper := paper; score := Some score |}
  | _ => Ok {| id := ref_str_id; snippets := snippets; paper := paper; score := None |}
  end.

(** ** AnswerAssembler: [get_json_summary] *)

Definition dq : string := String "034" "".
Definition left_quote : string := String "226" (String "128" (String "156" "")).
Definition right_quote : string := String "226" (String "128" (String "157" "")).

Definition text_ref_format (corpus_id ref_str : string) : string :=
  "<Paper corpusId=" +:+ dq +:+ corpus_id +:+ dq +:+ " arxivId=" +:+ dq +:+ corpus_id +:+ dq
  +:+ " paperTitle=" +:+ dq +:+ ref_str +:+ dq +:+ " isShortName></Paper>".

(** Lines 310-314: the quote, trimmed, with straight quotes and without
    one leading and one trailing ellipsis. *)
Definition fix_quote (fixed_quote : string) : string :=
  let fixed_quote := replace right_quote dq (replace left_quote dq (strip fixed_quote)) in
  let fixed_quote :=
    if startswith fixed_quote "..." then drop_chars 3 fixed_quote else fixed_quote in
  if endswith fixed_quote "..." then slice 0 3 fixed_quote else fixed_quote.

(** [(?:; )?(\S+ \| [A-Za-z. ]+ \| \d+ \| Citations: \d+)] *)
Definition name_char (c : ascii) : bool := is_alpha c || char_in ". " c.

Definition adjacent_citation : regex :=
  [Opt "; "; Open; Rep not_space 1 true; Lit " | "; Rep name_char 1 true; Lit " | ";
   Rep is_digit 1 true; Lit " | Citations: "; Rep is_digit 1 true].

(** The replacement [] [\1]. *)
Definition reopen (group1 : string) : string := "] [" +:+ group1.

(** [\[.*?\]] *)
Definition bracket_span : regex := [Lit "["; Rep not_newline 0 false; Lit "]"].

Inductive source := main | inline.

(** What the loop over the references of one section carries. *)
Record loop_state := {
  ls_text : string;
  ls_refs_list : list CitationRecord;
  ls_refs_done : gset string;
  ls_citation_ids : gmap string (gmap string string);
}.

(** Lines 275-278: the first field of a bracketed reference; the fallback
    of the [except] clause is what an empty split would leave. *)
Definition ref_id_token (ref : string) : string :=
  match split " | " (slice 1 1 ref) with
  | ref_token :: _ => ref_token
  | [] => strip_chars (char_in "[]") ref
  end.

(** The leading labels [normalize_id] removes, in the order it tries them. *)
Definition id_labels : list string := ["paperid "; "paperId "; "arxiv:"; "arXiv:"].

Section Assembler.
(** [anyascii.anyascii], the transliteration to ASCII of the library of
    that name. *)
Variable anyascii : string -> string.

Definition normalize_id (id_token : option string) : string :=
  match id_token with
  | None => ""
  | Some id_token =>
      let norm := strip (anyascii id_token) in
      let norm :=
        fold_left
          (fun norm prefix =>
             if startswith norm prefix then drop_chars (String.length prefix) norm else norm)
          id_labels norm in
      let norm := rstrip (char_in ".,;: ]") norm in
      lstrip (char_in "[") norm
  end.

Definition key_to_norm_id (key : string) : string :=
  match split " | " (slice 1 1 key) with
  | token :: _ => normalize_id (Some token)
  | [] => ""
  end.

(** Lines 248-249: from normalized id to bracket key, for the keys of a
    pool in order. *)
Definition id_to_key (keys : list string) : dict string :=
  dict_of ((fun k => (key_to_norm_id k, k)) <$> keys).

Variable summary_quotes : dict QuoteRecord.
Variable inline_citation_quotes : dict string.
Variable id_to_main_key : dict string.
Variable id_to_inline_key : dict string.

(** Lines 267-297: the resolved key and its pool, for a transliterated
    reference. *)
Definition resolve_token (ref : string) : option (string * source) :=
  if dict_has summary_quotes ref || dict_has inline_citation_quotes ref then
    Some (ref, if dict_has summary_quotes ref then main else inline)
  else
    let norm_ref_id := normalize_id (Some (ref_id_token ref)) in
    match dict_get id_to_main_key norm_ref_id with
    | Some key => Some (key, main)
    | None =>
        match dict_get id_to_inline_key norm_ref_id with
        | Some key => Some (key, inline)
        | None =>
            let main_candidates :=
              if is_empty norm_ref_id then []
              else List.filter (fun k => startswith k norm_ref_id) (dict_keys id_to_main_key) in
            let inline_candidates :=
              if is_empty norm_ref_id then []
              else List.filter (fun k => startswith k norm_ref_id) (dict_keys id_to_inline_key) in
            match main_candidates, inline_candidates with
            | [k], _ => (fun key => (key, main)) <$> dict_get id_to_main_key k
            | _, [k] => (fun key => (key, inline)) <$> dict_get id_to_inline_key k
            | _, _ => None
            end
        end
    end.

Variable paper_metadata : gmap string (dict pyval).
Variable inline_tags : bool.

(** Lines 266-328: one round of the loop over the references. *)
Definition cite (st : loop_state) (ref : string) : result loop_state :=
  let ref := anyascii ref in
  match resolve_token ref with
  | Some (String c key' as resolved_key, resolved_source) =>
      let ref_parts := split " | " (slice 1 1 resolved_key) in
      do ref_corpus_id <- item ref_parts 0;
      do author <- item ref_parts 1;
      do year <- item ref_parts 2;
      let ref_str :=
        replace "NULL, " "" ("(" +:+ author +:+ ", " +:+ pretty (make_int (VStr year)) +:+ ")") in
      let norm_done_id := normalize_id (Some ref_corpus_id) in
      if decide (norm_done_id ∈ ls_refs_done st) then Ok st
      else
        do fixed_quote <-
          match resolved_source with
          | main => do q <- getitem summary_quotes resolved_key; Ok (quote q)
          | inline => getitem inline_citation_quotes resolved_key
          end;
        let fixed_quote := fix_quote fixed_quote in
        let '(ref_str_id, citation_ids) :=
          resolve_ref_id ref_str ref_corpus_id (ls_citation_ids st) in
        do ref_data <-
          pop_ref_data ref_str_id ref_corpus_id fixed_quote (paper_metadata !! ref_corpus_id);
        let new :=
          if inline_tags then text_ref_format ref_corpus_id (id ref_data) else id ref_data in
        Ok {| ls_text := replace ref new (ls_text st);
              ls_refs_list := ls_refs_list st ++ [ref_data];
              ls_refs_done := {[norm_done_id]} ∪ ls_refs_done st;
              ls_citation_ids := citation_ids |}
  | _ =>
      Ok {| ls_text := replace ref "" (ls_text st);
            ls_refs_list := ls_refs_list st;
            ls_refs_done := ls_refs_done st;
            ls_citation_ids := ls_citation_ids st |}
  end.

Fixpoint cite_all (st : loop_state) (references : list string) : result loop_state :=
  match references with
  | [] => Ok st
  | ref :: references' => do st' <- cite st ref; cite_all st' references'
  end.

Variable llm_ref_format : string.

(** Lines 251-339: one section. *)
Definition assemble_section (sec : string) (citation_ids : gmap string (gmap string string))
    : result (section * gmap string (gmap string string)) :=
  do curr_section <- get_section_text sec;
  let text := text curr_section in
  let text := re_sub adjacent_citation reopen text in
  let text := re_sub [Lit "[]"] (fun _ => "") text in
  let references := re_findall bracket_span text in
  do st <- cite_all {| ls_text := replace "[LLM MEMORY | 2024]" llm_ref_format text;
                       ls_refs_list := [];
                       ls_refs_done := ∅;
                       ls_citation_ids := citation_ids |} references;
  let refs_list := ls_refs_list st in
  do tldr <- match tldr curr_section with
             | Some t => Ok t
             | None => Raise (KeyError "tldr")
             end;
  let tldr :=
    if is_empty tldr then tldr
    else match refs_list with
         | [] => tldr +:+ " (LLM Memory)"
         | [_] => tldr +:+ " (1 source)"
         | _ => tldr +:+ " (" +:+ pretty (length refs_list) +:+ " sources)"
         end in
  Ok ({| title := title curr_section;
         tldr := Some tldr;
         text := re_sub [Rep (ascii_eqb " ") 1 true] (fun _ => " ") (ls_text st);
         citations := refs_list |},
      ls_citation_ids st).

Fixpoint assemble_sections (summary_sections : list string)
    (citation_ids : gmap string (gmap string string))
    : result (list section * gmap string (gmap string string)) :=
  match summary_sections with
  | [] => Ok ([], citation_ids)
  | sec :: rest =>
      do done_one <- assemble_section sec citation_ids;
      do done_rest <- assemble_sections rest done_one.2;
      Ok (done_one.1 :: done_rest.1, done_rest.2)
  end.
End Assembler.

(** The sections of the answer and the disambiguation map as the call
    leaves it. *)
Definition get_json_summary_state (anyascii : string -> string) (llm_model : string)
    (summary_sections : list string) (summary_quotes : list (string * QuoteRecord))
    (paper_metadata : gmap string (dict pyval))
    (citation_ids : gmap string (gmap string string)) (inline_tags : bool)
    : result (list section * gmap string (gmap string string)) :=
  let llm_name_parts := split_max 1 "/" llm_model in
  do provider <- item llm_name_parts 0;
  do version <- item llm_name_parts 1;
  let llm_ref_format :=
    "<Model name=" +:+ dq +:+ capitalize provider +:+ dq
    +:+ " version=" +:+ dq +:+ version +:+ dq +:+ ">" in
  let summary_quotes := dict_of ((fun kv => (anyascii kv.1, kv.2)) <$> summary_quotes) in
  let inline_citation_quotes :=
    dict_of (flat_map (fun kv => (fun kv' => (anyascii kv'.1, kv'.2)) <$> inline_citations kv.2)
                      summary_quotes) in
  let id_to_main_key := id_to_key anyascii (dict_keys summary_quotes) in
  let id_to_inline_key := id_to_key anyascii (dict_keys inline_citation_quotes) in
  assemble_sections anyascii summary_quotes inline_citation_quotes id_to_main_key
    id_to_inline_key paper_metadata inline_tags llm_ref_format summary_sections citation_ids.

Definition get_json_summary (anyascii : string -> string) (llm_model : string)
    (summary_sections : list string) (summary_quotes : list (string * QuoteRecord))
    (paper_metadata : gmap string (dict pyval))
    (citation_ids : gmap string (gmap string string)) (inline_tags : bool)
    : result (list section) :=
  do r <- get_json_summary_state anyascii llm_model summary_sections summary_quotes
            paper_metadata citation_ids inline_tags;
  Ok r.1.

(** ** RobustStructuredDecoder: [safe_json_parse]

    What the decoder receives: a value, or an object with a [content]
    attribute (a [CompletionCost]) holding one. *)

Inductive raw :=
  | Plain (v : pyval)
  | WithContent (content : pyval).

Definition strip_code_fences (text : string) : string :=
  let text := strip text in
  if startswith text "```" && endswith text "```" then
    let inner := strip (slice 3 3 text) in
    match cut nl inner with
    | Some (first_line, rest) =>
        let lang := map_chars lower (strip first_line) in
        if bool_decide (lang ∈ ["json"; "javascript"; "ts"; "python"]) then strip rest
        else inner
    | None => inner
    end
  else text.

(** The loop of [extract_json_slice] from index [i] on: the bounds
    [start, i + 1) of the first span that empties the stack. *)
Fixpoint json_span (text : string) (i : nat) (stack : list ascii) (start : option nat)
    : option (nat * nat) :=
  match text with
  | "" => None
  | String ch text' =>
      if char_in "[{" ch then
        json_span text' (S i) (ch :: stack) (match stack with [] => Some i | _ => start end)
      else if char_in "]}" ch then
        match stack with
        | _ :: stack' =>
            match stack', start with
            | [], Some st => Some (st, S i)
            | _, _ => json_span text' (S i) stack' start
            end
        | [] => json_span text' (S i) [] start
        end
      else json_span text' (S i) stack start
  end.

Definition extract_json_slice (text : string) : string :=
  match json_span text 0 [] None with
  | Some (start, stop) => take_chars (stop - start) (drop_chars start text)
  | None => text
  end.

Section Decoder.
(** [str(x)], [json.loads] and [ast.literal_eval]; a parser answers
    [None] when it raises. *)
Variable py_str : pyval -> string.
Variable json_loads : string -> option pyval.
Variable literal_eval : string -> option pyval.

(** Lines 78-109: the stages on text. *)
Definition decode_text (raw_output : string) : result pyval :=
  let text := strip_code_fences raw_output in
  let candidate := extract_json_slice text in
  match json_loads candidate with
  | Some v => Ok v
  | None =>
      let soft :=
        if contains candidate "'" && negb (contains candidate dq)
        then json_loads (replace "'" dq candidate) else None in
      match soft with
      | Some v => Ok v
      | None =>
          match literal_eval candidate with
          | Some v => Ok v
          | None =>
              match json_loads text with
              | Some v => Ok v
              | None => Raise (ValueError "Failed to parse JSON output")
              end
          end
      end
  end.

Definition safe_json_parse (raw_output : raw) : result pyval :=
  let raw_output :=
    match raw_output with
    | WithContent content => content
    | Plain (VStr s) => VStr s
    | Plain v => VStr (py_str v)
    end in
  match raw_output with
  | VNone => Raise (ValueError "No content to parse")
  | VDict _ | VList _ => Ok raw_output
  | VStr s => decode_text s
  | v => decode_text (py_str v)
  end.
End Decoder.

(** A transliteration without table: ASCII characters are kept, which is
    what [anyascii] does with them, and every other byte is dropped. *)
Fixpoint ascii_only (s : string) : string :=
  match s with
  | "" => ""
  | String c s' => if (code c <? 128)%nat then String c (ascii_only s') else ascii_only s'
  end.

(** ** Predicates of the statements *)

(** The label [resolve_ref_id] hands to the [k]-th distinct corpus id
    (counted from 0) seen under [ref_str]. *)
Definition label_for (ref_str : string) (k : nat) : string :=
  match k with
  | 0 => ref_str
  | S _ =>
      match split "," ref_str with
      | r0 :: r1 :: _ => r0 +:+ "_" +:+ pretty k +:+ "," +:+ r1
      | _ => ref_str +:+ "_" +:+ pretty k
      end
  end.

(** The labels recorded under each author/year string are those of the
    ranks below the number of recorded ids, one id per label. *)
Definition labels_ok (citation_ids : gmap string (gmap string string)) : Prop :=
  ∀ ref_str seen, citation_ids !! ref_str = Some seen →
    (∀ c l, seen !! c = Some l → ∃ k, k < size seen ∧ l = label_for ref_str k) ∧
    (∀ c1 c2 l, seen !! c1 = Some l → seen !! c2 = Some l → c1 = c2).

Definition recorded (citation_ids : gmap string (gmap string string))
    (ref_str ref_corpus_id l : string) : Prop :=
  ∃ seen, citation_ids !! ref_str = Some seen ∧ seen !! ref_corpus_id = Some l.

(** Text made of ASCII characters only. *)
Fixpoint is_ascii_text (s : string) : bool :=
  match s with
  | "" => true
  | String c s' => (code c <? 128)%nat && is_ascii_text s'
  end.

(** [s] starts with one of the labels of [normalize_id]. *)
Definition has_label (s : string) : bool := existsb (startswith s) id_labels.



(** Every character of [s] is in the class. *)
Fixpoint all_chars (cls : ascii → bool) (s : string) : bool :=
  match s with
  | "" => true
  | String c s' => cls c && all_chars cls s'
  end.

(** [s] starts with a character of the class. *)
Definition head_in (cls : ascii → bool) (s : string) : bool :=
  match s with
  | String c _ => cls c
  | "" => false
  end.

(** The pattern has no [\b]: its matches do not look behind. *)
Definition no_wordb (p : regex) : bool :=
  forallb (fun a => match a with WordB => false | _ => true end) p.

(** A fragment shaped like a composite key. *)
Definition key_fragment (id_field name year count : string) : string :=
  id_field +:+ " | " +:+ name +:+ " | " +:+ year +:+ " | Citations: " +:+ count.

Definition key_fields_ok (id_field name year count : string) : bool :=
  negb (is_empty id_field) && all_chars not_space id_field
  && negb (String.eqb id_field ";")
  && negb (is_empty name) && all_chars name_char name
  && negb (is_empty year) && all_chars is_digit year
  && negb (is_empty count) && all_chars is_digit count.

(** [needle] occurs in [s], letter case aside. *)
Fixpoint occurs_ci (needle s : string) : bool :=
  match after_prefix_ci needle s with
  | Some _ => true
  | None =>
      match s with
      | "" => false
      | String _ s' => occurs_ci needle s'
      end
  end.

(** The longest run of characters of the class at the start of [s], and
    what follows it. *)
Fixpoint run_of (cls : ascii → bool) (s : string) : string :=
  match s with
  | String c s' => if cls c then String c (run_of cls s') else ""
  | "" => ""
  end.

Definition after_run (cls : ascii → bool) (s : string) : string :=
  drop_chars (String.length (run_of cls s)) s.

(** The least number of characters a match of the pattern consumes. *)
Fixpoint min_len (p : regex) : nat :=
  match p with
  | [] => 0
  | Lit l :: p' | LitI l :: p' => String.length l + min_len p'
  | Rep _ least _ :: p' => least + min_len p'
  | _ :: p' => min_len p'
  end.

(** ** [scholarqa.utils.get_ref_author_str]

    An author is a dictionary from field names to text.  [s.split()]
    answers the maximal runs of characters that are not white space, in
    order. *)

Fixpoint split_ws (s : string) : list string :=
  match s with
  | "" => []
  | String c s' =>
      if is_space c then split_ws s'
      else if head_in not_space s' then
        match split_ws s' with
        | w :: ws => String c w :: ws
        | [] => [String c ""]
        end
      else String c "" :: split_ws s'
  end.

(** [xs[-1]] *)
Definition last_item {A} (xs : list A) : result A :=
  match last xs with
  | Some x => Ok x
  | None => Raise IndexError
  end.

Definition get_ref_author_str (authors : list (dict string)) : result string :=
  match authors with
  | [] => Ok "NULL"
  | first_author :: others =>
      do name <- getitem first_author "name";
      do f_author_lname <- last_item (split_ws name);
      Ok (match others with
          | [] => f_author_lname
          | _ :: _ => f_author_lname +:+ " et al."
          end)
  end.

(** ** [scholarqa.utils.get_paper_metadata]

    The request to the Semantic Scholar API is a parameter: it receives
    the ids of the payload and answers the decoded response or raises.
    The set of requested ids is the list of its elements in iteration
    order; the answer maps an id to the metadata stored for it. *)

Definition NUMERIC_META_FIELDS : list string :=
  ["year"; "citationCount"; "referenceCount"; "influentialCitationCount"].

(** Line 169: the numeric fields of one paper of the response as
    integers, the other fields as they are. *)
Definition normalized (pdata : dict pyval) : dict pyval :=
  dict_of ((fun kv =>
              (kv.1, if bool_decide (kv.1 ∈ NUMERIC_META_FIELDS) then VInt (make_int kv.2)
                     else default VNone (dict_get pdata kv.1))) <$> pdata).

(** Lines 127-139: the placeholder entry of a requested id. *)
Definition placeholder_metadata (corpus_id : string) : dict pyval :=
  [("corpusId", VStr corpus_id);
   ("title", VStr ("Paper " +:+ corpus_id));
   ("abstract", VStr ("Abstract for paper " +:+ corpus_id));
   ("year", VInt 2024);
   ("citationCount", VInt 0);
   ("referenceCount", VInt 0);
   ("influentialCitationCount", VInt 0);
   ("authors", VList []);
   ("venue", VStr "localhost");
   ("isOpenAccess", VBool true);
   ("openAccessPdf", VNone)].

(** The truth value of a value in a condition. *)
Definition truthy (v : pyval) : bool :=
  match v with
  | VNone => false
  | VBool b => b
  | VInt z => negb (z =? 0)%Z
  | VStr s => negb (is_empty s)
  | VList l => match l with [] => false | _ :: _ => true end
  | VDict d => match d with [] => false | _ :: _ => true end
  end.

(** [re.match(r"^\d{4}\.\d{4,5}(v\d+)?$", scid, re.IGNORECASE)] on a
    trimmed text: four digits, a dot, a run of four or five digits,
    and nothing more or a [v] with digits up to the end. *)
Definition arxiv_id_shape (scid : string) : bool :=
  let number := run_of is_digit (drop_chars 5 scid) in
  let version := after_run is_digit (drop_chars 5 scid) in
  (String.length (take_chars 4 scid) =? 4)%nat
  && all_chars is_digit (take_chars 4 scid)
  && String.eqb (take_chars 1 (drop_chars 4 scid)) "."
  && ((String.length number =? 4)%nat || (String.length number =? 5)%nat)
  && match version with
     | "" => true
     | String v digits =>
         ascii_eqb (lower v) "v" && negb (is_empty digits) && all_chars is_digit digits
     end.

Definition id_schemes : list string := ["corpusid:"; "arxiv:"; "doi:"; "semanticscholar:"].

(** Lines 146-153: the id of the payload for a requested id. *)
Definition payload_id (cid : string) : string :=
  let scid := strip cid in
  let lscid := map_chars lower scid in
  if existsb (startswith lscid) id_schemes then scid
  else if arxiv_id_shape scid then "ArXiv:" +:+ scid
  else "CorpusId:" +:+ scid.

Section Metadata.
(** [str(x)] and the POST to [paper/batch]. *)
Variable py_str : pyval -> string.
Variable query_s2_api : list string -> result pyval.

(** Lines 169-181: one paper of the response. *)
Definition store_paper (requested_keys : list string)
    (paper_metadata : gmap string (dict pyval)) (pdata : dict pyval)
    : gmap string (dict pyval) :=
  let normalized := normalized pdata in
  let paper_metadata :=
    match dict_get pdata "externalIds" with
    | Some (VDict externalIds) =>
        match dict_get externalIds "ArXiv" with
        | Some arx_id =>
            if truthy arx_id && bool_decide (py_str arx_id ∈ requested_keys)
            then <[py_str arx_id := normalized]> paper_metadata
            else paper_metadata
        | None => paper_metadata
        end
    | _ => paper_metadata
    end in
  match dict_get pdata "corpusId" with
  | Some corpusId =>
      if bool_decide (py_str corpusId ∈ requested_keys)
      then <[py_str corpusId := normalized]> paper_metadata
      else paper_metadata
  | None => paper_metadata
  end.

(** Lines 166-181: the loop over the papers of the response.  A paper
    that is not a dictionary raises at [pdata.items()]; the enclosing
    [try] ends the loop there and keeps what was stored. *)
Fixpoint store_papers (requested_keys : list string)
    (paper_metadata : gmap string (dict pyval)) (paper_data : list pyval)
    : gmap string (dict pyval) :=
  match paper_data with
  | [] => paper_metadata
  | pdata :: paper_data' =>
      if truthy pdata then
        match pdata with
        | VDict pdata =>
            store_papers requested_keys (store_paper requested_keys paper_metadata pdata)
              paper_data'
        | _ => paper_metadata
        end
      else store_papers requested_keys paper_metadata paper_data'
  end.

(** Lines 124-139: the placeholders of the ids that are not empty. *)
Definition placeholders (corpus_ids : list string) : gmap string (dict pyval) :=
  fold_left
    (fun paper_metadata corpus_id =>
       if is_empty corpus_id then paper_metadata
       else <[corpus_id := placeholder_metadata corpus_id]> paper_metadata)
    corpus_ids ∅.

(** Lines 119-185.  When the request raises, the [except] clause keeps
    the placeholders.  A response that is not a list cannot be walked
    paper by paper: its first element raises at [pdata.items()] or is
    skipped as empty, so nothing is stored either. *)
Definition get_paper_metadata (corpus_ids : list string) : gmap string (dict pyval) :=
  match corpus_ids with
  | [] => ∅
  | _ :: _ =>
      let paper_metadata := placeholders corpus_ids in
      match query_s2_api (payload_id <$> corpus_ids) with
      | Ok (VList paper_data) => store_papers corpus_ids paper_metadata paper_data
      | _ => paper_metadata
      end
  end.
End Metadata.

(** ** Numeric fields in [LocalhostRetriever]

    Lines 127-129 of [keyword_search] and 156-158 of
    [get_paper_metadata]: each numeric field the paper has is replaced
    by its integer. *)
Definition convert_numeric_fields (paper : dict pyval) : dict pyval :=
  fold_left
    (fun paper field =>
       match dict_get paper field with
       | Some v => dict_set paper field (VInt (make_int v))
       | None => paper
       end)
    NUMERIC_META_FIELDS paper.

(** ** Further predicates *)

(** [s] is a contiguous part of [t]. *)
Definition is_part (s t : string) : Prop := ∃ a b, t = a +:+ s +:+ b.

(** The text is empty or ends with white space. *)
Fixpoint ends_blank (b : string) : bool :=
  match b with
  | "" => true
  | String c b' => match b' with "" => is_space c | _ => ends_blank b' end
  end.

(** The class of the pattern [[ ]+]. *)
Definition is_blank (c : ascii) : bool := ascii_eqb " " c.

(** The corpus id a citation record was built for. *)
Definition corpus_id_of (r : CitationRecord) : string :=
  match dict_get (paper r) "corpus_id" with
  | Some (VStr c) => c
  | _ => ""
  end.

(** The key under which the assembler remembers that a record was
    built: the normalized corpus id (line 303). *)
Definition cited_id (anyascii : string → string) (r : CitationRecord) : string :=
  normalize_id anyascii (Some (corpus_id_of r)).

(** The fields of the metadata [pop_ref_data] reads with [d[k]], in the
    order it reads them. *)
Definition required_metadata : list string := ["title"; "authors"; "venue"; "citationCount"].

(** The errors the assembler lets through. *)
Definition assembler_error (e : PyError) : Prop :=
  e = IndexError
  ∨ e = Exception_ "Invalid content generated for the query by the LLM"
  ∨ ∃ k, k ∈ required_metadata ∧ e = KeyError k.

(** Every entry of the metadata is for a requested id and holds its
    placeholder or the normalized form of a paper of the response;
    every requested id that is not empty has an entry. *)
Definition well_stored (requested_keys : list string) (paper_data : list pyval)
    (paper_metadata : gmap string (dict pyval)) : Prop :=
  (∀ k m, paper_metadata !! k = Some m →
     k ∈ requested_keys
     ∧ (m = placeholder_metadata k ∨ ∃ pdata, VDict pdata ∈ paper_data ∧ m = normalized pdata))
  ∧ (∀ cid, cid ∈ requested_keys → cid ≠ "" → is_Some (paper_metadata !! cid)).

(** The papers of the response, when it is a list. *)
Definition papers_of (response : result pyval) : list pyval :=
  match response with
  | Ok (VList paper_data) => paper_data
  | _ => []
  end.

(** What the conversion of the numeric fields stores for the field [k]
    holding [v]. *)
Definition as_stored (k : string) (v : pyval) : pyval :=
  if bool_decide (k ∈ NUMERIC_META_FIELDS) then VInt (make_int v) else v.

(** The characters between the brackets of a reference that [re.findall]
    returns: no line break and no closing bracket. *)
Definition inner_char (c : ascii) : bool := not_newline c && negb (ascii_eqb c "]").

(** The note the assembler appends to a non-empty TLDR for [n] citations. *)
Definition sources_note (n : nat) : string :=
  match n with
  | 0 => " (LLM Memory)"
  | 1 => " (1 source)"
  | _ => " (" +:+ pretty n +:+ " sources)"
  end.

(** The characters Python's [int] accepts in a text, apart from the
    surrounding white space. *)
Definition int_char (c : ascii) : bool := is_digit c || char_in "_+-" c.

(** The depth-counting scan of [extract_json_slice]: the number of
    characters up to and including the closer that brings [depth] open
    brackets down to none. *)
Fixpoint closing (depth : nat) (s : string) : option nat :=
  match s with
  | "" => None
  | String ch s' =>
      if char_in "[{" ch then S <$> closing (S depth) s'
      else if char_in "]}" ch then
        match depth with
        | 0 | 1 => Some 1
        | S depth' => S <$> closing depth' s'
        end
      else S <$> closing depth s'
  end.


(** ** Examples *)

Definition sample_section : string :=
  "Intro TLDR: this is a summary" +:+ nl +:+ "Body sentence with [123 | Smith | 2020 | Citations: 5].".

Definition sample_quotes : list (string * QuoteRecord) :=
  [("[123 | Smith | 2020 | Citations: 5]", {| quote := "relevant text"; inline_citations := [] |})].

Example make_int_year : make_int (VStr " 2020") = 2020%Z.
Proof. reflexivity. Qed.

Example split_fields : split " | " "123 | Smith | 2020" = ["123"; "Smith"; "2020"].
Proof. reflexivity. Qed.

Example get_section_text_sample :
  get_section_text sample_section
  = Ok {| title := "Intro"; tldr := Some "this is a summary";
          text := "Body sentence with [123 | Smith | 2020 | Citations: 5].";
          citations := [] |}.
Proof. vm_compute. reflexivity. Qed.

Example tldr_super_token_markdown :
  find_tldr_super_token "## A **TLDR:** b tldr" = Some "**TLDR:**".
Proof. vm_compute. reflexivity. Qed.

Example second_paper_suffix :
  (assign_all [("(Smith, 2020)", "123"); ("(Smith, 2020)", "456")] ∅).1
  = ["(Smith, 2020)"; "(Smith_1, 2020)"].
Proof. vm_compute. reflexivity. Qed.

(** ** Text lemmas *)

Lemma app_cons c s t : String c s +:+ t = String c (s +:+ t).
Proof. reflexivity. Qed.

Lemma app_empty_l t : "" +:+ t = t.
Proof. reflexivity. Qed.

Lemma app_empty_r s : s +:+ "" = s.
Proof. induction s as [|c s IH]; [done|]. by rewrite app_cons, IH. Qed.

Lemma app_assoc_s s t u : (s +:+ t) +:+ u = s +:+ t +:+ u.
Proof. induction s as [|c s IH]; [done|]. by rewrite !app_cons, IH. Qed.

Lemma length_app s t : String.length (s +:+ t) = String.length s + String.length t.
Proof. induction s as [|c s IH]; [done|]. rewrite app_cons. simpl. by rewrite IH. Qed.

Lemma app_inj_r s1 s2 t : s1 +:+ t = s2 +:+ t → s1 = s2.
Proof.
  revert s2. induction s1 as [|c s1 IH]; intros [|d s2] H.
  - done.
  - apply (f_equal String.length) in H. rewrite !length_app in H. simpl in H. lia.
  - apply (f_equal String.length) in H. rewrite !length_app in H. simpl in H. lia.
  - rewrite !app_cons in H. injection H as -> H. f_equal. by apply IH.
Qed.

Lemma ascii_eqb_eq a b : ascii_eqb a b = true ↔ a = b.
Proof. apply Ascii.eqb_eq. Qed.

Lemma ascii_eqb_refl a : ascii_eqb a a = true.
Proof. by apply ascii_eqb_eq. Qed.

Lemma after_prefix_spec p s rest : after_prefix p s = Some rest ↔ s = p +:+ rest.
Proof.
  revert s. induction p as [|a p IH]; intros s; simpl.
  - rewrite app_empty_l. split; congruence.
  - destruct s as [|b s]; [by split|]. rewrite app_cons.
    destruct (ascii_eqb a b) eqn:E.
    + apply ascii_eqb_eq in E as ->. rewrite IH. split; [by intros ->|congruence].
    + split; [done|]. intros [= -> _]. by rewrite ascii_eqb_refl in E.
Qed.

Lemma cut_spec sep s a b : cut sep s = Some (a, b) → s = a +:+ sep +:+ b.
Proof.
  revert a. induction s as [|c s IH]; intros a; simpl.
  - destruct (after_prefix sep "") eqn:E; [|done].
    intros [= <- <-]. by apply after_prefix_spec in E.
  - destruct (after_prefix sep (String c s)) eqn:E.
    + intros [= <- <-]. by apply after_prefix_spec in E.
    + destruct (cut sep s) as [[a' b']|] eqn:C; [|done].
      intros [= <- <-]. rewrite app_cons. f_equal. by apply IH.
Qed.

Lemma cut_char_absent c s : char_in s c = false → cut (String c "") s = None.
Proof.
  induction s as [|d s IH]; [done|]. simpl.
  intros [Hd Hs]%orb_false_iff.
  assert (ascii_eqb c d = false) as -> by done.
  by rewrite IH.
Qed.

(** ** The answer assembler needs a provider prefix *)

(** C10: when the model name has no [/], [get_json_summary] raises an
    [IndexError] whatever the sections, quotes and metadata are: the
    model-attribution tag is formatted before any section is read. *)
Theorem get_json_summary_needs_provider anyascii llm_model summary_sections summary_quotes
    paper_metadata citation_ids inline_tags :
  char_in llm_model "/" = false →
  get_json_summary anyascii llm_model summary_sections summary_quotes
    paper_metadata citation_ids inline_tags = Raise IndexError.
Proof.
  intros H. unfold get_json_summary, get_json_summary_state.
  cbn [split_max]. by rewrite (cut_char_absent _ _ H).
Qed.

Lemma get_json_summary_needs_provider_witness :
  get_json_summary ascii_only "gpt-4" [sample_section] sample_quotes ∅ ∅ false
  = Raise IndexError.
Proof. apply get_json_summary_needs_provider. reflexivity. Defined.

(** ** Labels within one answer *)

Lemma split_head sep s r0 r1 rest :
  split sep s = r0 :: r1 :: rest → ∃ tl, s = r0 +:+ sep +:+ tl.
Proof.
  unfold split. destruct (String.length s); simpl; [done|].
  destruct (cut sep s) as [[a b]|] eqn:C; [|done].
  intros [= <- _]. eexists. by apply cut_spec.
Qed.

Lemma label_for_suffixed r k : k ≠ 0 → label_for r k ≠ r.
Proof.
  destruct k as [|k]; [done|]. intros _. simpl.
  destruct (split "," r) as [|r0 [|r1 rest]] eqn:E.
  - intros H. apply (f_equal String.length) in H.
    rewrite !length_app in H. simpl in H. lia.
  - intros H. apply (f_equal String.length) in H.
    rewrite !length_app in H. simpl in H. lia.
  - apply split_head in E as [tl ->]. intros H.
    apply String.app_inj in H. discriminate.
Qed.

Lemma label_for_inj r k k' : label_for r k = label_for r k' → k = k'.
Proof.
  destruct k as [|k], k' as [|k']; [done| | |].
  - intros H. symmetry in H. by apply label_for_suffixed in H.
  - intros H. by apply label_for_suffixed in H.
  - simpl. destruct (split "," r) as [|r0 [|r1 rest]].
    + intros H. do 2 apply String.app_inj in H. by apply pretty_nat_inj in H.
    + intros H. do 2 apply String.app_inj in H. by apply pretty_nat_inj in H.
    + intros H. do 2 apply String.app_inj in H.
      apply app_inj_r in H. by apply pretty_nat_inj in H.
Qed.

Lemma resolve_ref_id_cases r c (m : gmap string (gmap string string)) :
  resolve_ref_id r c m =
    match default ∅ (m !! r) !! c with
    | Some l => (l, m)
    | None =>
        (label_for r (size (default ∅ (m !! r))),
         <[r := <[c := label_for r (size (default ∅ (m !! r)))]> (default ∅ (m !! r))]> m)
    end.
Proof.
  unfold resolve_ref_id. destruct (m !! r) as [seen|] eqn:E; simpl.
  - rewrite E. simpl. destruct (seen !! c); [done|].
    destruct (decide (size seen = 0)) as [->|Hne]; [done|].
    destruct (size seen); [done|]. done.
  - rewrite lookup_insert_eq. simpl. rewrite lookup_empty, map_size_empty. simpl.
    by rewrite insert_insert_eq.
Qed.

Lemma labels_ok_empty : labels_ok ∅.
Proof. intros r seen H. by rewrite lookup_empty in H. Qed.

Lemma resolve_ref_id_ok r c m l m' :
  resolve_ref_id r c m = (l, m') → labels_ok m →
  labels_ok m' ∧ recorded m' r c l ∧
  (∀ r' c' l', recorded m r' c' l' → recorded m' r' c' l').
Proof.
  rewrite resolve_ref_id_cases. intros Hres Hok.
  destruct (default ∅ (m !! r) !! c) as [l0|] eqn:Hc.
  - injection Hres as <- <-. split; [done|]. split; [|done].
    destruct (m !! r) as [seen|] eqn:E; simpl in Hc; [|by rewrite lookup_empty in Hc].
    by exists seen.
  - injection Hres as <- <-.
    set (seen := default ∅ (m !! r)) in *.
    assert (Hseen : (∀ c0 l0, seen !! c0 = Some l0 → ∃ k, k < size seen ∧ l0 = label_for r k) ∧
                    (∀ c1 c2 l0, seen !! c1 = Some l0 → seen !! c2 = Some l0 → c1 = c2)).
    { subst seen. destruct (m !! r) as [seen|] eqn:E; simpl.
      - by apply (Hok r).
      - split; intros *; by rewrite lookup_empty. }
    destruct Hseen as [Hrank Hinj].
    split; [|split].
    + intros r' seen'. destruct (decide (r = r')) as [<-|Hne].
      * rewrite lookup_insert_eq. intros [= <-].
        rewrite (map_size_insert_None _ _ _ Hc). split.
        -- intros c0 l0. destruct (decide (c = c0)) as [<-|Hc0].
           ++ rewrite lookup_insert_eq. intros [= <-]. exists (size seen). split; [lia|done].
           ++ rewrite lookup_insert_ne by done. intros [k [Hk ->]]%Hrank.
              exists k. split; [lia|done].
        -- intros c1 c2 l0.
           destruct (decide (c = c1)) as [<-|Hc1], (decide (c = c2)) as [<-|Hc2]; [done| | |].
           ++ rewrite lookup_insert_eq, lookup_insert_ne by done.
              intros [= <-] [k [Hk Heq]]%Hrank. apply label_for_inj in Heq. lia.
           ++ rewrite lookup_insert_eq, lookup_insert_ne by done.
              intros [k [Hk Heq]]%Hrank [= <-]. apply label_for_inj in Heq. lia.
           ++ rewrite !lookup_insert_ne by done. apply Hinj.
      * rewrite lookup_insert_ne by done. apply Hok.
    + eexists. split; [apply lookup_insert_eq|apply lookup_insert_eq].
    + intros r' c' l' [seen' [Hr' Hc']].
      destruct (decide (r = r')) as [<-|Hne].
      * eexists. split; [apply lookup_insert_eq|].
        subst seen. rewrite Hr' in *. simpl in *.
        destruct (decide (c = c')) as [<-|Hcc]; [congruence|].
        by rewrite lookup_insert_ne.
      * exists seen'. by rewrite lookup_insert_ne.
Qed.





(** ** Trimming *)

Lemma rstrip_rstrip p s : rstrip p (rstrip p s) = rstrip p s.
Proof.
  induction s as [|c s IH]; [done|]. simpl.
  destruct (is_empty (rstrip p s) && p c) eqn:E; [done|].
  simpl. by rewrite IH, E.
Qed.

Lemma lstrip_lstrip p s : lstrip p (lstrip p s) = lstrip p s.
Proof.
  induction s as [|c s IH]; [done|]. simpl.
  destruct (p c) eqn:E; [done|]. simpl. by rewrite E.
Qed.

Lemma rstrip_fixed_tail p c s : rstrip p (String c s) = String c s → rstrip p s = s.
Proof. simpl. destruct (is_empty (rstrip p s) && p c); [done|]. by intros [= ->]. Qed.

Lemma rstrip_lstrip_fixed p q s : rstrip p s = s → rstrip p (lstrip q s) = lstrip q s.
Proof.
  induction s as [|c s IH]; [done|]. intros H. simpl.
  destruct (q c); [|done]. apply IH. by apply rstrip_fixed_tail in H.
Qed.

Lemma strip_chars_fixed p s : strip_chars p (strip_chars p s) = strip_chars p s.
Proof.
  unfold strip_chars.
  rewrite (rstrip_lstrip_fixed p p) by apply rstrip_rstrip.
  apply lstrip_lstrip.
Qed.

Lemma strip_strip s : strip (strip s) = strip s.
Proof. apply strip_chars_fixed. Qed.






Lemma lstrip_length p s : (String.length (lstrip p s) ≤ String.length s)%nat.
Proof. induction s as [|c s IH]; [done|]. simpl. destruct (p c); simpl; lia. Qed.

Lemma rstrip_length p s : (String.length (rstrip p s) ≤ String.length s)%nat.
Proof.
  induction s as [|c s IH]; [done|]. simpl.
  destruct (is_empty (rstrip p s) && p c); simpl; lia.
Qed.

Lemma lstrip_same_length p s :
  String.length (lstrip p s) = String.length s → lstrip p s = s.
Proof.
  destruct s as [|c s]; [done|]. simpl. destruct (p c); [|done].
  pose proof (lstrip_length p s). lia.
Qed.

Lemma rstrip_same_length p s :
  String.length (rstrip p s) = String.length s → rstrip p s = s.
Proof.
  induction s as [|c s IH]; [done|]. simpl.
  destruct (is_empty (rstrip p s) && p c); simpl; [done|].
  intros [= H]. by rewrite IH.
Qed.

Lemma drop_length n s : String.length (drop_chars n s) = String.length s - n.
Proof. revert s. induction n as [|n IH]; intros [|c s]; simpl; by try done. Qed.

Lemma startswith_length s p : startswith s p = true → (String.length p ≤ String.length s)%nat.
Proof.
  unfold startswith. destruct (after_prefix p s) as [rest|] eqn:E; [|done].
  apply after_prefix_spec in E as ->. rewrite length_app. lia.
Qed.

(** ** The identifier normalizer *)

Section Normalizer.
Variable anyascii : string → string.
(** [anyascii] answers ASCII text and leaves ASCII text as it is. *)
Hypothesis anyascii_ascii : ∀ s, is_ascii_text (anyascii s) = true.
Hypothesis anyascii_fixes : ∀ s, is_ascii_text s = true → anyascii s = s.




(** The condition of the theorem is needed: ASCII text that a pass
    leaves as it is has no surrounding whitespace and no leading label. *)
Lemma normalize_id_fixed_is_clean n :
  is_ascii_text n = true →
  normalize_id anyascii (Some n) = n →
  strip n = n ∧ has_label n = false.
Proof.
  intros Hascii. unfold normalize_id. rewrite (anyascii_fixes n Hascii).
  set (step := fun norm prefix : string =>
                 if startswith norm prefix
                 then drop_chars (String.length prefix) norm else norm).
  assert (Hfold : ∀ ls s, Forall (λ p, p ≠ "") ls →
            (String.length (fold_left step ls s) ≤ String.length s)%nat
            ∧ (String.length (fold_left step ls s) = String.length s →
               existsb (startswith s) ls = false ∧ fold_left step ls s = s)).
  { induction ls as [|p ls IH]; intros s Hls; [done|].
    apply Forall_cons in Hls as [Hp Hls]. simpl.
    destruct (IH (step s p) Hls) as [Hle Heq].
    assert (Hstep : (String.length (step s p) ≤ String.length s)%nat
                    ∧ (String.length (step s p) = String.length s → startswith s p = false)).
    { unfold step. destruct (startswith s p) eqn:E; [|done].
      rewrite drop_length. apply startswith_length in E.
      destruct p; [done|]. simpl in *. lia. }
    destruct Hstep as [Hle' Heq']. split; [lia|].
    intros H. assert (Hs : startswith s p = false) by (apply Heq'; lia).
    rewrite Hs. simpl. assert (step s p = s) as Hsame by (unfold step; by rewrite Hs).
    rewrite Hsame in *. by apply Heq. }
  assert (Hlabels : Forall (λ p, p ≠ "") id_labels) by (by repeat constructor).
  intros Hfix.
  pose proof (lstrip_length (char_in "[")
                (rstrip (char_in ".,;: ]") (fold_left step id_labels (strip n)))) as H1.
  pose proof (rstrip_length (char_in ".,;: ]") (fold_left step id_labels (strip n))) as H2.
  destruct (Hfold id_labels (strip n) Hlabels) as [H3 H3'].
  pose proof (lstrip_length is_space (rstrip is_space n)) as H4.
  pose proof (rstrip_length is_space n) as H5.
  rewrite Hfix in H1. unfold strip, strip_chars in *.
  assert (Hr : rstrip is_space n = n) by (apply rstrip_same_length; lia).
  rewrite Hr in *.
  assert (Hl : lstrip is_space n = n) by (apply lstrip_same_length; lia).
  rewrite Hl in *.
  split; [done|]. unfold has_label. apply H3'. lia.
Qed.

(** The second pass differs from the first on an id written after an
    opening bracket and a space, whatever the transliteration does beyond
    ASCII. *)
Lemma normalize_id_second_pass_differs :
  normalize_id anyascii (Some (normalize_id anyascii (Some "[ 2509.01324")))
  ≠ normalize_id anyascii (Some "[ 2509.01324").
Proof.
  assert (H1 : normalize_id anyascii (Some "[ 2509.01324") = " 2509.01324").
  { unfold normalize_id. by rewrite (anyascii_fixes "[ 2509.01324"). }
  rewrite H1. unfold normalize_id. by rewrite (anyascii_fixes " 2509.01324").
Qed.
End Normalizer.



(** ** Snippets of a citation record *)

Lemma replace_absent old new s : cut old s = None → replace old new s = s.
Proof. unfold replace. intros H. destruct (String.length s); simpl; by rewrite ?H. Qed.


Lemma drop_app m rest : drop_chars (String.length m) (m +:+ rest) = rest.
Proof. induction m as [|c m IH]; [done|]. rewrite app_cons. simpl. apply IH. Qed.

Lemma take_app m rest : take_chars (String.length m) (m +:+ rest) = m.
Proof. induction m as [|c m IH]; [by destruct rest|]. rewrite app_cons. simpl. by rewrite IH. Qed.












Section Snippets.
Variable anyascii : string → string.
Variable summary_quotes : dict QuoteRecord.
Variable inline_citation_quotes : dict string.
Variable id_to_main_key : dict string.
Variable id_to_inline_key : dict string.
Variable paper_metadata : gmap string (dict pyval).
Variable inline_tags : bool.


End Snippets.



(** ** Matching consumes a prefix of the input *)

Lemma after_prefix_ci_split p s rest :
  after_prefix_ci p s = Some rest →
  ∃ m, s = m +:+ rest ∧ String.length m = String.length p.
Proof.
  revert s. induction p as [|a p IH]; intros s; simpl.
  - intros [= ->]. by exists "".
  - destruct s as [|b s]; [done|].
    destruct (ascii_eqb (lower a) (lower b)); [|done].
    intros (m & -> & Hm)%IH. exists (String b m). simpl. by rewrite Hm.
Qed.

Lemma rep_greedy_some {R} cls (k : option ascii → string → option R) least prev s r :
  rep_greedy cls k least prev s = Some r →
  ∃ m prev' s', s = m +:+ s' ∧ (least ≤ String.length m)%nat ∧ k prev' s' = Some r.
Proof.
  revert least prev. induction s as [|c s IH]; intros least prev; simpl.
  - destruct least; [|done]. intros H. by exists "", prev, "".
  - assert (Hstop : match least with 0 => k prev (String c s) | S _ => None end = Some r →
                    ∃ m prev' s', String c s = m +:+ s' ∧ (least ≤ String.length m)%nat
                                  ∧ k prev' s' = Some r).
    { destruct least; [|done]. intros H. by exists "", prev, (String c s). }
    destruct (cls c); [|done].
    destruct (rep_greedy cls k (pred least) (Some c) s) as [r'|] eqn:E; [|done].
    intros [= ->]. apply IH in E as (m & prev' & s' & -> & Hm & Hk).
    exists (String c m), prev', s'. split; [done|]. split; [simpl; lia|done].
Qed.

Lemma rep_lazy_some {R} cls (k : option ascii → string → option R) least prev s r :
  rep_lazy cls k least prev s = Some r →
  ∃ m prev' s', s = m +:+ s' ∧ (least ≤ String.length m)%nat ∧ k prev' s' = Some r.
Proof.
  revert least prev. induction s as [|c s IH]; intros least prev; simpl.
  - destruct least; [|done]. destruct (k prev "") eqn:E; [|done].
    intros [= ->]. by exists "", prev, "".
  - destruct (match least with 0 => k prev (String c s) | S _ => None end) as [r'|] eqn:E.
    + intros [= ->]. destruct least; [|done]. by exists "", prev, (String c s).
    + destruct (cls c); [|done].
      intros (m & prev' & s' & -> & Hm & Hk)%IH.
      exists (String c m), prev', s'. split; [done|]. split; [simpl; lia|done].
Qed.

Lemma match_here_split p g prev s g' rest :
  match_here p g prev s = Some (g', rest) →
  ∃ m, s = m +:+ rest ∧ (min_len p ≤ String.length m)%nat.
Proof.
  revert g prev s. induction p as [|a p IH]; intros g prev s; simpl.
  - intros [= _ ->]. by exists "".
  - destruct a as [l|l|cls least [|]|l| |].
    + destruct (after_prefix l s) as [s'|] eqn:E; [|done].
      apply after_prefix_spec in E as ->.
      intros (m & -> & Hm)%IH. exists (l +:+ m).
      rewrite app_assoc_s, length_app. split; [done|lia].
    + destruct (after_prefix_ci l s) as [s'|] eqn:E; [|done].
      apply after_prefix_ci_split in E as (m0 & -> & Hm0).
      intros (m & -> & Hm)%IH. exists (m0 +:+ m).
      rewrite app_assoc_s, length_app. split; [done|lia].
    + intros (m0 & prev' & s' & -> & Hm0 & (m & -> & Hm)%IH)%rep_greedy_some.
      exists (m0 +:+ m). rewrite app_assoc_s, length_app. split; [done|lia].
    + intros (m0 & prev' & s' & -> & Hm0 & (m & -> & Hm)%IH)%rep_lazy_some.
      exists (m0 +:+ m). rewrite app_assoc_s, length_app. split; [done|lia].
    + destruct (after_prefix l s) as [s'|] eqn:E.
      * apply after_prefix_spec in E as ->.
        destruct (match_here p g _ s') as [r|] eqn:E'.
        -- intros [= ->]. apply IH in E' as (m & -> & Hm). exists (l +:+ m).
           rewrite app_assoc_s, length_app. split; [done|lia].
        -- apply IH.
      * apply IH.
    + destruct (xorb _ _); [|done]. apply IH.
    + apply IH.
Qed.

Lemma length_take n s : String.length (take_chars n s) = n `min` String.length s.
Proof.
  revert s. induction n as [|n IH]; intros [|c s]; simpl; try done.
  by rewrite IH.
Qed.

Lemma consumed_app m rest : consumed (m +:+ rest) rest = m.
Proof.
  unfold consumed. rewrite length_app.
  replace (String.length m + String.length rest - String.length rest)
    with (String.length m) by lia.
  apply take_app.
Qed.

Lemma match_here_consumed p g0 prev s g rest :
  match_here p g0 prev s = Some (g, rest) →
  s = consumed s rest +:+ rest ∧ (min_len p ≤ String.length (consumed s rest))%nat.
Proof.
  intros (m & -> & Hlen)%match_here_split. by rewrite consumed_app.
Qed.

Lemma search_from_some p prev s before m rest :
  search_from p prev s = Some (before, m, rest) →
  s = before +:+ m +:+ rest ∧ (min_len p ≤ String.length m)%nat
  ∧ ∃ g prev', match_here p None prev' (m +:+ rest) = Some (g, rest).
Proof.
  revert prev before. induction s as [|c s IH]; intros prev before; simpl.
  - destruct (match_here p None prev "") as [[g rest']|] eqn:E; [|done].
    intros [= <- <- <-]. destruct (match_here_consumed _ _ _ _ _ _ E) as [Hs Hlen].
    split; [done|]. split; [done|]. exists g, prev. by rewrite <- Hs.
  - destruct (match_here p None prev (String c s)) as [[g rest']|] eqn:E.
    + intros [= <- <- <-]. destruct (match_here_consumed _ _ _ _ _ _ E) as [Hs Hlen].
      split; [done|]. split; [done|]. exists g, prev. by rewrite <- Hs.
    + destruct (search_from p (Some c) s) as [[[b m'] r']|] eqn:E'; [|done].
      intros [= <- <- <-]. apply IH in E' as (-> & Hlen & Hmatch). eauto.
Qed.

(** ** The section segmenter *)

Lemma occurs_ci_here needle s rest : after_prefix_ci needle s = Some rest → occurs_ci needle s = true.
Proof. intros H. destruct s; simpl; by rewrite H. Qed.

Lemma occurs_ci_app needle m s : occurs_ci needle s = true → occurs_ci needle (m +:+ s) = true.
Proof.
  intros H. induction m as [|c m IH]; [done|]. rewrite app_cons. simpl.
  by destruct (after_prefix_ci needle (String c (m +:+ s))).
Qed.

Lemma tldr_word_occurs g prev s r :
  match_here tldr_word g prev s = Some r → occurs_ci "tldr" s = true.
Proof.
  unfold tldr_word. cbn [match_here]. destruct (xorb _ _); [|done].
  intros (m & prev' & s' & -> & _ & Hk)%rep_greedy_some.
  cbn [match_here] in Hk. apply occurs_ci_app.
  destruct (after_prefix_ci "tldr" s') eqn:E; [|done].
  by apply occurs_ci_here in E.
Qed.

Lemma find_tldr_super_token_some text tok :
  find_tldr_super_token text = Some tok →
  occurs_ci "tldr" text = true ∧ (4 ≤ String.length tok)%nat.
Proof.
  unfold find_tldr_super_token, re_search.
  destruct (search_from tldr_word None text) as [[[b m] r]|] eqn:E; [|done].
  apply search_from_some in E as (Htext & Hlen & g & prev' & Hmatch).
  destruct (search_from (tldr_super m) None text) as [[[b' m'] r']|] eqn:E'; [|done].
  intros [= <-]. apply search_from_some in E' as (_ & Hlen' & _).
  split.
  - rewrite Htext. apply occurs_ci_app. by apply (tldr_word_occurs None prev' _ (g, r)).
  - simpl in Hlen, Hlen'. lia.
Qed.

Lemma find_tldr_super_token_none text :
  occurs_ci "tldr" text = false → find_tldr_super_token text = None.
Proof.
  intros H. destruct (find_tldr_super_token text) as [tok|] eqn:E; [|done].
  apply find_tldr_super_token_some in E as [E _]. congruence.
Qed.

(** *** Every occurrence of the letters is found *)

Lemma rep_greedy_zero {R} cls (k : option ascii → string → option R) prev s r0 :
  k prev s = Some r0 → ∃ r, rep_greedy cls k 0 prev s = Some r.
Proof.
  intros Hk. destruct s as [|c s]; simpl; [by eauto|].
  destruct (cls c); [|by eauto].
  destruct (rep_greedy cls k 0 (Some c) s); by eauto.
Qed.

(** A greedy repetition succeeds as soon as one of its stops does. *)
Lemma rep_greedy_complete {R} cls (k : option ascii → string → option R) least prev w s r0 :
  all_chars cls w = true → (least ≤ String.length w)%nat →
  k (last_consumed (String.length w) (w +:+ s) prev) s = Some r0 →
  ∃ r, rep_greedy cls k least prev (w +:+ s) = Some r.
Proof.
  revert least prev. induction w as [|c w IH]; intros least prev Hw Hleast Hk.
  - simpl in Hleast. assert (least = 0) as -> by lia. by apply (rep_greedy_zero _ _ _ _ r0).
  - rewrite app_cons in *. simpl in *. apply andb_true_iff in Hw as [-> Hw].
    destruct (IH (pred least) (Some c) Hw) as [r ->]; [lia|done|by eauto].
Qed.

Lemma rep_greedy_run_prev {R} cls (k : option ascii → string → option R) least prev w s r :
  all_chars cls w = true → (least ≤ String.length w)%nat → head_in cls s = false →
  k (last_consumed (String.length w) (w +:+ s) prev) s = Some r →
  rep_greedy cls k least prev (w +:+ s) = Some r.
Proof.
  revert least prev. induction w as [|c w IH]; intros least prev Hw Hleast Hs Hk.
  - simpl in Hleast. assert (least = 0) as -> by lia. rewrite app_empty_l in *.
    destruct s as [|c s]; simpl in *; [done|]. by rewrite Hs.
  - rewrite app_cons in *. simpl in *. apply andb_true_iff in Hw as [-> Hw].
    rewrite IH; [done|done|lia|done..].
Qed.

Lemma word_at_last_consumed w s prev :
  all_chars is_word w = true → word_at prev = true →
  word_at (last_consumed (String.length w) (w +:+ s) prev) = true.
Proof.
  revert prev. induction w as [|c w IH]; intros prev Hw Hprev; [done|].
  rewrite app_cons. simpl in *. apply andb_true_iff in Hw as [Hc Hw]. by apply IH.
Qed.

Lemma word_at_last_consumed_some w s prev :
  all_chars is_word w = true → (1 ≤ String.length w)%nat →
  word_at (last_consumed (String.length w) (w +:+ s) prev) = true.
Proof.
  destruct w as [|c w]; [simpl; lia|]. intros [Hc Hw]%andb_true_iff _.
  rewrite app_cons. simpl. by apply word_at_last_consumed.
Qed.

Lemma last_consumed_snoc b d s prev :
  last_consumed (String.length (b +:+ String d "")) ((b +:+ String d "") +:+ s) prev = Some d.
Proof.
  revert prev. induction b as [|c b IH]; intros prev; [done|].
  rewrite !app_cons. simpl. apply IH.
Qed.

Lemma search_from_skip p prev b s :
  (∃ res, search_from p (last_consumed (String.length b) (b +:+ s) prev) s = Some res) →
  ∃ res, search_from p prev (b +:+ s) = Some res.
Proof.
  revert prev. induction b as [|c b IH]; intros prev H; [done|].
  rewrite app_cons in *. simpl in *.
  destruct (match_here p None prev (String c (b +:+ s))) as [[g rest]|]; [by eauto|].
  destruct (IH (Some c) H) as [[[before m] rest] ->]. by eauto.
Qed.

Lemma search_from_here p prev s res :
  match_here p None prev s = Some res → ∃ res', search_from p prev s = Some res'.
Proof. intros H. destruct res as [g rest]. destruct s; simpl; rewrite H; by eauto. Qed.

Lemma is_word_lower c : is_word (lower c) = is_word c.
Proof. by destruct c as [[] [] [] [] [] [] [] []]. Qed.

Lemma is_word_same_letter a c :
  ascii_eqb (lower a) (lower c) = true → is_word a = true → is_word c = true.
Proof.
  intros H%ascii_eqb_eq Ha. by rewrite <- (is_word_lower c), <- H, is_word_lower.
Qed.

Lemma all_chars_app cls u v :
  all_chars cls (u +:+ v) = all_chars cls u && all_chars cls v.
Proof.
  induction u as [|c u IH]; [done|]. rewrite app_cons. simpl.
  by rewrite IH, andb_assoc.
Qed.

Lemma run_of_split cls s :
  s = run_of cls s +:+ after_run cls s
  ∧ all_chars cls (run_of cls s) = true ∧ head_in cls (after_run cls s) = false.
Proof.
  unfold after_run. induction s as [|c s (IH1 & IH2 & IH3)]; [done|]. simpl.
  destruct (cls c) eqn:E; simpl; [|by rewrite E].
  rewrite E, IH2, IH3. rewrite app_cons. by rewrite <- IH1.
Qed.

Lemma after_prefix_ci_app needle s rest t :
  after_prefix_ci needle s = Some rest → after_prefix_ci needle (s +:+ t) = Some (rest +:+ t).
Proof.
  revert s. induction needle as [|a n IH]; intros s; simpl; [by intros [= ->]|].
  destruct s as [|b s]; [done|]. rewrite app_cons.
  destruct (ascii_eqb (lower a) (lower b)); [apply IH|done].
Qed.

(** A match of a word in [u +:+ r] lies within [u] when [r] starts with
    no word character. *)
Lemma after_prefix_ci_within needle u r res :
  all_chars is_word needle = true → head_in is_word r = false →
  after_prefix_ci needle (u +:+ r) = Some res →
  ∃ b, after_prefix_ci needle u = Some b.
Proof.
  revert u. induction needle as [|a n IH]; intros u Hn Hr; simpl; [by eauto|].
  simpl in Hn. apply andb_true_iff in Hn as [Ha Hn].
  destruct u as [|c u].
  - rewrite app_empty_l. destruct r as [|d r]; [done|].
    destruct (ascii_eqb (lower a) (lower d)) eqn:E; [|done].
    simpl in Hr. apply (is_word_same_letter a d) in E; [congruence|done].
  - rewrite app_cons. destruct (ascii_eqb (lower a) (lower c)); [by apply IH|done].
Qed.

Lemma occurs_ci_cons needle c s :
  occurs_ci needle s = true → occurs_ci needle (String c s) = true.
Proof. intros H. simpl. by destruct (after_prefix_ci needle (String c s)). Qed.

Lemma occurs_ci_run needle w r :
  all_chars is_word needle = true → head_in is_word r = false →
  occurs_ci needle (w +:+ r) = true →
  occurs_ci needle w = true ∨ occurs_ci needle r = true.
Proof.
  intros Hn Hr. induction w as [|c w IH]; [by right|].
  rewrite app_cons. simpl.
  destruct (after_prefix_ci needle (String c (w +:+ r))) as [res|] eqn:E.
  - intros _. left. rewrite <- app_cons in E.
    destruct (after_prefix_ci_within _ _ _ _ Hn Hr E) as [b Hb].
    by apply (occurs_ci_here _ _ _ Hb).
  - intros [H|H]%IH; [left|by right].
    by apply occurs_ci_cons.
Qed.

Lemma occurs_ci_split needle s :
  occurs_ci needle s = true →
  ∃ a t b, s = a +:+ t +:+ b ∧ after_prefix_ci needle (t +:+ b) = Some b
           ∧ String.length t = String.length needle.
Proof.
  induction s as [|c s IH]; simpl.
  - destruct (after_prefix_ci needle "") as [rest|] eqn:E; [|done]. intros _.
    apply after_prefix_ci_split in E as Hm. destruct Hm as (m & Hm & Hlen).
    exists "", m, rest. by rewrite <- Hm.
  - destruct (after_prefix_ci needle (String c s)) as [rest|] eqn:E.
    + intros _. apply after_prefix_ci_split in E as Hm. destruct Hm as (m & Hm & Hlen).
      exists "", m, rest. by rewrite <- Hm.
    + intros (a & t & b & -> & Ht & Hlen)%IH. by exists (String c a), t, b.
Qed.

Lemma word_at_first_char w s :
  all_chars is_word w = true → w ≠ "" → word_at (first_char (w +:+ s)) = true.
Proof.
  destruct w as [|c w]; [done|]. simpl. by intros [-> _]%andb_true_iff.
Qed.

(** The pattern matches at the start of a word that holds the letters. *)
Lemma tldr_word_at_run prev w r :
  word_at prev = false → all_chars is_word w = true → head_in is_word r = false →
  occurs_ci "tldr" w = true →
  ∃ res, match_here tldr_word None prev (w +:+ r) = Some res.
Proof.
  intros Hprev Hw Hr (a & t & b & -> & Ht & Hlen)%occurs_ci_split.
  rewrite !all_chars_app in Hw. apply andb_true_iff in Hw as [Ha [Htw Hb]%andb_true_iff].
  assert (Hne : a +:+ t +:+ b ≠ "").
  { intros H%(f_equal String.length). rewrite !length_app, Hlen in H. simpl in H. lia. }
  unfold tldr_word. cbn [match_here].
  rewrite Hprev, word_at_first_char; [|by rewrite !all_chars_app, Ha, Htw, Hb|done].
  cbn [xorb]. rewrite !app_assoc_s.
  assert (Hend : match_here [WordB] None
                   (last_consumed (String.length b) (b +:+ r)
                      (last_consumed (String.length "tldr") (t +:+ b +:+ r)
                         (last_consumed (String.length a) (a +:+ t +:+ b +:+ r) prev))) r
                 = Some (None, r)).
  { cbn [match_here]. rewrite word_at_last_consumed; [|done|].
    - destruct r as [|d r]; [done|]. simpl in *. by rewrite Hr.
    - rewrite <- Hlen. apply word_at_last_consumed_some; [done|]. rewrite Hlen. simpl. lia. }
  eapply rep_greedy_complete; [done|lia|].
  pose proof (after_prefix_ci_app _ _ _ r Ht) as Ht'. rewrite app_assoc_s in Ht'.
  cbn [match_here]. rewrite Ht'.
  apply rep_greedy_run_prev; [done|lia|done|exact Hend].
Qed.

Lemma after_prefix_ci_word c s res :
  after_prefix_ci "tldr" (String c s) = Some res → is_word c = true.
Proof.
  cbn [after_prefix_ci]. destruct (ascii_eqb (lower "t") (lower c)) eqn:E; [|done].
  intros _. by apply (is_word_same_letter "t" c).
Qed.

Lemma occurs_ci_not_here c s :
  is_word c = false → occurs_ci "tldr" (String c s) = true → occurs_ci "tldr" s = true.
Proof.
  intros Hc. cbn [occurs_ci].
  destruct (after_prefix_ci "tldr" (String c s)) as [res|] eqn:E; [|done].
  apply after_prefix_ci_word in E. congruence.
Qed.

Lemma tldr_word_found n s prev :
  (String.length s ≤ n)%nat → word_at prev = false → occurs_ci "tldr" s = true →
  ∃ res, search_from tldr_word prev s = Some res.
Proof.
  revert s prev. induction n as [|n IH]; intros s prev Hn Hprev Hocc.
  { destruct s; [done|]. simpl in Hn. lia. }
  destruct s as [|c s]; [done|].
  destruct (is_word c) eqn:Hc.
  - destruct (run_of_split is_word (String c s)) as (Hs & Hw & Hr).
    set (w := run_of is_word (String c s)) in *.
    set (r := after_run is_word (String c s)) in *.
    assert (Hlen : (1 ≤ String.length w)%nat) by (subst w; simpl; rewrite Hc; simpl; lia).
    rewrite Hs in Hocc |- *.
    destruct (occurs_ci_run "tldr" w r eq_refl Hr Hocc) as [Hin|Hout].
    + destruct (tldr_word_at_run prev w r Hprev Hw Hr Hin) as [res Hres].
      by apply (search_from_here _ _ _ res).
    + destruct r as [|d r']; [done|]. simpl in Hr.
      apply (occurs_ci_not_here d r' Hr) in Hout.
      change (w +:+ String d r') with (w +:+ String d "" +:+ r').
      rewrite <- app_assoc_s. apply search_from_skip. rewrite last_consumed_snoc.
      apply IH; [|by simpl; rewrite Hr|done].
      apply (f_equal String.length) in Hs. rewrite length_app in Hs. simpl in Hs, Hn. lia.
  - apply (occurs_ci_not_here c s Hc) in Hocc.
    change (String c s) with (String c "" +:+ s). apply search_from_skip. simpl.
    apply IH; [simpl in Hn; lia|by simpl; rewrite Hc|done].
Qed.

Lemma after_prefix_ci_refl m r : after_prefix_ci m (m +:+ r) = Some r.
Proof.
  induction m as [|c m IH]; [done|]. rewrite app_cons. simpl.
  by rewrite ascii_eqb_refl.
Qed.

Lemma tldr_super_found m b r prev :
  ∃ res, search_from (tldr_super m) prev (b +:+ m +:+ r) = Some res.
Proof.
  apply search_from_skip.
  assert (H : ∃ res, match_here (tldr_super m) None
                       (last_consumed (String.length b) (b +:+ m +:+ r) prev) (m +:+ r)
                     = Some res).
  { unfold tldr_super. cbn [match_here].
    destruct (rep_greedy_zero not_space (match_here [] None)
                (last_consumed (String.length m) (m +:+ r)
                   (last_consumed (String.length b) (b +:+ m +:+ r) prev)) r (None, r) eq_refl)
      as [res Hres].
    apply (rep_greedy_zero _ _ _ _ res). by rewrite after_prefix_ci_refl. }
  destruct H as [res H]. by apply (search_from_here _ _ _ res).
Qed.

(** The token is found exactly when the letters occur. *)
Lemma find_tldr_super_token_found text :
  occurs_ci "tldr" text = true ↔ ∃ tok, find_tldr_super_token text = Some tok.
Proof.
  split.
  - intros Hocc. unfold find_tldr_super_token, re_search.
    destruct (tldr_word_found (String.length text) text None) as [[[b m] r] Hword];
      [done..|].
    rewrite Hword. apply search_from_some in Hword as (-> & _).
    destruct (tldr_super_found m b r None) as [[[b' m'] r'] ->]. by eauto.
  - intros [tok Htok]. by apply find_tldr_super_token_some in Htok as [? _].
Qed.

(** C6: a block without the letters tldr (in any case), which is a block
    in which the search finds no token, makes [get_section_text] raise
    its own exception, and a block whose located token has nothing after
    it makes it raise [IndexError]; no section is answered in either
    case. *)
Theorem get_section_text_malformed text :
  occurs_ci "tldr" text = false
  ∨ (∃ tok before, find_tldr_super_token text = Some tok ∧ cut tok text = Some (before, "")) →
  get_section_text text =
    Raise (if occurs_ci "tldr" text then IndexError
           else Exception_ "Invalid content generated for the query by the LLM").
Proof.
  intros [Hnone|(tok & before & Htok & Hcut)].
  - unfold get_section_text. by rewrite (find_tldr_super_token_none _ Hnone), Hnone.
  - destruct (find_tldr_super_token_some _ _ Htok) as [-> Hlen].
    unfold get_section_text. rewrite Htok. unfold split.
    pose proof (cut_spec _ _ _ _ Hcut) as Htext.
    apply (f_equal String.length) in Htext. rewrite !length_app in Htext.
    destruct (String.length text) as [|n] eqn:Hn; [lia|].
    cbn [split_max]. rewrite Hcut.
    assert (split_max n tok "" = [""]) as ->.
    { destruct n; [done|]. simpl. destruct tok; [simpl in Hlen; lia|done]. }
    reflexivity.
Qed.

Lemma get_section_text_malformed_witness :
  get_section_text "An answer without its summary line"
  = Raise (Exception_ "Invalid content generated for the query by the LLM")
  ∧ get_section_text "Background **TLDR:**" = Raise IndexError.
Proof.
  split.
  - apply (get_section_text_malformed "An answer without its summary line").
    left. reflexivity.
  - apply (get_section_text_malformed "Background **TLDR:**").
    right. exists "**TLDR:**", "Background ". split; reflexivity.
Defined.

(** ** The robust decoder *)

Lemma safe_json_parse_plain_list py_str json_loads literal_eval l :
  safe_json_parse py_str json_loads literal_eval (Plain (VList l))
  = decode_text json_loads literal_eval (py_str (VList l)).
Proof. reflexivity. Qed.

Lemma safe_json_parse_plain_dict py_str json_loads literal_eval d :
  safe_json_parse py_str json_loads literal_eval (Plain (VDict d))
  = decode_text json_loads literal_eval (py_str (VDict d)).
Proof. reflexivity. Qed.

(** C9 (the code at a failing input): a list holding one string, a
    closing bracket, is not answered as it is.  It is rendered as text
    first, the slice stops at the bracket inside the string, and when the
    parsers reject the pieces, as Python's do, the call raises
    [ValueError]. *)
Theorem safe_json_parse_list_not_returned py_str json_loads literal_eval :
  py_str (VList [VStr "]"]) = "[']']" →
  json_loads "[']" = None →
  json_loads ("[" +:+ dq +:+ "]") = None →
  literal_eval "[']" = None →
  json_loads "[']']" = None →
  safe_json_parse py_str json_loads literal_eval (Plain (VList [VStr "]"]))
  = Raise (ValueError "Failed to parse JSON output").
Proof.
  intros Hstr H1 H2 H3 H4. rewrite safe_json_parse_plain_list, Hstr.
  unfold decode_text.
  change (strip_code_fences "[']']") with "[']']".
  change (extract_json_slice "[']']") with "[']".
  rewrite H1, H3, H4.
  change (contains "[']" "'" && negb (contains "[']" dq)) with true.
  change (replace "'" dq "[']") with ("[" +:+ dq +:+ "]").
  cbv iota. by rewrite H2.
Qed.

Lemma safe_json_parse_list_not_returned_witness :
  safe_json_parse (fun _ => "[']']") (fun _ => None) (fun _ => None) (Plain (VList [VStr "]"]))
  = Raise (ValueError "Failed to parse JSON output").
Proof. apply safe_json_parse_list_not_returned; reflexivity. Defined.

(** ** Dictionaries *)

Lemma dict_get_keys {V} (d : dict V) k : k ∈ dict_keys d ↔ is_Some (dict_get d k).
Proof.
  unfold dict_keys. induction d as [|[k' v] d IH]; csimpl.
  - split; [by intros ?%not_elem_of_nil|by intros [? ?]].
  - rewrite elem_of_cons, IH. destruct (String.eqb_spec k k') as [->|Hne].
    + split; [by eauto|by left].
    + split; [by intros [?|?]|by right].
Qed.

Lemma dict_set_keys {V} (d : dict V) k v :
  dict_keys (dict_set d k v) = if dict_has d k then dict_keys d else (dict_keys d ++ [k])%list.
Proof.
  unfold dict_keys, dict_has. induction d as [|[k' v'] d IH]; csimpl; [done|].
  destruct (String.eqb_spec k k') as [->|Hne]; csimpl; [done|].
  rewrite IH. by destruct (dict_get d k).
Qed.



(** ** Prefix resolution *)





Lemma is_empty_spec s : is_empty s = true ↔ s = "".
Proof. by destruct s. Qed.



Example prefix_resolution_unique :
  let pool :=
    [("[2509.01324 | Smith | 2020 | Citations: 5]", {| quote := "q1"; inline_citations := [] |});
     ("[2301.00001 | Doe | 2023 | Citations: 2]", {| quote := "q2"; inline_citations := [] |})] in
  resolve_token ascii_only pool []
    (id_to_key ascii_only (dict_keys pool)) (id_to_key ascii_only []) "[2509]"
  = Some ("[2509.01324 | Smith | 2020 | Citations: 5]", main).
Proof. vm_compute. reflexivity. Qed.

Example prefix_resolution_ambiguous :
  let pool :=
    [("[2509.01324 | Smith | 2020 | Citations: 5]", {| quote := "q1"; inline_citations := [] |});
     ("[2509.77777 | Doe | 2023 | Citations: 2]", {| quote := "q2"; inline_citations := [] |})] in
  resolve_token ascii_only pool []
    (id_to_key ascii_only (dict_keys pool)) (id_to_key ascii_only []) "[2509]"
  = None.
Proof. vm_compute. reflexivity. Qed.

(** ** Substitution: fuel and look-behind *)

Lemma rep_greedy_prev {R} cls (k : option ascii → string → option R) least prev prev' s :
  (∀ q q' t, k q t = k q' t) →
  rep_greedy cls k least prev s = rep_greedy cls k least prev' s.
Proof.
  intros Hk. destruct s as [|c s]; simpl; by rewrite (Hk prev prev').
Qed.

Lemma rep_lazy_prev {R} cls (k : option ascii → string → option R) least prev prev' s :
  (∀ q q' t, k q t = k q' t) →
  rep_lazy cls k least prev s = rep_lazy cls k least prev' s.
Proof.
  intros Hk. destruct s as [|c s]; simpl; by rewrite (Hk prev prev').
Qed.

Lemma match_here_prev p g prev prev' s :
  no_wordb p = true → match_here p g prev s = match_here p g prev' s.
Proof.
  revert g prev prev' s. induction p as [|a p IH]; intros g prev prev' s; [done|].
  simpl. destruct a as [l|l|cls least [|]|l| |]; try done; intros Hp.
  - destruct (after_prefix l s); [by apply IH|done].
  - destruct (after_prefix_ci l s); [by apply IH|done].
  - apply rep_greedy_prev. intros. by apply IH.
  - apply rep_lazy_prev. intros. by apply IH.
  - rewrite (IH g prev prev' s Hp).
    destruct (after_prefix l s) as [s'|]; [|done].
    by rewrite (IH g (last_consumed (String.length l) s prev)
                  (last_consumed (String.length l) s prev') s' Hp).
  - by apply IH.
Qed.

Lemma sub_from_prev n p repl prev prev' s :
  no_wordb p = true → sub_from n p repl prev s = sub_from n p repl prev' s.
Proof.
  intros Hp. revert prev prev' s. induction n as [|n IH]; intros prev prev' s; [done|].
  simpl. rewrite (match_here_prev p None prev prev' s Hp).
  destruct (match_here p None prev' s) as [[g rest]|]; [|done].
  destruct (String.length rest <? String.length s)%nat; [|done].
  f_equal. apply IH.
Qed.

Lemma sub_from_fuel n n' p repl prev s :
  (String.length s < n)%nat → (String.length s < n')%nat →
  sub_from n p repl prev s = sub_from n' p repl prev s.
Proof.
  revert n' prev s. induction n as [|n IH]; intros [|n'] prev s Hn Hn'; [lia..|].
  simpl.
  assert (Hskip : match s with
                  | "" => ""
                  | String c s' => String c (sub_from n p repl (Some c) s')
                  end
                  = match s with
                    | "" => ""
                    | String c s' => String c (sub_from n' p repl (Some c) s')
                    end).
  { destruct s as [|c s]; [done|]. simpl in Hn, Hn'. f_equal. apply IH; lia. }
  destruct (match_here p None prev s) as [[g rest]|]; [|done].
  destruct (String.length rest <? String.length s)%nat eqn:E; [|done].
  apply Nat.ltb_lt in E. f_equal. apply IH; lia.
Qed.

(** One round of [re.sub] at a position where the pattern matches. *)
Lemma re_sub_match p repl s g rest :
  no_wordb p = true →
  match_here p None None s = Some (g, rest) →
  (String.length rest < String.length s)%nat →
  re_sub p repl s = repl (consumed (default s g) rest) +:+ re_sub p repl rest.
Proof.
  intros Hp Hm Hlen. unfold re_sub at 1. cbn [sub_from]. rewrite Hm.
  apply Nat.ltb_lt in Hlen as Hlt. rewrite Hlt. f_equal.
  rewrite (sub_from_prev _ p repl _ None rest Hp).
  apply sub_from_fuel; lia.
Qed.

(** ** The repair of adjacent citations *)

Lemma after_prefix_app l s : after_prefix l (l +:+ s) = Some s.
Proof. by apply after_prefix_spec. Qed.

(** A greedy repetition over a whole run of the class, accepted by what
    follows. *)
Lemma rep_greedy_run {R} cls (k : option ascii → string → option R) least prev w s r :
  all_chars cls w = true → (least ≤ String.length w)%nat → head_in cls s = false →
  (∀ q, k q s = Some r) →
  rep_greedy cls k least prev (w +:+ s) = Some r.
Proof.
  revert least prev. induction w as [|c w IH]; intros least prev Hw Hleast Hs Hk.
  - simpl in Hleast. assert (least = 0) as -> by lia. rewrite app_empty_l.
    destruct s as [|c s]; simpl; [done|]. simpl in Hs. by rewrite Hs.
  - rewrite app_cons. simpl in *. apply andb_true_iff in Hw as [-> Hw].
    rewrite IH; [done|done|lia|done..].
Qed.

(** A greedy repetition that has to give its last character back. *)
Lemma rep_greedy_give_back {R} cls (k : option ascii → string → option R) least prev w c s r :
  all_chars cls w = true → (least ≤ String.length w)%nat →
  cls c = true → head_in cls s = false →
  (∀ q, k q s = None) → (∀ q, k q (String c s) = Some r) →
  rep_greedy cls k least prev (w +:+ String c s) = Some r.
Proof.
  revert least prev. induction w as [|d w IH]; intros least prev Hw Hleast Hc Hs Hnone Hsome.
  - simpl in Hleast. assert (least = 0) as -> by lia. rewrite app_empty_l.
    simpl. rewrite Hc.
    assert (rep_greedy cls k 0 (Some c) s = None) as ->; [|done].
    destruct s as [|e s]; simpl; [done|]. simpl in Hs. by rewrite Hs.
  - rewrite app_cons. simpl in *. apply andb_true_iff in Hw as [-> Hw].
    rewrite IH; [done|done|lia|done..].
Qed.

Lemma not_empty_length s : is_empty s = false → (1 ≤ String.length s)%nat.
Proof. destruct s; [done|]. simpl. lia. Qed.

(** The pattern of the repair after its optional separator. *)
Lemma key_fragment_match g prev id_field name year count rest :
  key_fields_ok id_field name year count = true →
  head_in is_digit rest = false →
  match_here
    [Rep not_space 1 true; Lit " | "; Rep name_char 1 true; Lit " | ";
     Rep is_digit 1 true; Lit " | Citations: "; Rep is_digit 1 true]
    g prev (key_fragment id_field name year count +:+ rest)
  = Some (g, rest).
Proof.
  unfold key_fields_ok. rewrite !andb_true_iff, !negb_true_iff.
  intros ((((((((Hid0 & Hid) & _) & Hname0) & Hname) & Hyear0) & Hyear) & Hcount0) & Hcount) Hrest.
  unfold key_fragment. rewrite !app_assoc_s. cbn [match_here].
  apply rep_greedy_run; [done|by apply not_empty_length|done|]. intros q1.
  cbn [match_here]. rewrite after_prefix_app.
  change (" | " +:+ year +:+ " | Citations: " +:+ count +:+ rest)
    with (String " " ("| " +:+ year +:+ " | Citations: " +:+ count +:+ rest)).
  apply rep_greedy_give_back; [done|by apply not_empty_length|done|done|done|]. intros q2.
  change (String " " ("| " +:+ year +:+ " | Citations: " +:+ count +:+ rest))
    with (" | " +:+ year +:+ " | Citations: " +:+ count +:+ rest).
  cbn [match_here]. rewrite after_prefix_app.
  apply rep_greedy_run; [done|by apply not_empty_length|done|]. intros q3.
  cbn [match_here]. rewrite after_prefix_app.
  apply rep_greedy_run; [done|by apply not_empty_length|done|]. done.
Qed.

Lemma key_fragment_no_separator id_field name year count rest :
  key_fields_ok id_field name year count = true →
  after_prefix "; " (key_fragment id_field name year count +:+ rest) = None.
Proof.
  unfold key_fields_ok. rewrite !andb_true_iff, !negb_true_iff.
  intros ((((((((Hid0 & Hid) & Hsemi) & _) & _) & _) & _) & _) & _).
  unfold key_fragment. rewrite !app_assoc_s.
  destruct id_field as [|c [|d id']]; [done| |].
  - rewrite app_cons. cbn [after_prefix].
    destruct (ascii_eqb ";" c) eqn:E; [|done].
    apply ascii_eqb_eq in E as <-. done.
  - rewrite !app_cons. cbn [after_prefix].
    destruct (ascii_eqb ";" c); [|done].
    destruct (ascii_eqb " " d) eqn:E; [|done].
    apply ascii_eqb_eq in E as <-. cbn [all_chars] in Hid.
    apply andb_true_iff in Hid as [_ Hid]. done.
Qed.

Lemma key_fragment_length id_field name year count :
  key_fields_ok id_field name year count = true →
  (1 ≤ String.length (key_fragment id_field name year count))%nat.
Proof.
  unfold key_fields_ok. rewrite !andb_true_iff, !negb_true_iff.
  intros ((((((((Hid0 & _) & _) & _) & _) & _) & _) & _) & _).
  unfold key_fragment. rewrite length_app. apply not_empty_length in Hid0. lia.
Qed.

Lemma match_here_Opt l p g prev s :
  match_here (Opt l :: p) g prev s =
    match after_prefix l s with
    | Some s' =>
        match match_here p g (last_consumed (String.length l) s prev) s' with
        | Some r => Some r
        | None => match_here p g prev s
        end
    | None => match_here p g prev s
    end.
Proof. reflexivity. Qed.

Lemma match_here_Open p g prev s :
  match_here (Open :: p) g prev s = match_here p (Some s) prev s.
Proof. reflexivity. Qed.

(** Where the scan of the repair stands before a fragment shaped like a
    composite key, with or without a separator before it and with no
    regard to brackets around it, the bracket pair is put before the
    fragment, the separator is dropped, and the scan goes on after the
    fragment.  The text is ASCII, where [\S] and [\d] are what
    [not_space] and [is_digit] say. *)
Lemma adjacent_citation_reopened id_field name year count rest :
  is_ascii_text id_field = true → is_ascii_text rest = true →
  key_fields_ok id_field name year count = true →
  head_in is_digit rest = false →
  re_sub adjacent_citation reopen (key_fragment id_field name year count +:+ rest)
  = "] [" +:+ key_fragment id_field name year count +:+ re_sub adjacent_citation reopen rest
  ∧ re_sub adjacent_citation reopen ("; " +:+ key_fragment id_field name year count +:+ rest)
    = "] [" +:+ key_fragment id_field name year count +:+ re_sub adjacent_citation reopen rest.
Proof.
  intros _ _ Hok Hrest.
  pose proof (key_fragment_length _ _ _ _ Hok) as Hlen.
  set (frag := key_fragment id_field name year count) in *.
  split.
  - rewrite (re_sub_match adjacent_citation reopen (frag +:+ rest) (Some (frag +:+ rest)) rest).
    + change (default _ (Some (frag +:+ rest))) with (frag +:+ rest).
      rewrite consumed_app. unfold reopen. by rewrite app_assoc_s.
    + done.
    + unfold adjacent_citation. rewrite match_here_Opt, match_here_Open.
      subst frag. rewrite key_fragment_no_separator by done.
      by apply key_fragment_match.
    + rewrite length_app. lia.
  - rewrite (re_sub_match adjacent_citation reopen ("; " +:+ frag +:+ rest)
               (Some (frag +:+ rest)) rest).
    + change (default _ (Some (frag +:+ rest))) with (frag +:+ rest).
      rewrite consumed_app. unfold reopen. by rewrite app_assoc_s.
    + done.
    + unfold adjacent_citation. rewrite match_here_Opt, after_prefix_app.
      rewrite (match_here_Open _ None _ (frag +:+ rest)).
      subst frag. by rewrite key_fragment_match.
    + rewrite !length_app. lia.
Qed.

(** C5 (the code at a failing input): a fragment inside its own bracket
    pair is not left as it is.  The id of the pattern takes the opening
    bracket with it, so the bracket pair is put before that bracket and
    the removal of empty pairs finds none to remove; the answer built
    from the section keeps a closing bracket that belongs to nothing. *)
Theorem bracketed_fragment_reopened :
  re_sub adjacent_citation reopen "See [123 | Smith | 2020 | Citations: 5]."
  = "See ] [[123 | Smith | 2020 | Citations: 5]."
  ∧ re_sub [Lit "[]"] (fun _ => "") "See ] [[123 | Smith | 2020 | Citations: 5]."
    = "See ] [[123 | Smith | 2020 | Citations: 5]."
  ∧ get_json_summary ascii_only "openai/gpt-4"
      ["Intro TLDR: this is a summary" +:+ nl
       +:+ "Body sentence with [123 | Smith | 2020 | Citations: 5]."]
      [("[123 | Smith | 2020 | Citations: 5]",
        {| quote := "relevant text"; inline_citations := [] |})]
      ∅ ∅ false
    = Ok [{| title := "Intro"; tldr := Some "this is a summary (1 source)";
             text := "Body sentence with ] (Smith, 2020).";
             citations :=
               [{| id := "(Smith, 2020)"; snippets := ["relevant text"];
                   paper := [("corpus_id", VStr "123")]; score := None |}] |}].
Proof. split_and!; vm_compute; reflexivity. Qed.

(** ** The counters of [split], [replace] and [findall] are never exhausted *)

Lemma cut_shorter sep s a b :
  sep ≠ "" → cut sep s = Some (a, b) → (String.length b < String.length s)%nat.
Proof.
  intros Hsep ->%cut_spec. rewrite !length_app.
  destruct sep; [done|]. simpl. lia.
Qed.

Lemma cut_empty sep : sep ≠ "" → cut sep "" = None.
Proof. by destruct sep. Qed.

Lemma length_zero s : String.length s = 0 → s = "".
Proof. by destruct s. Qed.

Lemma split_max_fuel n n' sep s :
  sep ≠ "" → (String.length s ≤ n)%nat → (String.length s ≤ n')%nat →
  split_max n sep s = split_max n' sep s.
Proof.
  intros Hsep. revert n' s. induction n as [|n IH]; intros n' s Hn Hn'.
  - assert (s = "") as -> by (apply length_zero; lia).
    destruct n'; [done|]. cbn [split_max replace_max]. by rewrite cut_empty.
  - destruct n' as [|n'].
    + assert (s = "") as -> by (apply length_zero; lia). cbn [split_max replace_max]. by rewrite cut_empty.
    + cbn [split_max]. destruct (cut sep s) as [[a b]|] eqn:E; [|done].
      apply cut_shorter in E; [|done]. f_equal. apply IH; lia.
Qed.

Lemma replace_max_fuel n n' old new s :
  old ≠ "" → (String.length s ≤ n)%nat → (String.length s ≤ n')%nat →
  replace_max n old new s = replace_max n' old new s.
Proof.
  intros Hold. revert n' s. induction n as [|n IH]; intros n' s Hn Hn'.
  - assert (s = "") as -> by (apply length_zero; lia).
    destruct n'; [done|]. cbn [split_max replace_max]. by rewrite cut_empty.
  - destruct n' as [|n'].
    + assert (s = "") as -> by (apply length_zero; lia). cbn [split_max replace_max]. by rewrite cut_empty.
    + cbn [replace_max]. destruct (cut old s) as [[a b]|] eqn:E; [|done].
      apply cut_shorter in E; [|done]. do 2 f_equal. apply IH; lia.
Qed.

Lemma findall_from_fuel n n' p prev s :
  (String.length s < n)%nat → (String.length s < n')%nat →
  findall_from n p prev s = findall_from n' p prev s.
Proof.
  revert n' prev s. induction n as [|n IH]; intros [|n'] prev s Hn Hn'; [lia..|].
  simpl.
  assert (Hskip : match s with
                  | "" => []
                  | String c s' => findall_from n p (Some c) s'
                  end
                  = match s with
                    | "" => []
                    | String c s' => findall_from n' p (Some c) s'
                    end).
  { destruct s as [|c s]; [done|]. simpl in Hn, Hn'. apply IH; lia. }
  destruct (match_here p None prev s) as [[g rest]|]; [|done].
  destruct (String.length rest <? String.length s)%nat eqn:E; [|done].
  apply Nat.ltb_lt in E. f_equal. apply IH; lia.
Qed.

(** [s.replace(old, new)] is [new.join(s.split(old))]. *)
Lemma replace_max_join n old new s :
  replace_max n old new s = String.concat new (split_max n old s).
Proof.
  revert s. induction n as [|n IH]; intros s; [done|]. cbn [replace_max split_max].
  destruct (cut old s) as [[a b]|]; [|done].
  rewrite IH. destruct n; [done|]. cbn [split_max].
  by destruct (cut old b) as [[? ?]|].
Qed.

Lemma replace_join old new s : replace old new s = String.concat new (split old s).
Proof. apply replace_max_join. Qed.

(** ** Tokens that resolve to nothing *)

(** C8 (as amended): a token the transliteration leaves as it is and the
    resolver finds nothing for raises no exception; the text becomes the
    pieces between its occurrences joined, the citations, the set of
    resolved ids and the labels stay as they are, and the loop goes on
    with the next token. *)
Theorem unresolved_token_deleted anyascii summary_quotes inline_citation_quotes
    id_to_main_key id_to_inline_key paper_metadata inline_tags st ref references :
  anyascii ref = ref →
  resolve_token anyascii summary_quotes inline_citation_quotes
    id_to_main_key id_to_inline_key ref = None →
  cite_all anyascii summary_quotes inline_citation_quotes id_to_main_key id_to_inline_key
    paper_metadata inline_tags st (ref :: references)
  = cite_all anyascii summary_quotes inline_citation_quotes id_to_main_key id_to_inline_key
      paper_metadata inline_tags
      {| ls_text := String.concat "" (split ref (ls_text st));
         ls_refs_list := ls_refs_list st;
         ls_refs_done := ls_refs_done st;
         ls_citation_ids := ls_citation_ids st |}
      references.
Proof.
  intros Hascii Hnone. cbn [cite_all]. unfold cite.
  rewrite Hascii, Hnone. cbn [bind]. by rewrite replace_join.
Qed.

Lemma unresolved_token_deleted_witness :
  cite_all ascii_only [] [] [] [] ∅ false
    {| ls_text := "Seen [ab] twice [ab]."; ls_refs_list := []; ls_refs_done := ∅;
       ls_citation_ids := ∅ |} ["[ab]"]
  = Ok {| ls_text := "Seen  twice ."; ls_refs_list := []; ls_refs_done := ∅;
          ls_citation_ids := ∅ |}.
Proof.
  rewrite (unresolved_token_deleted ascii_only [] [] [] [] ∅ false _ "[ab]" []);
    reflexivity.
Defined.

(** A token that the transliteration changes is looked for in the text
    in its transliterated form; when the text does not hold that form,
    nothing is deleted. *)
Lemma unresolved_token_not_found anyascii summary_quotes inline_citation_quotes
    id_to_main_key id_to_inline_key paper_metadata inline_tags st ref :
  resolve_token anyascii summary_quotes inline_citation_quotes
    id_to_main_key id_to_inline_key (anyascii ref) = None →
  cut (anyascii ref) (ls_text st) = None →
  cite anyascii summary_quotes inline_citation_quotes id_to_main_key id_to_inline_key
    paper_metadata inline_tags st ref = Ok st.
Proof.
  intros Hnone Habsent. unfold cite. rewrite Hnone, (replace_absent _ _ _ Habsent).
  by destruct st.
Qed.

(** C8 (as stated) fails: deleting the occurrences of a token can put
    its pieces together again.  Here no pool holds a key, both tokens of
    the body go unresolved, and the first of them is in the text that
    comes out. *)
Lemma unresolved_token_can_remain :
  get_json_summary ascii_only "openai/gpt-4"
    ["Notes TLDR: a summary" +:+ nl +:+ "[ab] [a[ab]b]"] [] ∅ ∅ false
  = Ok [{| title := "Notes"; tldr := Some "a summary (LLM Memory)";
           text := " [ab]"; citations := [] |}]
  ∧ re_findall bracket_span "[ab] [a[ab]b]" = ["[ab]"; "[a[ab]"].
Proof. split; vm_compute; reflexivity. Qed.

(** ** Duplicates within a section *)

(** A resolved token whose corpus id was already cited in the section
    leaves the loop state as it is: nothing is appended and nothing is
    replaced. *)
Lemma cite_duplicate_skipped anyascii summary_quotes inline_citation_quotes
    id_to_main_key id_to_inline_key paper_metadata inline_tags st ref
    c key resolved_source ref_corpus_id author year fields :
  resolve_token anyascii summary_quotes inline_citation_quotes
    id_to_main_key id_to_inline_key (anyascii ref) = Some (String c key, resolved_source) →
  split " | " (slice 1 1 (String c key)) = ref_corpus_id :: author :: year :: fields →
  normalize_id anyascii (Some ref_corpus_id) ∈ ls_refs_done st →
  cite anyascii summary_quotes inline_citation_quotes id_to_main_key id_to_inline_key
    paper_metadata inline_tags st ref = Ok st.
Proof.
  intros Hres Hparts Hdone. unfold cite. rewrite Hres, Hparts. cbn [item lookup list_lookup bind].
  by rewrite decide_True.
Qed.

(** C3 (the code at a failing input): the token written with the arXiv
    label resolves to the corpus id the plain token has already cited; no
    second record is added, and the token stays in the body as it was
    written. *)
Theorem duplicate_token_left_in_text :
  get_json_summary ascii_only "openai/gpt-4"
    ["Intro TLDR: this is a summary" +:+ nl
     +:+ "As shown in [123] and again in [arXiv:123]."]
    sample_quotes ∅ ∅ false
  = Ok [{| title := "Intro"; tldr := Some "this is a summary (1 source)";
           text := "As shown in (Smith, 2020) and again in [arXiv:123].";
           citations :=
             [{| id := "(Smith, 2020)"; snippets := ["relevant text"];
                 paper := [("corpus_id", VStr "123")]; score := None |}] |}].
Proof. vm_compute. reflexivity. Qed.

Example duplicate_token_full_key :
  get_json_summary ascii_only "openai/gpt-4"
    ["Intro TLDR: this is a summary" +:+ nl
     +:+ "As shown in [123 | Smith | 2020 | Citations: 5] and again in [123]."]
    sample_quotes ∅ ∅ false
  = Ok [{| title := "Intro"; tldr := Some "this is a summary (1 source)";
           text := "As shown in ] (Smith, 2020) and again in [123].";
           citations :=
             [{| id := "(Smith, 2020)"; snippets := ["relevant text"];
                 paper := [("corpus_id", VStr "123")]; score := None |}] |}].
Proof. vm_compute. reflexivity. Qed.

Example duplicate_token_plain_key :
  get_json_summary ascii_only "openai/gpt-4"
    ["Intro TLDR: this is a summary" +:+ nl +:+ "As shown in [123 | Smith | 2020] and again in [123]."]
    [("[123 | Smith | 2020]", {| quote := "relevant text"; inline_citations := [] |})]
    ∅ ∅ false
  = Ok [{| title := "Intro"; tldr := Some "this is a summary (1 source)";
           text := "As shown in (Smith, 2020) and again in [123].";
           citations :=
             [{| id := "(Smith, 2020)"; snippets := ["relevant text"];
                 paper := [("corpus_id", VStr "123")]; score := None |}] |}].
Proof. vm_compute. reflexivity. Qed.

(** ** The patterns of [re.sub] and [re.findall] match no empty text *)

Lemma match_here_progress p g prev s g' rest :
  (1 ≤ min_len p)%nat → match_here p g prev s = Some (g', rest) →
  (String.length rest < String.length s)%nat.
Proof.
  intros Hp (m & -> & Hm)%match_here_split. rewrite length_app. lia.
Qed.

Example patterns_consume :
  Forall (λ p, (1 ≤ min_len p)%nat)
    [adjacent_citation; [Lit "[]"]; bracket_span; [Rep (ascii_eqb " ") 1 true];
     [Rep is_space 0 true; Lit "(list)"]; [Rep is_space 0 true; Lit "(synthesis)"]].
Proof. repeat constructor; simpl; lia. Qed.

(** The scenario of the specification, as the code runs it. *)
Example get_json_summary_sample :
  get_json_summary ascii_only "openai/gpt-4" [sample_section] sample_quotes ∅ ∅ false
  = Ok [{| title := "Intro"; tldr := Some "this is a summary (1 source)";
           text := "Body sentence with ] (Smith, 2020).";
           citations :=
             [{| id := "(Smith, 2020)"; snippets := ["relevant text"];
                 paper := [("corpus_id", VStr "123")]; score := None |}] |}].
Proof. vm_compute. reflexivity. Qed.

(** ** Labels across a whole answer *)

Lemma resolve_ref_id_keeps r c m r' c' l' :
  recorded m r' c' l' → recorded (resolve_ref_id r c m).2 r' c' l'.
Proof.
  intros (seen & Hm & Hc). rewrite resolve_ref_id_cases.
  destruct (default ∅ (m !! r) !! c) as [l|] eqn:E; [by exists seen|].
  cbn [snd]. destruct (decide (r = r')) as [<-|Hne].
  - rewrite Hm in E |- *. simpl in E |- *.
    exists (<[c := label_for r (size seen)]> seen). rewrite lookup_insert_eq. split; [done|].
    rewrite lookup_insert_ne; [done|]. intros <-. congruence.
  - exists seen. by rewrite lookup_insert_ne.
Qed.

(** X1: asking again for the label of the same author/year string and
    corpus id answers the same label and leaves the map as the first
    call left it. *)
Theorem resolve_ref_id_stable r c m :
  resolve_ref_id r c (resolve_ref_id r c m).2 = resolve_ref_id r c m.
Proof.
  rewrite !resolve_ref_id_cases.
  destruct (default ∅ (m !! r) !! c) as [l|] eqn:E; cbn [snd].
  - by rewrite E.
  - rewrite lookup_insert_eq. simpl. by rewrite lookup_insert_eq.
Qed.

Lemma pop_ref_data_ids ref_str_id ref_corpus_id fixed_quote meta r :
  pop_ref_data ref_str_id ref_corpus_id fixed_quote meta = Ok r →
  id r = ref_str_id ∧ corpus_id_of r = ref_corpus_id.
Proof.
  unfold pop_ref_data. destruct meta as [[|kv m]|]; try (by intros [= <-]).
  destruct (getitem _ "title"); [|done]. cbn [bind].
  destruct (getitem _ "authors"); [|done]. cbn [bind].
  destruct (getitem _ "venue"); [|done]. cbn [bind].
  destruct (getitem _ "citationCount"); [|done]. cbn [bind].
  by intros [= <-].
Qed.

Section Rounds.
Variable anyascii : string → string.
Variable summary_quotes : dict QuoteRecord.
Variable inline_citation_quotes : dict string.
Variable id_to_main_key : dict string.
Variable id_to_inline_key : dict string.
Variable paper_metadata : gmap string (dict pyval).
Variable inline_tags : bool.

(** What a round of the loop that ends normally has done: nothing to
    the records, or one record appended for a corpus id not cited before. *)
Lemma cite_rounds st ref st' :
  cite anyascii summary_quotes inline_citation_quotes id_to_main_key id_to_inline_key
    paper_metadata inline_tags st ref = Ok st' →
  (ls_refs_list st' = ls_refs_list st ∧ ls_refs_done st' = ls_refs_done st
   ∧ ls_citation_ids st' = ls_citation_ids st)
  ∨ ∃ key src ref_corpus_id author year fields ref_str ref_data,
      resolve_token anyascii summary_quotes inline_citation_quotes id_to_main_key
        id_to_inline_key (anyascii ref) = Some (key, src)
      ∧ split " | " (slice 1 1 key) = ref_corpus_id :: author :: year :: fields
      ∧ (normalize_id anyascii (Some ref_corpus_id) ∉ ls_refs_done st)
      ∧ corpus_id_of ref_data = ref_corpus_id
      ∧ id ref_data = (resolve_ref_id ref_str ref_corpus_id (ls_citation_ids st)).1
      ∧ ls_refs_list st' = (ls_refs_list st ++ [ref_data])%list
      ∧ ls_refs_done st' = {[normalize_id anyascii (Some ref_corpus_id)]} ∪ ls_refs_done st
      ∧ ls_citation_ids st' = (resolve_ref_id ref_str ref_corpus_id (ls_citation_ids st)).2.
Proof.
  unfold cite. intros H.
  destruct (resolve_token _ _ _ _ _ _) as [[[|c key] src]|] eqn:Hres;
    [injection H as <-; by left| |injection H as <-; by left].
  destruct (split " | " (slice 1 1 (String c key))) as [|cid [|author [|year fields]]] eqn:Hparts;
    try done.
  cbn [item lookup list_lookup bind] in H.
  destruct (decide (_ ∈ _)) as [|Hnew]; [injection H as <-; by left|].
  match type of H with bind ?q _ = _ => destruct q as [fixed_quote|] eqn:Hq; [|done] end.
  cbn [bind] in H.
  destruct (resolve_ref_id _ cid _) as [l ids'] eqn:Hl.
  destruct (pop_ref_data l cid _ _) as [ref_data|] eqn:Hpop; [|done].
  cbn [bind] in H. injection H as <-. right.
  apply pop_ref_data_ids in Hpop as [Hid Hcid].
  exists (String c key), src, cid, author, year, fields. eexists _, ref_data.
  rewrite Hl. cbn [ls_refs_list ls_refs_done ls_citation_ids fst snd].
  by split_and!.
Qed.

Section Invariant.
Variable P : gmap string (gmap string string) → Prop.
Hypothesis P_step : ∀ r c m, P m → P (resolve_ref_id r c m).2.

Lemma cite_all_ids references st st' :
  cite_all anyascii summary_quotes inline_citation_quotes id_to_main_key id_to_inline_key
    paper_metadata inline_tags st references = Ok st' →
  P (ls_citation_ids st) → P (ls_citation_ids st').
Proof.
  revert st. induction references as [|ref references IH]; intros st; cbn [cite_all].
  - by intros [= <-].
  - destruct (cite _ _ _ _ _ _ _ st ref) as [st1|] eqn:H1; [|done]. cbn [bind].
    intros H HP. apply (IH _ H).
    apply cite_rounds in H1 as [(_ & _ & ->)|(? & ? & ? & ? & ? & ? & ? & ? & H1)]; [done|].
    destruct H1 as (_ & _ & _ & _ & _ & _ & _ & ->). by apply P_step.
Qed.

Lemma assemble_sections_ids llm_ref_format summary_sections citation_ids out citation_ids' :
  assemble_sections anyascii summary_quotes inline_citation_quotes id_to_main_key
    id_to_inline_key paper_metadata inline_tags llm_ref_format summary_sections citation_ids
  = Ok (out, citation_ids') →
  P citation_ids → P citation_ids'.
Proof.
  revert citation_ids out. induction summary_sections as [|sec rest IH]; intros ids out;
    cbn [assemble_sections].
  - by intros [= _ <-].
  - destruct (assemble_section _ _ _ _ _ _ _ _ sec ids) as [[s1 ids1]|] eqn:H1; [|done].
    cbn [bind snd].
    destruct (assemble_sections _ _ _ _ _ _ _ _ rest ids1) as [[s2 ids2]|] eqn:H2; [|done].
    cbn [bind fst snd]. intros [= _ <-] HP. apply (IH _ _ H2).
    unfold assemble_section in H1.
    destruct (get_section_text sec) as [cs|]; [|done]. cbn [bind] in H1.
    destruct (cite_all _ _ _ _ _ _ _ _ _) as [st|] eqn:Hc; [|done]. cbn [bind] in H1.
    destruct (tldr cs); [|done]. cbn [bind] in H1. injection H1 as _ <-.
    by apply (cite_all_ids _ _ _ Hc).
Qed.
End Invariant.
End Rounds.

Lemma get_json_summary_state_ids (P : gmap string (gmap string string) → Prop)
    anyascii llm_model summary_sections summary_quotes paper_metadata citation_ids
    inline_tags out citation_ids' :
  (∀ r c m, P m → P (resolve_ref_id r c m).2) →
  get_json_summary_state anyascii llm_model summary_sections summary_quotes paper_metadata
    citation_ids inline_tags = Ok (out, citation_ids') →
  P citation_ids → P citation_ids'.
Proof.
  intros HP. unfold get_json_summary_state.
  destruct (item _ 0); [|done]. cbn [bind]. destruct (item _ 1); [|done]. cbn [bind].
  by apply assemble_sections_ids.
Qed.

(** X2: a label recorded in the disambiguation map before a call of
    [get_json_summary] is still recorded, for the same string and corpus
    id, in the map the call leaves. *)
Theorem get_json_summary_keeps_labels anyascii llm_model summary_sections summary_quotes
    paper_metadata citation_ids inline_tags out citation_ids' ref_str ref_corpus_id l :
  get_json_summary_state anyascii llm_model summary_sections summary_quotes paper_metadata
    citation_ids inline_tags = Ok (out, citation_ids') →
  recorded citation_ids ref_str ref_corpus_id l →
  recorded citation_ids' ref_str ref_corpus_id l.
Proof.
  apply (get_json_summary_state_ids (λ m, recorded m ref_str ref_corpus_id l)).
  intros r c m. apply resolve_ref_id_keeps.
Qed.

(** X3: when the labels of the map given to [get_json_summary] are
    those of the ranks of their ids, one id per label, so are the labels
    of the map the call leaves. *)
Theorem get_json_summary_labels_ok anyascii llm_model summary_sections summary_quotes
    paper_metadata citation_ids inline_tags out citation_ids' :
  get_json_summary_state anyascii llm_model summary_sections summary_quotes paper_metadata
    citation_ids inline_tags = Ok (out, citation_ids') →
  labels_ok citation_ids → labels_ok citation_ids'.
Proof.
  apply (get_json_summary_state_ids labels_ok). intros r c m Hm.
  destruct (resolve_ref_id r c m) as [l m'] eqn:E. by apply (resolve_ref_id_ok _ _ _ _ _ E).
Qed.

Lemma get_json_summary_keeps_labels_witness :
  ∃ out citation_ids',
    get_json_summary_state ascii_only "openai/gpt-4" [sample_section] sample_quotes ∅
      {["(Smith, 2020)" := {["999" := "(Smith, 2020)"]}]} false = Ok (out, citation_ids')
    ∧ recorded citation_ids' "(Smith, 2020)" "999" "(Smith, 2020)".
Proof.
  assert (∃ r, get_json_summary_state ascii_only "openai/gpt-4" [sample_section] sample_quotes ∅
                 {["(Smith, 2020)" := {["999" := "(Smith, 2020)"]}]} false = Ok r)
    as [[out citation_ids'] E] by (eexists; vm_compute; reflexivity).
  exists out, citation_ids'. split; [exact E|].
  apply (get_json_summary_keeps_labels _ _ _ _ _ _ _ _ _ _ _ _ E).
  exists {["999" := "(Smith, 2020)"]}. split; vm_compute; reflexivity.
Defined.

Lemma get_json_summary_labels_ok_witness :
  ∃ out citation_ids',
    get_json_summary_state ascii_only "openai/gpt-4" [sample_section] sample_quotes ∅ ∅ false
    = Ok (out, citation_ids')
    ∧ labels_ok citation_ids'.
Proof.
  assert (∃ r, get_json_summary_state ascii_only "openai/gpt-4" [sample_section] sample_quotes
                 ∅ ∅ false = Ok r)
    as [[out citation_ids'] E] by (eexists; vm_compute; reflexivity).
  exists out, citation_ids'. split; [exact E|].
  apply (get_json_summary_labels_ok _ _ _ _ _ _ _ _ _ E), labels_ok_empty.
Defined.

(** ** The sections of an answer *)

Lemma assemble_sections_each anyascii summary_quotes inline_citation_quotes id_to_main_key
    id_to_inline_key paper_metadata inline_tags llm_ref_format summary_sections citation_ids
    out citation_ids' :
  assemble_sections anyascii summary_quotes inline_citation_quotes id_to_main_key
    id_to_inline_key paper_metadata inline_tags llm_ref_format summary_sections citation_ids
  = Ok (out, citation_ids') →
  Forall2
    (λ sec s, ∃ ids1 ids2,
       assemble_section anyascii summary_quotes inline_citation_quotes id_to_main_key
         id_to_inline_key paper_metadata inline_tags llm_ref_format sec ids1 = Ok (s, ids2))
    summary_sections out.
Proof.
  revert citation_ids out. induction summary_sections as [|sec rest IH]; intros ids out;
    cbn [assemble_sections].
  - intros [= <- _]. constructor.
  - destruct (assemble_section _ _ _ _ _ _ _ _ sec ids) as [[s1 ids1]|] eqn:H1; [|done].
    cbn [bind snd].
    destruct (assemble_sections _ _ _ _ _ _ _ _ rest ids1) as [[s2 ids2]|] eqn:H2; [|done].
    cbn [bind fst snd]. intros [= <- <-]. constructor; [by exists ids, ids1|by eapply IH].
Qed.

Lemma assemble_section_parts anyascii summary_quotes inline_citation_quotes id_to_main_key
    id_to_inline_key paper_metadata inline_tags llm_ref_format sec citation_ids s citation_ids' :
  assemble_section anyascii summary_quotes inline_citation_quotes id_to_main_key
    id_to_inline_key paper_metadata inline_tags llm_ref_format sec citation_ids
  = Ok (s, citation_ids') →
  ∃ curr_section t st references,
    get_section_text sec = Ok curr_section
    ∧ tldr curr_section = Some t
    ∧ cite_all anyascii summary_quotes inline_citation_quotes id_to_main_key
        id_to_inline_key paper_metadata inline_tags
        {| ls_text := replace "[LLM MEMORY | 2024]" llm_ref_format
                        (re_sub [Lit "[]"] (fun _ => "")
                           (re_sub adjacent_citation reopen (text curr_section)));
           ls_refs_list := []; ls_refs_done := ∅; ls_citation_ids := citation_ids |}
        references = Ok st
    ∧ title s = title curr_section
    ∧ tldr s = Some (if is_empty t then t else t +:+ sources_note (length (ls_refs_list st)))
    ∧ text s = re_sub [Rep (ascii_eqb " ") 1 true] (fun _ => " ") (ls_text st)
    ∧ citations s = ls_refs_list st.
Proof.
  unfold assemble_section.
  destruct (get_section_text sec) as [cs|]; [|done]. cbn [bind].
  destruct (cite_all _ _ _ _ _ _ _ _ _) as [st|] eqn:Hc; [|done]. cbn [bind].
  destruct (tldr cs) as [t|] eqn:Ht; [|done]. cbn [bind]. intros [= <- _].
  exists cs, t, st. eexists. split_and!; try done.
  cbn [tldr]. f_equal. destruct (is_empty t); [done|].
  by destruct (ls_refs_list st) as [|? [|? ?]].
Qed.

Lemma get_json_summary_each anyascii llm_model summary_sections summary_quotes
    paper_metadata citation_ids inline_tags out :
  get_json_summary anyascii llm_model summary_sections summary_quotes paper_metadata
    citation_ids inline_tags = Ok out →
  ∃ sq icq im ii llm_ref_format,
  Forall2
    (λ sec s, ∃ ids1 ids2,
       assemble_section anyascii sq icq im ii paper_metadata inline_tags llm_ref_format
         sec ids1 = Ok (s, ids2))
    summary_sections out.
Proof.
  unfold get_json_summary, get_json_summary_state.
  destruct (item _ 0); [|done]. cbn [bind]. destruct (item _ 1); [|done]. cbn [bind].
  destruct (assemble_sections _ _ _ _ _ _ _ _ _ _) as [[o ids]|] eqn:H; [|done].
  cbn [bind fst]. intros [= <-]. do 5 eexists. by eapply assemble_sections_each.
Qed.

(** X4: a successful call answers one section per generated text, in
    the order given, each with the title the segmenter found in its
    text. *)
Theorem get_json_summary_sections_in_order anyascii llm_model summary_sections summary_quotes
    paper_metadata citation_ids inline_tags out :
  get_json_summary anyascii llm_model summary_sections summary_quotes paper_metadata
    citation_ids inline_tags = Ok out →
  Forall2 (λ sec s, ∃ curr_section, get_section_text sec = Ok curr_section
                                     ∧ title s = title curr_section)
    summary_sections out.
Proof.
  intros (sq & icq & im & ii & fmt & H)%get_json_summary_each.
  eapply Forall2_impl; [exact H|]. intros sec s (ids1 & ids2 & Hs). cbv beta in Hs.
  apply assemble_section_parts in Hs as (cs & t & st & refs & Hcs & _ & _ & Ht & _).
  by exists cs.
Qed.

(** X5: the TLDR of an answered section is the TLDR of the segmenter,
    followed, when it is not empty, by the note for the number of
    citation records of that section: LLM Memory for none, 1 source, or
    n sources. *)
Theorem tldr_note_counts_citations anyascii llm_model summary_sections summary_quotes
    paper_metadata citation_ids inline_tags out :
  get_json_summary anyascii llm_model summary_sections summary_quotes paper_metadata
    citation_ids inline_tags = Ok out →
  Forall2 (λ sec s, ∃ curr_section t,
             get_section_text sec = Ok curr_section ∧ tldr curr_section = Some t
             ∧ tldr s = Some (if is_empty t then t
                              else t +:+ sources_note (length (citations s))))
    summary_sections out.
Proof.
  intros (sq & icq & im & ii & fmt & H)%get_json_summary_each.
  eapply Forall2_impl; [exact H|]. intros sec s (ids1 & ids2 & Hs). cbv beta in Hs.
  apply assemble_section_parts in Hs as (cs & t & st & refs & Hcs & Ht & _ & _ & Hn & _ & ->).
  by exists cs, t.
Qed.

Lemma get_json_summary_sections_in_order_witness :
  ∃ out, get_json_summary ascii_only "openai/gpt-4" [sample_section] sample_quotes ∅ ∅ false
         = Ok out
         ∧ Forall2 (λ sec s, ∃ curr_section, get_section_text sec = Ok curr_section
                                            ∧ title s = title curr_section)
             [sample_section] out.
Proof.
  assert (∃ out, get_json_summary ascii_only "openai/gpt-4" [sample_section] sample_quotes
                   ∅ ∅ false = Ok out) as [out E] by (eexists; vm_compute; reflexivity).
  exists out. split; [exact E|]. exact (get_json_summary_sections_in_order _ _ _ _ _ _ _ _ E).
Defined.

Lemma tldr_note_counts_citations_witness :
  ∃ out, get_json_summary ascii_only "openai/gpt-4" [sample_section] sample_quotes ∅ ∅ false
         = Ok out
         ∧ Forall2 (λ sec s, ∃ curr_section t,
                      get_section_text sec = Ok curr_section ∧ tldr curr_section = Some t
                      ∧ tldr s = Some (if is_empty t then t
                                       else t +:+ sources_note (length (citations s))))
             [sample_section] out.
Proof.
  assert (∃ out, get_json_summary ascii_only "openai/gpt-4" [sample_section] sample_quotes
                   ∅ ∅ false = Ok out) as [out E] by (eexists; vm_compute; reflexivity).
  exists out. split; [exact E|]. exact (tldr_note_counts_citations _ _ _ _ _ _ _ _ E).
Defined.

(** ** A paper is cited once in a section *)

Section Once.
Variable anyascii : string → string.
Variable summary_quotes : dict QuoteRecord.
Variable inline_citation_quotes : dict string.
Variable id_to_main_key : dict string.
Variable id_to_inline_key : dict string.
Variable paper_metadata : gmap string (dict pyval).
Variable inline_tags : bool.

Lemma cite_all_once references st st' :
  cite_all anyascii summary_quotes inline_citation_quotes id_to_main_key id_to_inline_key
    paper_metadata inline_tags st references = Ok st' →
  NoDup (cited_id anyascii <$> ls_refs_list st) →
  (∀ r, r ∈ ls_refs_list st → cited_id anyascii r ∈ ls_refs_done st) →
  NoDup (cited_id anyascii <$> ls_refs_list st')
  ∧ (length (ls_refs_list st') ≤ length (ls_refs_list st) + length references)%nat.
Proof.
  revert st. induction references as [|ref references IH]; intros st; cbn [cite_all].
  - intros [= <-] ? _. split; [done|lia].
  - destruct (cite _ _ _ _ _ _ _ st ref) as [st1|] eqn:H1; [|done]. cbn [bind].
    intros H Hnd Hdone.
    apply cite_rounds in H1
      as [(E1 & E2 & _)|(key & src & cid & ? & ? & ? & ? & r & _ & _ & Hnew & Hr & _ & E1 & E2 & _)].
    + destruct (IH _ H) as [? Hlen]; [by rewrite E1|by rewrite E1, E2|].
      split; [done|]. rewrite E1 in Hlen. cbn [length]. lia.
    + destruct (IH _ H) as [? Hlen].
      * rewrite E1, fmap_app. apply NoDup_app. split_and!; [done| |apply NoDup_singleton].
        intros n Hn ->%list_elem_of_singleton.
        apply list_elem_of_fmap in Hn as (r' & Hx & Hr').
        apply Hnew. rewrite <- Hr. change (cited_id anyascii r ∈ ls_refs_done st).
        rewrite Hx. by apply Hdone.
      * rewrite E1, E2. intros r' [Hr'|Hr']%elem_of_app.
        -- apply elem_of_union_r. by apply Hdone.
        -- apply list_elem_of_singleton in Hr' as ->.
           apply elem_of_union_l, elem_of_singleton. unfold cited_id. by rewrite Hr.
      * split; [done|]. rewrite E1, List.length_app in Hlen. cbn [length] in *. lia.
Qed.
End Once.

(** X6: within a section of the answer no two citation records are
    for the same normalized corpus id. *)
Theorem citations_once_per_section anyascii llm_model summary_sections summary_quotes
    paper_metadata citation_ids inline_tags out :
  get_json_summary anyascii llm_model summary_sections summary_quotes paper_metadata
    citation_ids inline_tags = Ok out →
  Forall (λ s, NoDup (cited_id anyascii <$> citations s)) out.
Proof.
  intros (sq & icq & im & ii & fmt & H)%get_json_summary_each.
  induction H as [|sec s secs out (ids1 & ids2 & Hs) _ IH]; constructor; [|done].
  apply assemble_section_parts in Hs as (cs & t & st & refs & _ & _ & Hc & _ & _ & _ & ->).
  apply cite_all_once in Hc as [? _]; [done|constructor|].
  intros r Hr. by apply not_elem_of_nil in Hr.
Qed.

Lemma citations_once_per_section_witness :
  ∃ out, get_json_summary ascii_only "openai/gpt-4"
           ["Intro TLDR: this is a summary" +:+ nl
            +:+ "As shown in [123] and again in [arXiv:123]."]
           sample_quotes ∅ ∅ false = Ok out
         ∧ Forall (λ s, NoDup (cited_id ascii_only <$> citations s)) out.
Proof.
  assert (∃ out, get_json_summary ascii_only "openai/gpt-4"
                   ["Intro TLDR: this is a summary" +:+ nl
                    +:+ "As shown in [123] and again in [arXiv:123]."]
                   sample_quotes ∅ ∅ false = Ok out)
    as [out E] by (eexists; vm_compute; reflexivity).
  exists out. split; [exact E|]. exact (citations_once_per_section _ _ _ _ _ _ _ _ E).
Defined.

(** ** Runs of spaces *)

Lemma rep_greedy_always {R} cls (f : string → R) prev s :
  rep_greedy cls (λ _ t, Some (f t)) 0 prev s = Some (f (after_run cls s)).
Proof.
  revert prev. induction s as [|c s IH]; intros prev; [done|].
  cbn [rep_greedy pred]. unfold after_run. cbn [run_of]. destruct (cls c); [|done].
  rewrite IH. done.
Qed.

Lemma after_run_length cls s : (String.length (after_run cls s) ≤ String.length s)%nat.
Proof. unfold after_run. rewrite drop_length. lia. Qed.

Lemma after_run_head cls s : head_in cls (after_run cls s) = false.
Proof. apply run_of_split. Qed.

Lemma no_double_space_cons c out :
  (is_blank c = true → head_in is_blank out = false) →
  cut "  " out = None → cut "  " (String c out) = None.
Proof.
  intros Hc Hout. cbn [cut after_prefix]. rewrite Hout.
  change (ascii_eqb " " c) with (is_blank c).
  destruct (is_blank c) eqn:E; [|done].
  specialize (Hc eq_refl). destruct out as [|d out]; [done|].
  cbn [head_in] in Hc. change (ascii_eqb " " d) with (is_blank d). by rewrite Hc.
Qed.

Lemma squeeze_spaces n prev s :
  (String.length s < n)%nat →
  cut "  " (sub_from n [Rep is_blank 1 true] (λ _, " ") prev s) = None
  ∧ (head_in is_blank s = false →
     head_in is_blank (sub_from n [Rep is_blank 1 true] (λ _, " ") prev s) = false).
Proof.
  revert prev s. induction n as [|n IH]; intros prev s Hn; [lia|].
  cbn [sub_from match_here].
  destruct s as [|c s]; [done|]. cbn [rep_greedy pred]. cbn [String.length] in Hn.
  destruct (is_blank c) eqn:Hc.
  - rewrite (rep_greedy_always is_blank (λ t, (None, t))).
    pose proof (after_run_length is_blank s) as Hlen.
    assert ((String.length (after_run is_blank s) <? String.length (String c s))%nat = true) as ->.
    { cbn [String.length]. apply Nat.ltb_lt. lia. }
    destruct (IH (last_consumed (String.length (String c s) - String.length (after_run is_blank s))
                    (String c s) prev) (after_run is_blank s)) as [H1 H2]; [lia|].
    split; [|cbn [head_in]; by rewrite Hc]. rewrite app_cons, app_empty_l.
    apply no_double_space_cons; [|done].
    intros _. apply H2, after_run_head.
  - destruct (IH (Some c) s) as [H1 H2]; [lia|]. split; [|by cbn [head_in]].
    apply no_double_space_cons; [|done]. by rewrite Hc.
Qed.

(** X7: the text of an answered section has no two consecutive
    spaces. *)
Theorem section_text_single_spaced anyascii llm_model summary_sections summary_quotes
    paper_metadata citation_ids inline_tags out :
  get_json_summary anyascii llm_model summary_sections summary_quotes paper_metadata
    citation_ids inline_tags = Ok out →
  Forall (λ s, contains (text s) "  " = false) out.
Proof.
  intros (sq & icq & im & ii & fmt & H)%get_json_summary_each.
  induction H as [|sec s secs out (ids1 & ids2 & Hs) _ IH]; constructor; [|done].
  apply assemble_section_parts in Hs as (cs & t & st & refs & _ & _ & _ & _ & _ & -> & _).
  unfold contains, re_sub. change (ascii_eqb " ") with is_blank.
  by rewrite (proj1 (squeeze_spaces _ None (ls_text st) (Nat.lt_succ_diag_r _))).
Qed.

Lemma section_text_single_spaced_witness :
  ∃ out, get_json_summary ascii_only "openai/gpt-4"
           ["Notes TLDR: a summary" +:+ nl +:+ "Seen [ab]   twice [cd] ."] [] ∅ ∅ false
         = Ok out
         ∧ Forall (λ s, contains (text s) "  " = false) out.
Proof.
  assert (∃ out, get_json_summary ascii_only "openai/gpt-4"
                   ["Notes TLDR: a summary" +:+ nl +:+ "Seen [ab]   twice [cd] ."] [] ∅ ∅ false
                 = Ok out) as [out E] by (eexists; vm_compute; reflexivity).
  exists out. split; [exact E|]. exact (section_text_single_spaced _ _ _ _ _ _ _ _ E).
Defined.

(** ** Tokens resolve within their pool *)

Lemma dict_get_set {V} (d : dict V) k k' v :
  dict_get (dict_set d k' v) k = if String.eqb k k' then Some v else dict_get d k.
Proof.
  induction d as [|[k0 v0] d IH]; cbn [dict_set dict_get]; [done|].
  destruct (String.eqb k' k0) eqn:E0; cbn [dict_get].
  - apply String.eqb_eq in E0 as ->. by destruct (String.eqb k k0).
  - destruct (String.eqb k k0) eqn:E1; [|done].
    apply String.eqb_eq in E1 as ->. destruct (String.eqb k0 k') eqn:E2; [|done].
    apply String.eqb_eq in E2 as ->. by rewrite String.eqb_refl in E0.
Qed.

Lemma dict_of_get_in {V} (items : list (string * V)) k v :
  dict_get (dict_of items) k = Some v → (k, v) ∈ items.
Proof.
  unfold dict_of.
  assert (∀ d0, dict_get (fold_left (λ d kv, dict_set d kv.1 kv.2) items d0) k = Some v →
                (k, v) ∈ items ∨ dict_get d0 k = Some v) as H.
  { induction items as [|[k1 v1] items IH]; intros d0; cbn [fold_left]; [by right|].
    intros [Hin|Hd]%IH; [left; by right|]. cbn [fst snd] in Hd. rewrite dict_get_set in Hd.
    destruct (String.eqb k k1) eqn:E; [|by right].
    apply String.eqb_eq in E as ->. injection Hd as ->. left. by left. }
  intros [?|?]%H; done.
Qed.

Lemma id_to_key_in anyascii keys norm key :
  dict_get (id_to_key anyascii keys) norm = Some key → key ∈ keys.
Proof.
  intros H%dict_of_get_in. apply list_elem_of_fmap in H as (k & [= _ ->] & Hk). done.
Qed.

Lemma dict_has_keys {V} (d : dict V) k : k ∈ dict_keys d → dict_has d k = true.
Proof. intros [v Hv]%dict_get_keys. unfold dict_has. by rewrite Hv. Qed.

Lemma resolve_token_pool anyascii (summary_quotes : dict QuoteRecord)
    (inline_citation_quotes : dict string) ref key src :
  resolve_token anyascii summary_quotes inline_citation_quotes
    (id_to_key anyascii (dict_keys summary_quotes))
    (id_to_key anyascii (dict_keys inline_citation_quotes)) ref = Some (key, src) →
  match src with
  | main => dict_has summary_quotes key = true
  | inline => dict_has inline_citation_quotes key = true
  end.
Proof.
  unfold resolve_token.
  destruct (dict_has summary_quotes ref) eqn:Hm; cbn [orb].
  { by intros [= <- <-]. }
  destruct (dict_has inline_citation_quotes ref) eqn:Hi.
  { by intros [= <- <-]. }
  set (norm := normalize_id _ _). clearbody norm.
  destruct (dict_get (id_to_key _ (dict_keys summary_quotes)) norm) as [k|] eqn:E1.
  { intros [= <- <-]. by apply dict_has_keys, (id_to_key_in anyascii _ norm). }
  destruct (dict_get (id_to_key _ (dict_keys inline_citation_quotes)) norm) as [k|] eqn:E2.
  { intros [= <- <-]. by apply dict_has_keys, (id_to_key_in anyascii _ norm). }
  set (mc := if is_empty norm then [] else _). set (ic := if is_empty norm then [] else _).
  clearbody mc ic.
  assert (∀ k, (λ key0, (key0, main)) <$> dict_get (id_to_key anyascii (dict_keys summary_quotes)) k
               = Some (key, src) → src = main ∧ dict_has summary_quotes key = true) as Hmain.
  { intros k. destruct (dict_get _ k) as [k'|] eqn:E; [|done]. intros [= <- <-].
    split; [done|]. by apply dict_has_keys, (id_to_key_in anyascii _ k). }
  assert (∀ k, (λ key0, (key0, inline)) <$> dict_get (id_to_key anyascii (dict_keys inline_citation_quotes)) k
               = Some (key, src) → src = inline ∧ dict_has inline_citation_quotes key = true)
    as Hinline.
  { intros k. destruct (dict_get _ k) as [k'|] eqn:E; [|done]. intros [= <- <-].
    split; [done|]. by apply dict_has_keys, (id_to_key_in anyascii _ k). }
  destruct mc as [|k1 [|k2 mc]]; destruct ic as [|k3 [|k4 ic]]; try done;
    first [intros [-> ?]%Hmain; done | intros [-> ?]%Hinline; done].
Qed.

(** X8: with the id maps built from the two pools, a token resolves
    to a key of the pool named as its source. *)
Theorem resolve_token_in_pool anyascii (summary_quotes : dict QuoteRecord)
    (inline_citation_quotes : dict string) ref key src :
  resolve_token anyascii summary_quotes inline_citation_quotes
    (id_to_key anyascii (dict_keys summary_quotes))
    (id_to_key anyascii (dict_keys inline_citation_quotes)) ref = Some (key, src) →
  match src with
  | main => dict_has summary_quotes key = true
  | inline => dict_has inline_citation_quotes key = true
  end.
Proof. apply resolve_token_pool. Qed.

Lemma resolve_token_in_pool_witness : dict_has sample_quotes "[123 | Smith | 2020 | Citations: 5]" = true.
Proof.
  apply (resolve_token_in_pool ascii_only sample_quotes [] "[arXiv:123]"
           "[123 | Smith | 2020 | Citations: 5]" main).
  reflexivity.
Defined.

(** ** Keys that share a normalized id *)

Lemma dict_of_app {V} (l1 l2 : list (string * V)) :
  dict_of (l1 ++ l2) = fold_left (λ d kv, dict_set d kv.1 kv.2) l2 (dict_of l1).
Proof. unfold dict_of. by rewrite fold_left_app. Qed.

Lemma fold_set_other {V} (items : list (string * V)) acc k :
  k ∉ items.*1 → dict_get (fold_left (λ d kv, dict_set d kv.1 kv.2) items acc) k = dict_get acc k.
Proof.
  revert acc. induction items as [|[k1 v1] items IH]; intros acc; [done|]. csimpl.
  intros [Hk Hitems]%not_elem_of_cons. rewrite IH by done. rewrite dict_get_set.
  destruct (String.eqb k k1) eqn:E; [|done]. by apply String.eqb_eq in E.
Qed.

Lemma dict_of_last {V} (items items' : list (string * V)) k v :
  k ∉ items'.*1 → dict_get (dict_of (items ++ (k, v) :: items')) k = Some v.
Proof.
  intros Hk. rewrite dict_of_app. cbn [fold_left fst snd]. rewrite fold_set_other by done.
  by rewrite dict_get_set, String.eqb_refl.
Qed.

(** X9: when several keys have the same normalized id, the id is
    mapped to the last of them. *)
Theorem id_to_key_last_wins anyascii before k after :
  (∀ k', k' ∈ after → key_to_norm_id anyascii k' ≠ key_to_norm_id anyascii k) →
  dict_get (id_to_key anyascii (before ++ k :: after)) (key_to_norm_id anyascii k) = Some k.
Proof.
  intros Hafter. unfold id_to_key. rewrite fmap_app, fmap_cons. apply dict_of_last.
  rewrite <- list_fmap_compose. intros (k' & Hn & Hk')%list_elem_of_fmap.
  by apply (Hafter k').
Qed.

Lemma id_to_key_last_wins_witness :
  dict_get (id_to_key ascii_only ([ "[123 | Smith | 2020]" ] ++ "[arXiv:123 | Doe | 2021]" :: []))
    (key_to_norm_id ascii_only "[arXiv:123 | Doe | 2021]")
  = Some "[arXiv:123 | Doe | 2021]".
Proof.
  apply id_to_key_last_wins. intros k' Hk'. by apply not_elem_of_nil in Hk'.
Defined.

Lemma dict_of_has {V} (items : list (string * V)) k :
  k ∈ items.*1 → is_Some (dict_get (dict_of items) k).
Proof.
  unfold dict_of.
  assert (∀ acc, k ∈ items.*1 ∨ is_Some (dict_get acc k) →
                 is_Some (dict_get (fold_left (λ d kv, dict_set d kv.1 kv.2) items acc) k)) as H.
  { induction items as [|[k1 v1] items IH]; intros acc; csimpl.
    - intros [?%not_elem_of_nil|?]; done.
    - intros Hk. apply IH. rewrite dict_get_set.
      destruct (String.eqb k k1) eqn:E; [by right|].
      apply String.eqb_neq in E. destruct Hk as [[?|?]%elem_of_cons|?]; [done|by left|by right]. }
  intros Hk. apply H. by left.
Qed.

Lemma id_to_key_some anyascii keys k :
  k ∈ keys →
  ∃ k', dict_get (id_to_key anyascii keys) (key_to_norm_id anyascii k) = Some k'
        ∧ k' ∈ keys ∧ key_to_norm_id anyascii k' = key_to_norm_id anyascii k.
Proof.
  intros Hk. destruct (dict_of_has ((λ k, (key_to_norm_id anyascii k, k)) <$> keys)
                         (key_to_norm_id anyascii k)) as [k' Hk'].
  { rewrite <- list_fmap_compose. apply list_elem_of_fmap. by exists k. }
  exists k'. split; [done|]. apply dict_of_get_in in Hk'.
  apply list_elem_of_fmap in Hk' as (k0 & [= -> ->] & Hk0). done.
Qed.

(** X10: a token that is no key itself but whose normalized id is the
    normalized id of a key of the main pool resolves to a key of the
    main pool with that normalized id. *)
Theorem direct_id_match anyascii (summary_quotes : dict QuoteRecord)
    (inline_citation_quotes : dict string) ref k :
  dict_has summary_quotes ref = false →
  dict_has inline_citation_quotes ref = false →
  k ∈ dict_keys summary_quotes →
  key_to_norm_id anyascii k = normalize_id anyascii (Some (ref_id_token ref)) →
  ∃ k', resolve_token anyascii summary_quotes inline_citation_quotes
          (id_to_key anyascii (dict_keys summary_quotes))
          (id_to_key anyascii (dict_keys inline_citation_quotes)) ref = Some (k', main)
        ∧ k' ∈ dict_keys summary_quotes
        ∧ key_to_norm_id anyascii k' = key_to_norm_id anyascii k.
Proof.
  intros Hm Hi Hk Hnorm. destruct (id_to_key_some anyascii _ _ Hk) as (k' & Hget & Hk' & Hn).
  exists k'. split; [|done]. unfold resolve_token. rewrite Hm, Hi. cbn [orb].
  by rewrite <- Hnorm, Hget.
Qed.

Lemma direct_id_match_witness :
  ∃ k', resolve_token ascii_only sample_quotes []
          (id_to_key ascii_only (dict_keys sample_quotes)) (id_to_key ascii_only [])
          "[arXiv:123]" = Some (k', main)
        ∧ k' ∈ dict_keys sample_quotes
        ∧ key_to_norm_id ascii_only k'
          = key_to_norm_id ascii_only "[123 | Smith | 2020 | Citations: 5]".
Proof.
  apply (direct_id_match ascii_only sample_quotes [] "[arXiv:123]"
           "[123 | Smith | 2020 | Citations: 5]"); [reflexivity|reflexivity| |reflexivity].
  apply list_elem_of_singleton. reflexivity.
Defined.

(** ** Contiguous parts of a text *)

Lemma is_part_refl s : is_part s s.
Proof. exists "", "". by rewrite app_empty_l, app_empty_r. Qed.

Lemma is_part_trans s t u : is_part s t → is_part t u → is_part s u.
Proof.
  intros (a & b & ->) (a' & b' & ->). exists (a' +:+ a), (b +:+ b').
  by rewrite !app_assoc_s.
Qed.

Lemma is_part_suffix a s : is_part s (a +:+ s).
Proof. exists a, "". by rewrite app_empty_r. Qed.

Lemma is_part_prefix s b : is_part s (s +:+ b).
Proof. by exists "", b. Qed.

Lemma lstrip_suffix p s : ∃ a, s = a +:+ lstrip p s.
Proof.
  induction s as [|c s [a IH]]; [by exists ""|]. cbn [lstrip].
  destruct (p c); [|by exists ""]. exists (String c a). by rewrite app_cons, <- IH.
Qed.

Lemma rstrip_prefix p s : ∃ b, s = rstrip p s +:+ b.
Proof.
  induction s as [|c s [b IH]]; [by exists ""|]. cbn [rstrip].
  destruct (is_empty (rstrip p s) && p c); [by exists (String c s)|].
  exists b. by rewrite app_cons, <- IH.
Qed.

Lemma drop_suffix n s : ∃ a, s = a +:+ drop_chars n s.
Proof.
  revert s. induction n as [|n IH]; intros s; [by exists ""|].
  destruct s as [|c s]; [by exists ""|]. cbn [drop_chars].
  destruct (IH s) as [a Ha]. exists (String c a). by rewrite app_cons, <- Ha.
Qed.

Lemma take_prefix n s : ∃ b, s = take_chars n s +:+ b.
Proof.
  revert s. induction n as [|n IH]; intros s; [by exists s|].
  destruct s as [|c s]; [by exists ""|]. cbn [take_chars].
  destruct (IH s) as [b Hb]. exists b. by rewrite app_cons, <- Hb.
Qed.

Lemma lstrip_part p s : is_part (lstrip p s) s.
Proof. destruct (lstrip_suffix p s) as [a Ha]. rewrite Ha at 2. apply is_part_suffix. Qed.

Lemma rstrip_part p s : is_part (rstrip p s) s.
Proof. destruct (rstrip_prefix p s) as [b Hb]. rewrite Hb at 2. apply is_part_prefix. Qed.

Lemma drop_part n s : is_part (drop_chars n s) s.
Proof. destruct (drop_suffix n s) as [a Ha]. rewrite Ha at 2. apply is_part_suffix. Qed.

Lemma take_part n s : is_part (take_chars n s) s.
Proof. destruct (take_prefix n s) as [b Hb]. rewrite Hb at 2. apply is_part_prefix. Qed.

Lemma strip_chars_part p s : is_part (strip_chars p s) s.
Proof. eapply is_part_trans; [apply lstrip_part|apply rstrip_part]. Qed.

(** ** The ends of a normalized identifier *)

(** X11: a normalized id is a contiguous part of the transliterated
    token, does not start with an opening bracket and does not end with
    a dot, comma, semicolon, colon, space or closing bracket. *)
Theorem normalize_id_ends anyascii id_token :
  is_part (normalize_id anyascii (Some id_token)) (anyascii id_token)
  ∧ lstrip (char_in "[") (normalize_id anyascii (Some id_token))
    = normalize_id anyascii (Some id_token)
  ∧ rstrip (char_in ".,;: ]") (normalize_id anyascii (Some id_token))
    = normalize_id anyascii (Some id_token).
Proof.
  unfold normalize_id. split_and!.
  - eapply is_part_trans; [apply lstrip_part|].
    eapply is_part_trans; [apply rstrip_part|].
    eapply is_part_trans; [|apply (strip_chars_part is_space)].
    fold (strip (anyascii id_token)). generalize (strip (anyascii id_token)) as norm.
    unfold id_labels. cbn [fold_left]. intros norm.
    repeat match goal with
           | |- context [if startswith ?s ?p then _ else _] =>
               destruct (startswith s p)
           end;
      repeat (first [apply is_part_refl | eapply is_part_trans; [apply drop_part|]]).
  - apply lstrip_lstrip.
  - apply rstrip_lstrip_fixed, rstrip_rstrip.
Qed.

(** ** The bracketed references of a section *)

Lemma rep_lazy_shortest {R} cls (k : option ascii → string → option R) (stop : ascii → bool)
    prev s r :
  (∀ q c t, stop c = true → k q (String c t) ≠ None) →
  rep_lazy cls k 0 prev s = Some r →
  ∃ m q s', s = m +:+ s' ∧ all_chars (λ c, cls c && negb (stop c)) m = true ∧ k q s' = Some r.
Proof.
  intros Hstop. revert prev. induction s as [|c s IH]; intros prev; cbn [rep_lazy pred].
  - destruct (k prev "") as [r'|] eqn:E; [|done]. intros [= <-]. by exists "", prev, "".
  - destruct (k prev (String c s)) as [r'|] eqn:E.
    + intros [= <-]. by exists "", prev, (String c s).
    + destruct (cls c) eqn:Hc; [|done].
      intros (m & q & s' & -> & Hm & Hk)%IH. exists (String c m), q, s'.
      split; [done|]. split; [|done]. cbn [all_chars]. rewrite Hc, Hm.
      destruct (stop c) eqn:Hs; [|done]. by destruct (Hstop prev c (m +:+ s') Hs).
Qed.

Lemma bracket_span_match g prev s g' rest :
  match_here bracket_span g prev s = Some (g', rest) →
  ∃ body, s = "[" +:+ body +:+ "]" +:+ rest ∧ all_chars inner_char body = true.
Proof.
  unfold bracket_span. cbn [match_here]. destruct (after_prefix "[" s) as [s1|] eqn:E; [|done].
  apply after_prefix_spec in E as ->.
  intros (m & q & s' & -> & Hm & Hk)%(rep_lazy_shortest _ _ (λ c, ascii_eqb c "]")).
  - destruct (after_prefix "]" s') as [s2|] eqn:E; [|done].
    apply after_prefix_spec in E as ->. injection Hk as _ <-. exists m.
    split; [by rewrite ?app_assoc_s|done].
  - intros q c t ->%ascii_eqb_eq. done.
Qed.

Lemma findall_bracket_span n prev s x :
  x ∈ findall_from n bracket_span prev s →
  ∃ body, x = "[" +:+ body +:+ "]" ∧ all_chars inner_char body = true ∧ is_part x s.
Proof.
  revert prev s. induction n as [|n IH]; intros prev s; cbn [findall_from].
  { by intros ?%not_elem_of_nil. }
  assert (x ∈ match s with
              | "" => []
              | String c s' => findall_from n bracket_span (Some c) s'
              end →
          ∃ body, x = "[" +:+ body +:+ "]" ∧ all_chars inner_char body = true ∧ is_part x s)
    as Hskip.
  { destruct s as [|c s]; [by intros ?%not_elem_of_nil|].
    intros (body & -> & Hb & Hp)%IH. exists body. split_and!; [done..|].
    eapply is_part_trans; [exact Hp|]. apply (is_part_suffix (String c "")). }
  destruct (match_here bracket_span None prev s) as [[g rest]|] eqn:E; [|done].
  destruct (String.length rest <? String.length s)%nat; [|done].
  apply bracket_span_match in E as (body & -> & Hb).
  intros [->|Hx]%elem_of_cons.
  - exists body. replace ("[" +:+ body +:+ "]" +:+ rest) with (("[" +:+ body +:+ "]") +:+ rest)
      by (by rewrite !app_assoc_s).
    rewrite consumed_app. split_and!; [done..|]. apply is_part_prefix.
  - apply IH in Hx as (body' & -> & Hb' & Hp). exists body'. split_and!; [done..|].
    eapply is_part_trans; [exact Hp|].
    replace ("[" +:+ body +:+ "]" +:+ rest) with (("[" +:+ body +:+ "]") +:+ rest)
      by (by rewrite !app_assoc_s).
    apply is_part_suffix.
Qed.

(** X12: every reference [re.findall] returns for the pattern of
    line 262 is a part of the text of the form [[body]], where the body
    has no line break and no closing bracket. *)
Theorem references_are_bracketed text ref :
  ref ∈ re_findall bracket_span text →
  ∃ body, ref = "[" +:+ body +:+ "]" ∧ all_chars inner_char body = true ∧ is_part ref text.
Proof. apply findall_bracket_span. Qed.

Lemma references_are_bracketed_witness :
  ∃ body, "[a[ab]" = "[" +:+ body +:+ "]" ∧ all_chars inner_char body = true
          ∧ is_part "[a[ab]" "[ab] [a[ab]b]".
Proof.
  apply references_are_bracketed. vm_compute. apply elem_of_cons. right. by left.
Defined.

(** ** Metadata with a missing field *)

(** X13: [pop_ref_data] raises exactly when the metadata is not empty
    and lacks one of the fields title, authors, venue, citationCount;
    the error is the [KeyError] of the first of them that is missing. *)
Theorem pop_ref_data_errors ref_str_id ref_corpus_id fixed_quote curr_paper_metadata e :
  pop_ref_data ref_str_id ref_corpus_id fixed_quote curr_paper_metadata = Raise e
  ↔ ∃ m k, curr_paper_metadata = Some m ∧ m ≠ [] ∧ e = KeyError k
           ∧ List.find (λ k, negb (dict_has m k)) required_metadata = Some k.
Proof.
  unfold pop_ref_data. destruct curr_paper_metadata as [[|kv m]|].
  - split; [done|]. by intros (? & ? & [= <-] & ? & _).
  - assert (kv :: m ≠ []) as Hne by done. revert Hne. generalize (kv :: m) as d. intros d Hne.
    unfold required_metadata, getitem, dict_has. cbn [List.find].
    destruct (dict_get d "title") eqn:E1; cbn [bind];
      [destruct (dict_get d "authors") eqn:E2; cbn [bind];
       [destruct (dict_get d "venue") eqn:E3; cbn [bind];
        [destruct (dict_get d "citationCount") eqn:E4; cbn [bind]|]|]|].
    1:{ split; [done|]. intros (m0 & k & [= <-] & _ & _ & Hf).
        by rewrite E1, E2, E3, E4 in Hf. }
    all: split;
      [intros [= <-]; eexists d, _; rewrite ?E1, ?E2, ?E3, ?E4; done
      |intros (m0 & k & [= <-] & _ & -> & Hf); rewrite ?E1, ?E2, ?E3, ?E4 in Hf;
       by injection Hf as <-].
  - split; [done|]. by intros (? & ? & ? & _).
Qed.

Lemma pop_ref_data_raises ref_str_id ref_corpus_id fixed_quote curr_paper_metadata e :
  pop_ref_data ref_str_id ref_corpus_id fixed_quote curr_paper_metadata = Raise e →
  ∃ k, k ∈ required_metadata ∧ e = KeyError k.
Proof.
  unfold pop_ref_data, required_metadata, getitem. destruct curr_paper_metadata as [[|kv m]|]; try done.
  set (d := kv :: m).
  destruct (dict_get d "title"); cbn [bind]; [|intros [= <-]; eexists; split; [|done]; set_solver].
  destruct (dict_get d "authors"); cbn [bind]; [|intros [= <-]; eexists; split; [|done]; set_solver].
  destruct (dict_get d "venue"); cbn [bind]; [|intros [= <-]; eexists; split; [|done]; set_solver].
  destruct (dict_get d "citationCount"); cbn [bind]; [|intros [= <-]; eexists; split; [|done]; set_solver].
  done.
Qed.

(** ** What the assembler can raise *)


Lemma item_raises {A} (xs : list A) i e : item xs i = Raise e → e = IndexError.
Proof. unfold item. destruct (xs !! i); [done|]. by intros [= <-]. Qed.

Lemma get_section_text_raises gen_text e :
  get_section_text gen_text = Raise e →
  e = IndexError ∨ e = Exception_ "Invalid content generated for the query by the LLM".
Proof.
  unfold get_section_text. destruct (1 <? length _)%nat; [|intros [= <-]; by right].
  destruct (item _ 0) eqn:E0; cbn [bind]; [|intros [= <-]; left; by eapply item_raises].
  destruct (find_tldr_super_token gen_text).
  - destruct (item _ 1) eqn:E1; cbn [bind]; [|intros [= <-]; left; by eapply item_raises].
    destruct (item (split_max _ _ _) 0) eqn:E2; cbn [bind];
      [|intros [= <-]; left; by eapply item_raises].
    destruct (item (split_max _ _ _) 1) eqn:E3; cbn [bind];
      [|intros [= <-]; left; by eapply item_raises].
    done.
  - destruct (item _ 1) eqn:E1; cbn [bind]; [|intros [= <-]; left; by eapply item_raises].
    done.
Qed.

Lemma get_section_text_has_tldr gen_text curr_section :
  get_section_text gen_text = Ok curr_section → is_Some (tldr curr_section).
Proof.
  unfold get_section_text.
  destruct (find_tldr_super_token gen_text); cbn [length].
  - destruct (1 <? length _)%nat; [|done].
    destruct (item _ 0); cbn [bind]; [|done]. destruct (item _ 1); cbn [bind]; [|done].
    destruct (item (split_max _ _ _) 0); cbn [bind]; [|done].
    destruct (item (split_max _ _ _) 1); cbn [bind]; [|done].
    by intros [= <-].
  - done.
Qed.

Section Errors.
Variable anyascii : string → string.
Variable summary_quotes : dict QuoteRecord.
Variable inline_citation_quotes : dict string.
Variable paper_metadata : gmap string (dict pyval).
Variable inline_tags : bool.

Lemma cite_raises st ref e :
  cite anyascii summary_quotes inline_citation_quotes
    (id_to_key anyascii (dict_keys summary_quotes))
    (id_to_key anyascii (dict_keys inline_citation_quotes))
    paper_metadata inline_tags st ref = Raise e →
  assembler_error e.
Proof.
  unfold cite.
  destruct (resolve_token _ _ _ _ _ _) as [[[|c key] src]|] eqn:Hres; try done.
  apply resolve_token_pool in Hres.
  destruct (item _ 0) eqn:E0; cbn [bind]; [|intros [= <-]; left; by eapply item_raises].
  destruct (item _ 1) eqn:E1; cbn [bind]; [|intros [= <-]; left; by eapply item_raises].
  destruct (item _ 2) eqn:E2; cbn [bind]; [|intros [= <-]; left; by eapply item_raises].
  destruct (decide (_ ∈ _)); [done|].
  match goal with |- bind ?q _ = _ → _ => assert (∃ fq, q = Ok fq) as [fq ->] end.
  { unfold getitem, dict_has in *. destruct src.
    - destruct (dict_get summary_quotes _); [|done]. by eexists.
    - destruct (dict_get inline_citation_quotes _); [|done]. by eexists. }
  cbn [bind]. destruct (resolve_ref_id _ _ _) as [l ids'].
  destruct (pop_ref_data _ _ _ _) eqn:Hpop; cbn [bind]; [done|].
  intros [= <-]. right. right. by eapply pop_ref_data_raises.
Qed.

Lemma cite_all_raises references st e :
  cite_all anyascii summary_quotes inline_citation_quotes
    (id_to_key anyascii (dict_keys summary_quotes))
    (id_to_key anyascii (dict_keys inline_citation_quotes))
    paper_metadata inline_tags st references = Raise e →
  assembler_error e.
Proof.
  revert st. induction references as [|ref references IH]; intros st; cbn [cite_all]; [done|].
  destruct (cite _ _ _ _ _ _ _ st ref) eqn:H1; cbn [bind]; [apply IH|].
  intros [= <-]. by eapply cite_raises.
Qed.

Lemma assemble_sections_raises llm_ref_format summary_sections citation_ids e :
  assemble_sections anyascii summary_quotes inline_citation_quotes
    (id_to_key anyascii (dict_keys summary_quotes))
    (id_to_key anyascii (dict_keys inline_citation_quotes))
    paper_metadata inline_tags llm_ref_format summary_sections citation_ids = Raise e →
  assembler_error e.
Proof.
  revert citation_ids. induction summary_sections as [|sec rest IH]; intros ids;
    cbn [assemble_sections]; [done|].
  destruct (assemble_section _ _ _ _ _ _ _ _ sec ids) as [[s1 ids1]|] eqn:H1; cbn [bind snd].
  - destruct (assemble_sections _ _ _ _ _ _ _ _ rest ids1) as [[s2 ids2]|] eqn:H2; [done|].
    cbn [bind]. intros [= <-]. by eapply IH.
  - intros [= <-]. unfold assemble_section in H1.
    destruct (get_section_text sec) as [cs|] eqn:Hs; cbn [bind] in H1.
    2:{ injection H1 as <-. apply get_section_text_raises in Hs as [->| ->];
          [by left|right; by left]. }
    destruct (cite_all _ _ _ _ _ _ _ _ _) as [st|] eqn:Hc; cbn [bind] in H1.
    2:{ injection H1 as <-. by eapply cite_all_raises. }
    destruct (get_section_text_has_tldr _ _ Hs) as [t Ht]. by rewrite Ht in H1.
Qed.
End Errors.

(** X14: the only errors [get_json_summary] raises are [IndexError],
    the exception of the segmenter for a text without marker, and a
    [KeyError] for one of the metadata fields title, authors, venue and
    citationCount; a quote is never looked up under a key its pool does
    not have. *)
Theorem get_json_summary_errors anyascii llm_model summary_sections summary_quotes
    paper_metadata citation_ids inline_tags e :
  get_json_summary anyascii llm_model summary_sections summary_quotes paper_metadata
    citation_ids inline_tags = Raise e →
  assembler_error e.
Proof.
  unfold get_json_summary, get_json_summary_state.
  destruct (item _ 0) eqn:E0; cbn [bind]; [|intros [= <-]; left; by eapply item_raises].
  destruct (item _ 1) eqn:E1; cbn [bind]; [|intros [= <-]; left; by eapply item_raises].
  destruct (assemble_sections _ _ _ _ _ _ _ _ _ _) as [r|] eqn:H; cbn [bind]; [done|].
  intros [= <-]. by eapply assemble_sections_raises.
Qed.

Lemma get_json_summary_errors_witness : assembler_error (KeyError "title").
Proof.
  apply (get_json_summary_errors ascii_only "openai/gpt-4" [sample_section] sample_quotes
           {["123" := [("year", VInt 2020)]]} ∅ false).
  vm_compute. reflexivity.
Defined.

(** ** One malformed section fails the answer *)

Lemma assemble_sections_fail anyascii summary_quotes inline_citation_quotes id_to_main_key
    id_to_inline_key paper_metadata inline_tags llm_ref_format summary_sections citation_ids
    sec e :
  sec ∈ summary_sections → get_section_text sec = Raise e →
  ∃ e', assemble_sections anyascii summary_quotes inline_citation_quotes id_to_main_key
          id_to_inline_key paper_metadata inline_tags llm_ref_format summary_sections
          citation_ids = Raise e'.
Proof.
  intros Hin Hsec. revert citation_ids.
  induction summary_sections as [|sec0 rest IH]; intros ids; [by apply not_elem_of_nil in Hin|].
  cbn [assemble_sections].
  destruct (assemble_section _ _ _ _ _ _ _ _ sec0 ids) as [[s1 ids1]|] eqn:H1; cbn [bind snd];
    [|by eexists].
  apply elem_of_cons in Hin as [->|Hin].
  - unfold assemble_section in H1. by rewrite Hsec in H1.
  - destruct (IH Hin ids1) as [e' ->]. by eexists.
Qed.

(** X15: when the segmenter raises on one of the generated texts, the
    whole call raises: no partial answer is returned. *)
Theorem malformed_section_fails_answer anyascii llm_model summary_sections summary_quotes
    paper_metadata citation_ids inline_tags sec e :
  sec ∈ summary_sections → get_section_text sec = Raise e →
  ∃ e', get_json_summary anyascii llm_model summary_sections summary_quotes paper_metadata
          citation_ids inline_tags = Raise e'.
Proof.
  intros Hin Hsec. unfold get_json_summary, get_json_summary_state.
  destruct (item _ 0); cbn [bind]; [|by eexists].
  destruct (item _ 1); cbn [bind]; [|by eexists].
  edestruct assemble_sections_fail as [e' ->]; [done..|]. by eexists.
Qed.

Lemma malformed_section_fails_answer_witness :
  ∃ e', get_json_summary ascii_only "openai/gpt-4"
          [sample_section; "An answer without its summary line"] sample_quotes ∅ ∅ false
        = Raise e'.
Proof.
  apply (malformed_section_fails_answer ascii_only "openai/gpt-4"
           [sample_section; "An answer without its summary line"] sample_quotes ∅ ∅ false
           "An answer without its summary line"
           (Exception_ "Invalid content generated for the query by the LLM")).
  - apply elem_of_cons. right. apply elem_of_cons. by left.
  - vm_compute. reflexivity.
Defined.

(** ** The marker token is a word of the text *)

Lemma rep_greedy_some_run {R} cls (k : option ascii → string → option R) least prev s r :
  rep_greedy cls k least prev s = Some r →
  ∃ m prev' s', s = m +:+ s' ∧ all_chars cls m = true ∧ k prev' s' = Some r.
Proof.
  revert least prev. induction s as [|c s IH]; intros least prev; cbn [rep_greedy].
  - destruct least; [|done]. intros H. by exists "", prev, "".
  - assert (Hstop : match least with 0 => k prev (String c s) | S _ => None end = Some r →
                    ∃ m prev' s', String c s = m +:+ s' ∧ all_chars cls m = true
                                  ∧ k prev' s' = Some r).
    { destruct least; [|done]. intros H. by exists "", prev, (String c s). }
    destruct (cls c) eqn:Hc; [|done].
    destruct (rep_greedy cls k (pred least) (Some c) s) as [r'|] eqn:E; [|done].
    intros [= ->]. apply IH in E as (m & prev' & s' & -> & Hm & Hk).
    exists (String c m), prev', s'. split; [done|]. split; [|done].
    cbn [all_chars]. by rewrite Hc.
Qed.

Lemma after_prefix_ci_word_chars p s rest :
  after_prefix_ci p s = Some rest → all_chars is_word p = true →
  ∃ l, s = l +:+ rest ∧ all_chars is_word l = true.
Proof.
  revert s. induction p as [|a p IH]; intros s; cbn [after_prefix_ci all_chars].
  - intros [= ->] _. by exists "".
  - destruct s as [|b s]; [done|].
    destruct (ascii_eqb (lower a) (lower b)) eqn:E; [|done].
    intros H [Ha Hp]%andb_true_iff. destruct (IH _ H Hp) as (l & -> & Hl).
    exists (String b l). split; [done|]. cbn [all_chars].
    by rewrite (is_word_same_letter _ _ E Ha).
Qed.

Lemma tldr_word_chars g prev s g' rest :
  match_here tldr_word g prev s = Some (g', rest) →
  ∃ m, s = m +:+ rest ∧ all_chars is_word m = true.
Proof.
  unfold tldr_word. cbn [match_here]. destruct (xorb _ _); [|done].
  intros (m1 & q1 & s1 & -> & Hm1 & H)%rep_greedy_some_run.
  destruct (after_prefix_ci "tldr" s1) as [s2|] eqn:E; [|done].
  apply after_prefix_ci_word_chars in E as (l & -> & Hl); [|done].
  apply rep_greedy_some_run in H as (m2 & q2 & s3 & -> & Hm2 & H).
  destruct (xorb _ _); [|done]. injection H as _ ->.
  exists (m1 +:+ l +:+ m2). rewrite !app_assoc_s. split; [done|].
  by rewrite !all_chars_app, Hm1, Hl, Hm2.
Qed.

Lemma is_word_not_space c : is_word c = true → not_space c = true.
Proof. by destruct c as [[] [] [] [] [] [] [] []]. Qed.

Lemma all_chars_impl (p q : ascii → bool) s :
  (∀ c, p c = true → q c = true) → all_chars p s = true → all_chars q s = true.
Proof.
  intros Hpq. induction s as [|c s IH]; [done|]. cbn [all_chars].
  intros [Hc Hs]%andb_true_iff. by rewrite (Hpq _ Hc), IH.
Qed.

Lemma tldr_super_chars tldr_token g prev s g' rest :
  all_chars is_word tldr_token = true →
  match_here (tldr_super tldr_token) g prev s = Some (g', rest) →
  head_in not_space rest = false
  ∧ ∃ m, s = m +:+ rest ∧ all_chars not_space m = true.
Proof.
  intros Htok. unfold tldr_super. cbn [match_here].
  intros (m1 & q1 & s1 & -> & Hm1 & H)%rep_greedy_some_run.
  destruct (after_prefix_ci tldr_token s1) as [s2|] eqn:E; [|done].
  apply after_prefix_ci_word_chars in E as (l & -> & Hl); [|done].
  change (λ (_ : option ascii) (s : string), Some (g, s))
    with (λ (_ : option ascii) (t : string), Some ((λ t, (g, t)) t)) in H.
  rewrite rep_greedy_always in H. injection H as <- <-.
  split; [apply after_run_head|].
  exists (m1 +:+ l +:+ run_of not_space s2). rewrite !app_assoc_s.
  split; [by rewrite <- (proj1 (run_of_split not_space s2))|].
  rewrite !all_chars_app, Hm1, (proj1 (proj2 (run_of_split not_space s2))).
  by rewrite (all_chars_impl _ _ _ is_word_not_space Hl).
Qed.

Lemma search_from_not_before p prev s b c m rest :
  search_from p prev s = Some (b +:+ String c "", m, rest) →
  ∃ prev', match_here p None prev' (String c (m +:+ rest)) = None.
Proof.
  revert prev s. induction b as [|d b IH]; intros prev s.
  - rewrite app_empty_l. destruct s as [|c' s]; cbn [search_from].
    + by destruct (match_here p None prev "") as [[? ?]|].
    + destruct (match_here p None prev (String c' s)) as [[? ?]|] eqn:E; [done|].
      destruct (search_from p (Some c') s) as [[[b' m'] r']|] eqn:E'; [|done].
      intros [= -> -> -> ->]. apply search_from_some in E' as (-> & _). by exists prev.
  - rewrite app_cons. destruct s as [|c' s]; cbn [search_from].
    + by destruct (match_here p None prev "") as [[? ?]|].
    + destruct (match_here p None prev (String c' s)) as [[? ?]|] eqn:E; [done|].
      destruct (search_from p (Some c') s) as [[[b' m'] r']|] eqn:E'; [|done].
      intros [= -> -> -> ->]. by eapply IH.
Qed.

Lemma ends_blank_snoc b : ends_blank b = false → ∃ b' c, b = b' +:+ String c "" ∧ is_space c = false.
Proof.
  induction b as [|d b IH]; [done|]. cbn [ends_blank]. destruct b as [|e b].
  - intros H. by exists "", d.
  - intros (b' & c & -> & Hc)%IH. by exists (String d b'), c.
Qed.

Lemma tldr_super_leftmost tldr_token prev s b m rest :
  search_from (tldr_super tldr_token) prev s = Some (b, m, rest) → ends_blank b = true.
Proof.
  intros H. destruct (ends_blank b) eqn:Hb; [done|].
  apply ends_blank_snoc in Hb as (b' & c & -> & Hc).
  destruct (search_from_not_before _ _ _ _ _ _ _ H) as [q Hnot].
  apply search_from_some in H as (_ & _ & g & q' & Hm).
  unfold tldr_super in Hnot. cbn [match_here rep_greedy pred] in Hnot.
  unfold not_space in Hnot at 1. rewrite Hc in Hnot. cbn [negb] in Hnot.
  unfold tldr_super in Hm. cbn [match_here] in Hm.
  rewrite (rep_greedy_prev _ _ _ (Some c) q') in Hnot.
  - by rewrite Hm in Hnot.
  - intros q1 q2 t. by apply (match_here_prev [LitI tldr_token; Rep not_space 0 true]).
Qed.

Lemma head_in_app cls u v : u ≠ "" → head_in cls (u +:+ v) = head_in cls u.
Proof. by destruct u. Qed.

Lemma split_ws_word tok rest :
  tok ≠ "" → all_chars not_space tok = true → head_in not_space rest = false →
  split_ws (tok +:+ rest) = tok :: split_ws rest.
Proof.
  induction tok as [|c tok IH]; [done|]. intros _ [Hc Htok]%andb_true_iff Hrest.
  rewrite app_cons. cbn [split_ws].
  assert (is_space c = false) as -> by (by apply negb_true_iff).
  destruct tok as [|d tok].
  - rewrite app_empty_l, Hrest. done.
  - rewrite head_in_app by done. cbn [head_in].
    apply andb_true_iff in Htok as [Hd Htok]. rewrite Hd.
    rewrite IH; [done|done| |done]. cbn [all_chars]. by rewrite Hd.
Qed.

Lemma split_ws_head s : head_in not_space s = true → ∃ w ws, split_ws s = w :: ws.
Proof.
  destruct s as [|c s]; [done|]. cbn [head_in split_ws]. intros Hc.
  assert (is_space c = false) as -> by (by apply negb_true_iff).
  destruct (head_in not_space s); [|by eexists _, _].
  destruct (split_ws s); by eexists _, _.
Qed.

Lemma split_ws_app b x :
  ends_blank b = true → split_ws (b +:+ x) = (split_ws b ++ split_ws x)%list.
Proof.
  induction b as [|c b IH]; [done|]. cbn [ends_blank]. rewrite app_cons. cbn [split_ws].
  destruct b as [|d b].
  - intros ->. done.
  - intros Hb. specialize (IH Hb). destruct (is_space c); [done|].
    rewrite head_in_app by done. destruct (head_in not_space (String d b)) eqn:Hd.
    + rewrite IH. destruct (split_ws_head _ Hd) as (w & ws & ->). done.
    + by rewrite IH.
Qed.

(** X16: the marker token [find_tldr_super_token] answers is one of
    the white-space separated words of the text. *)
Theorem find_tldr_super_token_is_word text tok :
  find_tldr_super_token text = Some tok → tok ∈ split_ws text.
Proof.
  unfold find_tldr_super_token, re_search.
  destruct (search_from tldr_word None text) as [[[b0 t] r0]|] eqn:E0; [|done].
  apply search_from_some in E0 as (_ & Hlen0 & g0 & q0 & H0).
  apply tldr_word_chars in H0 as (t' & Ht & Hword). apply app_inj_r in Ht as <-.
  destruct (search_from (tldr_super t) None text) as [[[b m] rest]|] eqn:E; [|done].
  intros [= <-]. pose proof (tldr_super_leftmost _ _ _ _ _ _ E) as Hb.
  apply search_from_some in E as (-> & Hlen & g & q & H).
  apply tldr_super_chars in H as (Hrest & m' & Hm & Hns); [|done].
  apply app_inj_r in Hm as <-.
  rewrite split_ws_app by done. apply elem_of_app. right.
  rewrite split_ws_word; [by left| |done..].
  intros ->. cbn in Hlen0, Hlen. lia.
Qed.

Lemma find_tldr_super_token_is_word_witness : "**TLDR:**" ∈ split_ws "## A **TLDR:** b tldr".
Proof. apply find_tldr_super_token_is_word. vm_compute. reflexivity. Defined.

(** ** What the segmenter returns *)

Lemma cut_found sep a b : ∃ r, cut sep (a +:+ sep +:+ b) = Some r.
Proof.
  induction a as [|c a [r IH]].
  - rewrite app_empty_l. destruct (sep +:+ b) eqn:E; cbn [cut]; rewrite <- ?E;
      rewrite after_prefix_app; by eexists.
  - rewrite app_cons. cbn [cut]. destruct (after_prefix sep _); [by eexists|].
    rewrite IH. destruct r. by eexists.
Qed.

Lemma split_max_first n sep s : ∃ x xs, split_max n sep s = x :: xs.
Proof. destruct n; cbn [split_max]; [by eexists _, _|]. destruct (cut sep s) as [[a b]|]; by eexists _, _. Qed.

Lemma split_two sep s : sep ≠ "" → is_part sep s → ∃ p0 p1 parts, split sep s = p0 :: p1 :: parts.
Proof.
  intros Hsep (a & b & ->). unfold split.
  destruct (String.length (a +:+ sep +:+ b)) as [|n] eqn:Hn.
  { rewrite !length_app in Hn. destruct sep; [done|]. cbn [String.length] in Hn. lia. }
  cbn [split_max]. destruct (cut_found sep a b) as [[a' b'] ->].
  destruct (split_max_first n sep b') as (x & xs & ->). by eexists _, _, _.
Qed.

Lemma split_max_parts n sep s x : x ∈ split_max n sep s → is_part x s.
Proof.
  revert s. induction n as [|n IH]; intros s; cbn [split_max].
  - intros ->%list_elem_of_singleton. apply is_part_refl.
  - destruct (cut sep s) as [[a b]|] eqn:E.
    + apply cut_spec in E as ->. intros [->|Hx]%elem_of_cons; [apply is_part_prefix|].
      eapply is_part_trans; [by apply IH|]. eapply is_part_trans; apply is_part_suffix.
    + intros ->%list_elem_of_singleton. apply is_part_refl.
Qed.

Lemma all_chars_part p s t : is_part s t → all_chars p t = true → all_chars p s = true.
Proof.
  intros (a & b & ->). rewrite !all_chars_app. by intros [_ [? _]%andb_true_iff]%andb_true_iff.
Qed.

Lemma cut_nl_before s a b : cut nl s = Some (a, b) → all_chars not_newline a = true.
Proof.
  revert a. induction s as [|c s IH]; intros a; [done|]. unfold nl in *. cbn [cut after_prefix].
  destruct (ascii_eqb "010" c) eqn:Hc; [by intros [= <- _]|].
  destruct (cut _ s) as [[a' b']|]; [|done]. intros [= <- <-]. cbn [all_chars].
  rewrite (IH a' eq_refl), andb_true_r. unfold not_newline.
  destruct (ascii_eqb c "010") eqn:Hc'; [|done].
  apply ascii_eqb_eq in Hc' as ->. by rewrite ascii_eqb_refl in Hc.
Qed.

Lemma find_tldr_super_token_part text tok :
  find_tldr_super_token text = Some tok → tok ≠ "" ∧ is_part tok text.
Proof.
  intros H. split.
  - apply find_tldr_super_token_some in H as [_ Hlen]. intros ->. cbn in Hlen. lia.
  - unfold find_tldr_super_token, re_search in H.
    destruct (search_from tldr_word None text) as [[[b0 t] r0]|]; [|done].
    destruct (search_from (tldr_super t) None text) as [[[b m] rest]|] eqn:E; [|done].
    injection H as <-. apply search_from_some in E as (-> & _). by exists b, rest.
Qed.

(** X17: when an ASCII text has a marker, the text splits at the
    marker token into at least two parts, and the segmenter returns a
    section if the trimmed second part has a line break and raises
    [IndexError] if it has none. *)
Theorem get_section_text_with_marker gen_text :
  is_ascii_text gen_text = true →
  occurs_ci "tldr" gen_text = true →
  ∃ tldr_token p0 p1 parts,
    find_tldr_super_token gen_text = Some tldr_token
    ∧ split tldr_token gen_text = p0 :: p1 :: parts
    ∧ if contains (strip p1) nl then ∃ sec, get_section_text gen_text = Ok sec
      else get_section_text gen_text = Raise IndexError.
Proof.
  intros _ [tok Htok]%find_tldr_super_token_found.
  destruct (find_tldr_super_token_part _ _ Htok) as [Hne Hpart].
  destruct (split_two _ _ Hne Hpart) as (p0 & p1 & parts & Hsplit).
  exists tok, p0, p1, parts. split_and!; [done..|].
  unfold get_section_text. rewrite Htok, Hsplit. cbn [length Nat.ltb Nat.leb item lookup list_lookup bind].
  unfold contains. cbn [split_max]. destruct (cut nl (strip p1)) as [[line body]|]; [|done].
  cbn [item lookup list_lookup bind]. by eexists.
Qed.

Lemma get_section_text_with_marker_witness :
  ∃ tldr_token p0 p1 parts,
    find_tldr_super_token sample_section = Some tldr_token
    ∧ split tldr_token sample_section = p0 :: p1 :: parts
    ∧ if contains (strip p1) nl then ∃ sec, get_section_text sample_section = Ok sec
      else get_section_text sample_section = Raise IndexError.
Proof. apply get_section_text_with_marker; reflexivity. Defined.

(** X18: a section the segmenter returns has a TLDR, which is
    trimmed, has no line break and is a part of the generated text; its
    title is trimmed and its text is a part of the generated text. *)
Theorem get_section_text_returns gen_text sec :
  get_section_text gen_text = Ok sec →
  ∃ t, tldr sec = Some t
       ∧ strip t = t ∧ all_chars not_newline t = true ∧ is_part t gen_text
       ∧ strip (title sec) = title sec
       ∧ is_part (text sec) gen_text.
Proof.
  unfold get_section_text. destruct (find_tldr_super_token gen_text) as [tok|]; [|done].
  destruct (split tok gen_text) as [|p0 [|p1 parts]] eqn:Hsplit; try done.
  cbn [length Nat.ltb Nat.leb item lookup list_lookup bind split_max].
  assert (is_part p1 gen_text) as Hp1.
  { apply (split_max_parts (String.length gen_text) tok). fold (split tok gen_text).
    rewrite Hsplit. set_solver. }
  destruct (cut nl (strip p1)) as [[line body]|] eqn:Hcut; [|done].
  cbn [item lookup list_lookup bind]. intros [= <-]. cbn [tldr title text].
  eexists. split_and!; [done|apply strip_strip| | |apply strip_strip|].
  - eapply all_chars_part; [|by eapply cut_nl_before].
    eapply is_part_trans; apply strip_chars_part.
  - apply cut_spec in Hcut.
    eapply is_part_trans; [apply strip_chars_part|].
    eapply is_part_trans; [apply strip_chars_part|].
    eapply is_part_trans; [|exact Hp1].
    eapply is_part_trans; [|apply (strip_chars_part is_space)].
    fold (strip p1). rewrite Hcut. apply is_part_prefix.
  - apply cut_spec in Hcut.
    eapply is_part_trans; [|exact Hp1].
    eapply is_part_trans; [|apply (strip_chars_part is_space)].
    fold (strip p1). rewrite Hcut. eapply is_part_trans; apply is_part_suffix.
Qed.

Lemma get_section_text_returns_witness :
  ∃ sec, get_section_text sample_section = Ok sec
         ∧ ∃ t, tldr sec = Some t
                ∧ strip t = t ∧ all_chars not_newline t = true ∧ is_part t sample_section
                ∧ strip (title sec) = title sec
                ∧ is_part (text sec) sample_section.
Proof.
  assert (∃ sec, get_section_text sample_section = Ok sec) as [sec E]
    by (eexists; vm_compute; reflexivity).
  exists sec. split; [exact E|]. exact (get_section_text_returns _ _ E).
Defined.

(** ** The slice the decoder extracts *)

Lemma json_span_open text i d ch stack st :
  length stack = d →
  json_span text i (ch :: stack) (Some st) = (λ k, (st, i + k)) <$> closing (S d) text.
Proof.
  revert i d ch stack. induction text as [|c text IH]; intros i d ch stack Hd; [done|].
  cbn [json_span closing]. destruct (char_in "[{" c).
  - rewrite (IH _ (S d)) by (cbn [length]; lia).
    destruct (closing _ text); cbn; [|done]. do 2 f_equal. lia.
  - destruct (char_in "]}" c).
    + destruct stack as [|ch' stack]; cbn [length] in Hd; subst d.
      * cbn. do 2 f_equal. lia.
      * rewrite (IH _ (length stack)) by done.
        destruct (closing _ text); cbn; [|done]. do 2 f_equal. lia.
    + rewrite (IH _ d) by done. destruct (closing _ text); cbn; [|done]. do 2 f_equal. lia.
Qed.

Lemma json_span_found text i start a b :
  json_span text i [] start = Some (a, b) →
  ∃ pre o rest k, text = pre +:+ String o rest ∧ char_in "[{" o = true
                  ∧ a = i + String.length pre ∧ b = a + S k ∧ closing 1 rest = Some k.
Proof.
  revert i start. induction text as [|c text IH]; intros i start; [done|].
  cbn [json_span]. destruct (char_in "[{" c) eqn:Ho.
  - rewrite (json_span_open _ _ 0) by done.
    destruct (closing 1 text) as [k|] eqn:Hk; [|done]. cbn. intros [= <- <-].
    exists "", c, text, k. rewrite app_empty_l. cbn [String.length]. split_and!; [done..|lia|lia|done].
  - assert (json_span text (S i) [] start = Some (a, b) →
            ∃ pre o rest k, String c text = pre +:+ String o rest ∧ char_in "[{" o = true
                            ∧ a = i + String.length pre ∧ b = a + S k ∧ closing 1 rest = Some k)
      as Hskip.
    { intros (pre & o & rest & k & -> & ? & -> & -> & ?)%IH.
      exists (String c pre), o, rest, k. cbn [String.length]. split_and!; [done..|lia|lia|done]. }
    by destruct (char_in "]}" c).
Qed.

Lemma closing_take d s k : closing d s = Some k → closing d (take_chars k s) = Some k.
Proof.
  revert d k. induction s as [|c s IH]; intros d k; [done|]. cbn [closing].
  destruct (char_in "[{" c) eqn:Ho.
  - destruct (closing (S d) s) as [k'|] eqn:E; [|done]. intros [= <-].
    cbn [take_chars closing]. by rewrite Ho, (IH _ _ E).
  - destruct (char_in "]}" c) eqn:Hc.
    + destruct d as [|[|d]].
      * intros [= <-]. cbn [take_chars closing]. by rewrite Ho, Hc.
      * intros [= <-]. cbn [take_chars closing]. by rewrite Ho, Hc.
      * destruct (closing (S d) s) as [k'|] eqn:E; [|done]. intros [= <-].
        cbn [take_chars closing]. by rewrite Ho, Hc, (IH _ _ E).
    + destruct (closing d s) as [k'|] eqn:E; [|done]. intros [= <-].
      cbn [take_chars closing]. by rewrite Ho, Hc, (IH _ _ E).
Qed.

Lemma closing_last d s k :
  closing d s = Some k →
  ∃ body c, take_chars k s = body +:+ String c "" ∧ char_in "]}" c = true.
Proof.
  revert d k. induction s as [|c s IH]; intros d k; [done|]. cbn [closing].
  assert (∀ d', S <$> closing d' s = Some k →
                ∃ body c0, take_chars k (String c s) = body +:+ String c0 "" ∧ char_in "]}" c0 = true)
    as Hnext.
  { intros d'. destruct (closing d' s) as [k'|] eqn:E; [|done]. intros [= <-].
    destruct (IH _ _ E) as (body & c0 & Hb & Hc0). exists (String c body), c0.
    cbn [take_chars]. by rewrite Hb. }
  destruct (char_in "[{" c); [apply Hnext|].
  destruct (char_in "]}" c) eqn:Hc; [|apply Hnext].
  destruct d as [|[|d]]; [| |apply Hnext]; intros [= <-]; by exists "", c.
Qed.

Lemma take_take n s : take_chars n (take_chars n s) = take_chars n s.
Proof.
  revert s. induction n as [|n IH]; intros s; [done|]. destruct s as [|c s]; [done|].
  cbn [take_chars]. by rewrite IH.
Qed.

Lemma extract_json_slice_found text a b :
  json_span text 0 [] None = Some (a, b) →
  ∃ pre o rest k, text = pre +:+ String o rest ∧ char_in "[{" o = true
                  ∧ closing 1 rest = Some k
                  ∧ extract_json_slice text = String o (take_chars k rest).
Proof.
  intros H. unfold extract_json_slice. rewrite H.
  apply json_span_found in H as (pre & o & rest & k & -> & Ho & -> & -> & Hk).
  exists pre, o, rest, k. split_and!; [done..|].
  cbn [Nat.add]. rewrite drop_app.
  replace (String.length pre + S k - String.length pre) with (S k) by lia. done.
Qed.

(** X19: the slice [extract_json_slice] answers is a contiguous part
    of the text; extracting again from it changes nothing; and it is
    the whole text or starts with an opening bracket or brace and ends
    with a closing one. *)
Theorem extract_json_slice_shape text :
  is_part (extract_json_slice text) text
  ∧ extract_json_slice (extract_json_slice text) = extract_json_slice text
  ∧ (extract_json_slice text = text
     ∨ ∃ o body c, extract_json_slice text = String o (body +:+ String c "")
                   ∧ char_in "[{" o = true ∧ char_in "]}" c = true).
Proof.
  destruct (json_span text 0 [] None) as [[a b]|] eqn:H.
  - apply extract_json_slice_found in H as (pre & o & rest & k & -> & Ho & Hk & ->).
    split_and!.
    + eapply is_part_trans; [|apply is_part_suffix].
      destruct (take_prefix k rest) as [r Hr]. rewrite Hr at 2. rewrite <- app_cons.
      apply is_part_prefix.
    + unfold extract_json_slice at 1. cbn [json_span]. rewrite Ho.
      rewrite (json_span_open _ _ 0) by done. rewrite (closing_take _ _ _ Hk). cbn.
      by rewrite take_take.
    + right. destruct (closing_last _ _ _ Hk) as (body & c & -> & Hc). by exists o, body, c.
  - unfold extract_json_slice. rewrite H. split_and!; [apply is_part_refl| |by left].
    by rewrite H.
Qed.

(** ** Fenced answers *)

Lemma rstrip_app p a b : rstrip p b ≠ "" → rstrip p (a +:+ b) = a +:+ rstrip p b.
Proof.
  intros Hb. induction a as [|c a IH]; [done|]. rewrite !app_cons. cbn [rstrip]. rewrite IH.
  destruct (a +:+ rstrip p b) eqn:E; [|done].
  destruct a; [|done]. rewrite app_empty_l in E. done.
Qed.

Lemma lstrip_head p s : head_in p s = false → lstrip p s = s.
Proof. destruct s as [|c s]; [done|]. cbn [head_in lstrip]. by intros ->. Qed.

Lemma rstrip_word p s : all_chars (λ c, negb (p c)) s = true → rstrip p s = s.
Proof.
  induction s as [|c s IH]; [done|]. cbn [all_chars rstrip].
  intros [Hc Hs]%andb_true_iff. rewrite (IH Hs).
  apply negb_true_iff in Hc as ->. by rewrite andb_false_r.
Qed.

Lemma cut_nl_first h r : all_chars not_newline h = true → cut nl (h +:+ nl +:+ r) = Some (h, r).
Proof.
  induction h as [|c h IH]; [done|]. cbn [all_chars]. intros [Hc Hh]%andb_true_iff.
  rewrite app_cons. unfold nl in *. cbn [cut after_prefix].
  destruct (ascii_eqb "010" c) eqn:E.
  - apply ascii_eqb_eq in E as <-. done.
  - by rewrite (IH Hh).
Qed.

Lemma endswith_app a p : endswith (a +:+ p) p = true.
Proof.
  unfold endswith. rewrite length_app.
  replace (String.length a + String.length p - String.length p) with (String.length a) by lia.
  rewrite drop_app, String.eqb_refl. apply Nat.leb_le. lia.
Qed.

Lemma is_lower_alpha c : is_lower (lower c) = true → is_alpha c = true.
Proof. by destruct c as [[] [] [] [] [] [] [] []]. Qed.

Lemma lower_tag_letters tag :
  all_chars is_lower (map_chars lower tag) = true → all_chars is_alpha tag = true.
Proof.
  induction tag as [|c tag IH]; [done|]. cbn [map_chars all_chars].
  intros [Hc Ht]%andb_true_iff. by rewrite (is_lower_alpha _ Hc), IH.
Qed.

Lemma is_alpha_not_space c : is_alpha c = true → negb (is_space c) = true.
Proof. by destruct c as [[] [] [] [] [] [] [] []]. Qed.

Lemma is_alpha_not_newline c : is_alpha c = true → not_newline c = true.
Proof. by destruct c as [[] [] [] [] [] [] [] []]. Qed.

Lemma strip_word s : all_chars is_alpha s = true → strip s = s.
Proof.
  intros H. unfold strip, strip_chars.
  rewrite rstrip_word by (eapply all_chars_impl; [apply is_alpha_not_space|done]).
  apply lstrip_head. destruct s as [|c s]; [done|]. cbn [all_chars head_in] in *.
  apply andb_true_iff in H as [Hc _]. by apply negb_true_iff, is_alpha_not_space.
Qed.

Lemma strip_code_fences_tagged tag body :
  map_chars lower tag ∈ ["json"; "javascript"; "ts"; "python"] →
  strip body ≠ "" →
  strip_code_fences ("```" +:+ tag +:+ nl +:+ body +:+ "```") = strip body.
Proof.
  intros Htag Hbody.
  assert (all_chars is_alpha tag = true) as Hletters.
  { apply lower_tag_letters. set_unfold in Htag.
    destruct Htag as [->|[->|[->|[->|[]]]]]; done. }
  assert (tag ≠ "") as Hne.
  { intros ->. set_unfold in Htag. by destruct Htag as [?|[?|[?|[?|[]]]]]. }
  assert (rstrip is_space body ≠ "") as Hr.
  { intros E. apply Hbody. unfold strip, strip_chars. by rewrite E. }
  unfold strip_code_fences.
  assert (strip ("```" +:+ tag +:+ nl +:+ body +:+ "```")
          = "```" +:+ tag +:+ nl +:+ body +:+ "```") as ->.
  { unfold strip, strip_chars.
    replace ("```" +:+ tag +:+ nl +:+ body +:+ "```")
      with (("```" +:+ tag +:+ nl +:+ body) +:+ "```") by (by rewrite !app_assoc_s).
    by rewrite rstrip_app. }
  assert (endswith ("```" +:+ tag +:+ nl +:+ body +:+ "```") "```" = true) as ->.
  { replace ("```" +:+ tag +:+ nl +:+ body +:+ "```")
      with (("```" +:+ tag +:+ nl +:+ body) +:+ "```") by (by rewrite !app_assoc_s).
    apply endswith_app. }
  assert (slice 3 3 ("```" +:+ tag +:+ nl +:+ body +:+ "```") = tag +:+ nl +:+ body) as ->.
  { unfold slice. rewrite !length_app. cbn [String.length drop_chars String.app].
    replace (tag +:+ nl +:+ body +:+ "```")
      with ((tag +:+ nl +:+ body) +:+ "```") by (by rewrite !app_assoc_s).
    replace (3 + (String.length tag + (String.length nl + (String.length body + 3))) - 3 - 3)
      with (String.length (tag +:+ nl +:+ body)) by (rewrite !length_app; lia).
    apply take_app. }
  assert (strip (tag +:+ nl +:+ body) = tag +:+ nl +:+ rstrip is_space body) as ->.
  { unfold strip, strip_chars.
    replace (tag +:+ nl +:+ body) with ((tag +:+ nl) +:+ body) by (by rewrite !app_assoc_s).
    rewrite rstrip_app by done. rewrite app_assoc_s. apply lstrip_head.
    destruct tag as [|c tag]; [done|]. cbn [all_chars] in Hletters.
    apply andb_true_iff in Hletters as [Hc _]. rewrite app_cons. cbn [head_in].
    by apply negb_true_iff, is_alpha_not_space. }
  cbn [startswith after_prefix andb String.app ascii_eqb Ascii.eqb Bool.eqb].
  rewrite cut_nl_first by (eapply all_chars_impl; [apply is_alpha_not_newline|done]).
  rewrite (strip_word tag Hletters).
  rewrite bool_decide_eq_true_2 by done.
  unfold strip, strip_chars. by rewrite rstrip_rstrip.
Qed.

(** X20: a text fenced with three backquotes and tagged json,
    javascript, ts or python in any letter case, whose body is not
    blank, is decoded to what [json.loads] makes of the slice extracted
    from the trimmed body, when [json.loads] accepts it. *)
Theorem safe_json_parse_fenced py_str json_loads literal_eval tag body v :
  map_chars lower tag ∈ ["json"; "javascript"; "ts"; "python"] →
  strip body ≠ "" →
  json_loads (extract_json_slice (strip body)) = Some v →
  safe_json_parse py_str json_loads literal_eval
    (Plain (VStr ("```" +:+ tag +:+ nl +:+ body +:+ "```"))) = Ok v.
Proof.
  intros Htag Hbody Hv. unfold safe_json_parse, decode_text.
  by rewrite strip_code_fences_tagged, Hv.
Qed.

Lemma safe_json_parse_fenced_witness :
  safe_json_parse (λ _, "")
    (λ s, if String.eqb s "[1]" then Some (VList [VInt 1]) else None) (λ _, None)
    (Plain (VStr ("```" +:+ "JSON" +:+ nl +:+ (nl +:+ "Answer: [1]" +:+ nl) +:+ "```")))
  = Ok (VList [VInt 1]).
Proof.
  apply safe_json_parse_fenced.
  - apply elem_of_cons. by left.
  - vm_compute. discriminate.
  - vm_compute. reflexivity.
Defined.

(** ** [make_int] reads back what printing an integer writes *)

Lemma pretty_N_char_digit d :
  (d < 10)%N →
  is_digit (pretty_N_char d) = true
  ∧ Z.of_nat (code (pretty_N_char d) - 48) = Z.of_N d.
Proof.
  intros Hd.
  assert (d = 0 ∨ d = 1 ∨ d = 2 ∨ d = 3 ∨ d = 4 ∨ d = 5 ∨ d = 6 ∨ d = 7 ∨ d = 8 ∨ d = 9)%N
    as [->|[->|[->|[->|[->|[->|[->|[->|[->| ->]]]]]]]]] by lia; done.
Qed.

Lemma digits_value_pretty x :
  (0 < x)%N →
  ∃ pw, ∀ acc sep_ok s,
    digits_value acc sep_ok (pretty_N_go x s) = digits_value (acc * pw + Z.of_N x)%Z true s.
Proof.
  induction (N.lt_wf_0 x) as [x _ IH]. intros Hx.
  destruct (pretty_N_char_digit (x `mod` 10)%N) as [Hd Hv]; [by apply N.mod_lt|].
  destruct (N.eq_0_gt_0_cases (x `div` 10)) as [H0|Hpos].
  - exists 10%Z. intros acc sep_ok s. rewrite pretty_N_go_step, H0, pretty_N_go_0 by done.
    cbn [digits_value]. rewrite Hd, Hv. f_equal.
    pose proof (N.div_mod x 10 ltac:(done)) as Hx10. rewrite H0 in Hx10. lia.
  - destruct (IH (x `div` 10)%N) as [pw Hpw]; [by apply N.div_lt|done|].
    exists (10 * pw)%Z. intros acc sep_ok s. rewrite pretty_N_go_step, Hpw by done.
    cbn [digits_value]. rewrite Hd, Hv. f_equal.
    pose proof (N.div_mod x 10 ltac:(done)) as Hx10. lia.
Qed.

Lemma pretty_N_go_digits x s :
  all_chars is_digit s = true → all_chars is_digit (pretty_N_go x s) = true.
Proof.
  revert s. induction (N.lt_wf_0 x) as [x _ IH]. intros s Hs.
  destruct (N.eq_0_gt_0_cases x) as [->|Hx]; [by rewrite pretty_N_go_0|].
  rewrite pretty_N_go_step by done. apply IH; [by apply N.div_lt|].
  cbn [all_chars]. rewrite Hs.
  by destruct (pretty_N_char_digit (x `mod` 10)%N) as [-> _]; [apply N.mod_lt|].
Qed.

(** Printing a number below [10 ^ n] writes [n] digits at most. *)
Lemma pretty_N_go_digit_count n x s :
  (Z.of_N x < 10 ^ Z.of_nat n)%Z →
  (digit_count (pretty_N_go x s) ≤ N.of_nat n + digit_count s)%N.
Proof.
  revert x s. induction n as [|n IH]; intros x s Hx.
  - assert (x = 0%N) as -> by (change (10 ^ Z.of_nat 0)%Z with 1%Z in Hx; lia).
    rewrite pretty_N_go_0. lia.
  - destruct (N.eq_0_gt_0_cases x) as [->|Hpos]; [rewrite pretty_N_go_0; lia|].
    rewrite pretty_N_go_step by done.
    destruct (pretty_N_char_digit (x `mod` 10)%N) as [Hd _]; [by apply N.mod_lt|].
    etrans; [apply IH|].
    + rewrite N2Z.inj_div. apply Z.div_lt_upper_bound; [done|].
      by rewrite Nat2Z.inj_succ, Z.pow_succ_r in Hx by lia.
    + cbn [digit_count]. rewrite Hd. lia.
Qed.

Lemma is_digit_not_int_space c : is_digit c = true → negb (int_space c) = true.
Proof. by destruct c as [[] [] [] [] [] [] [] []]. Qed.

Lemma strip_chars_unspaced p s :
  all_chars (λ c, negb (p c)) s = true → strip_chars p s = s.
Proof.
  intros H. unfold strip_chars. rewrite rstrip_word by done.
  apply lstrip_head. destruct s as [|c s]; [done|]. cbn [all_chars head_in] in *.
  apply andb_true_iff in H as [Hc _]. by apply negb_true_iff.
Qed.

(** The text of a number of [4300] digits at most, with no sign. *)
Lemma parse_int_digits s :
  s ≠ "" → all_chars is_digit s = true → (digit_count s ≤ int_max_str_digits)%N →
  parse_int s = digits_value 0 false s.
Proof.
  intros Hne Hs Hcount. unfold parse_int.
  rewrite strip_chars_unspaced by (eapply all_chars_impl; [apply is_digit_not_int_space|done]).
  apply N.leb_le in Hcount.
  destruct s as [|c s]; [done|]. cbn [all_chars] in Hs. apply andb_true_iff in Hs as [Hc _].
  destruct c as [[] [] [] [] [] [] [] []]; try done; by rewrite Hcount.
Qed.

Lemma pretty_N_go_not_empty x : (0 < x)%N → pretty_N_go x "" ≠ "".
Proof.
  intros Hx E. destruct (digits_value_pretty x Hx) as [pw Hpw].
  specialize (Hpw 0%Z false ""). rewrite E in Hpw. done.
Qed.

Lemma pretty_N_go_within p :
  (Z.pos p < 10 ^ 4300)%Z → (digit_count (pretty_N_go (Npos p) "") ≤ int_max_str_digits)%N.
Proof.
  intros Hp. pose proof (pretty_N_go_digit_count (N.to_nat 4300) (Npos p) "") as H.
  rewrite N_nat_Z, N2Nat.id in H. apply H. exact Hp.
Qed.

Lemma parse_int_pos p :
  (Z.pos p < 10 ^ 4300)%Z → parse_int (pretty_N_go (Npos p) "") = Some (Zpos p).
Proof.
  intros Hp.
  rewrite parse_int_digits;
    [|by apply pretty_N_go_not_empty|by apply pretty_N_go_digits|by apply pretty_N_go_within].
  destruct (digits_value_pretty (Npos p)) as [pw ->]; [done|]. done.
Qed.

(** X21: [make_int] of the decimal text of an integer of [4300] digits
    at most is that integer. *)
Theorem make_int_of_printed (z : Z) :
  (Z.abs z < 10 ^ 4300)%Z → make_int (VStr (pretty z)) = z.
Proof.
  intros Hz. unfold make_int. destruct z as [|p|p]; [done| |].
  - change (pretty (Z.pos p)) with (pretty_N_go (Npos p) ""). by rewrite parse_int_pos.
  - change (pretty (Z.neg p)) with ("-" +:+ pretty_N_go (Npos p) "").
    unfold parse_int.
    rewrite strip_chars_unspaced.
    2:{ rewrite app_cons, app_empty_l. cbn [all_chars]. apply andb_true_iff. split; [done|].
        eapply all_chars_impl; [apply is_digit_not_int_space|]. by apply pretty_N_go_digits. }
    rewrite app_cons, app_empty_l.
    pose proof (pretty_N_go_within p Hz) as Hcount. apply N.leb_le in Hcount. rewrite Hcount.
    destruct (digits_value_pretty (Npos p)) as [pw ->]; [done|]. done.
Qed.

Lemma make_int_of_printed_witness :
  (Z.abs (-2020) < 10 ^ 4300)%Z ∧ make_int (VStr (pretty (-2020)%Z)) = (-2020)%Z.
Proof.
  split; [vm_compute; reflexivity|]. apply (make_int_of_printed (-2020)). vm_compute. reflexivity.
Defined.

Lemma digits_value_chars acc sep_ok s v :
  digits_value acc sep_ok s = Some v → all_chars int_char s = true.
Proof.
  revert acc sep_ok. induction s as [|c s IH]; intros acc sep_ok; [done|].
  cbn [digits_value all_chars]. unfold int_char at 1. destruct (is_digit c).
  - intros H. by rewrite (IH _ _ H).
  - destruct (ascii_eqb c "_" && sep_ok) eqn:E; [|done].
    apply andb_true_iff in E as [->%ascii_eqb_eq _].
    destruct s as [|d s]; [done|]. intros H. by rewrite (IH _ _ H).
Qed.

(** Trimming with a larger set of characters leaves a part of what
    trimming with a smaller one leaves. *)
Lemma rstrip_finer (p q : ascii → bool) s :
  (∀ c, q c = true → p c = true) → rstrip p (rstrip q s) = rstrip p s.
Proof.
  intros Hqp. induction s as [|c s IH]; [done|]. cbn [rstrip].
  destruct (is_empty (rstrip q s) && q c) eqn:E.
  - apply andb_true_iff in E as [Hr Hc]. destruct (rstrip q s); [|done].
    rewrite <- IH. cbn [rstrip is_empty]. by rewrite (Hqp _ Hc).
  - cbn [rstrip]. by rewrite IH.
Qed.

Lemma strip_chars_lstrip_part (p q : ascii → bool) t :
  (∀ c, q c = true → p c = true) → is_part (strip_chars p t) (lstrip q t).
Proof.
  intros Hqp. induction t as [|c t IH]; [apply is_part_refl|]. cbn [lstrip].
  destruct (q c) eqn:Hc; [|apply strip_chars_part].
  assert (strip_chars p (String c t) = strip_chars p t) as ->; [|done].
  unfold strip_chars. cbn [rstrip]. rewrite (Hqp _ Hc).
  destruct (rstrip p t) as [|d r]; [done|]. cbn [is_empty andb lstrip]. by rewrite (Hqp _ Hc).
Qed.

Lemma strip_chars_finer (p q : ascii → bool) s :
  (∀ c, q c = true → p c = true) → is_part (strip_chars p s) (strip_chars q s).
Proof.
  intros Hqp. unfold strip_chars at 1. rewrite <- (rstrip_finer p q) by done.
  by apply strip_chars_lstrip_part.
Qed.

Lemma int_space_is_space c : int_space c = true → is_space c = true.
Proof. by destruct c as [[] [] [] [] [] [] [] []]. Qed.

Lemma parse_int_chars x v : parse_int x = Some v → all_chars int_char (strip x) = true.
Proof.
  intros H. apply (all_chars_part _ _ (strip_chars int_space x)).
  { apply strip_chars_finer, int_space_is_space. }
  revert H. unfold parse_int. destruct (strip_chars int_space x) as [|c s] eqn:E; [done|].
  assert (∀ t w, (if (digit_count t <=? int_max_str_digits)%N
                  then digits_value 0 false t else None) = Some w →
                 all_chars int_char t = true) as Hd.
  { intros t w. destruct (digit_count t <=? int_max_str_digits)%N; [|done].
    apply digits_value_chars. }
  destruct c as [[] [] [] [] [] [] [] []];
    first
      [ intros Hv; exact (Hd _ _ Hv)
      | intros Hv; cbn [all_chars]; by rewrite (Hd _ _ Hv)
      | match goal with
        | |- context [Z.opp <$> ?e] => destruct e as [r|] eqn:Hr; [|done]
        end; intros _; cbn [all_chars]; by rewrite (Hd _ _ Hr) ].
Qed.

(** X22: [make_int] answers 0 for an ASCII text whose trimmed form
    has a character other than a digit, an underscore or a sign. *)
Theorem make_int_not_a_number s :
  is_ascii_text s = true →
  all_chars int_char (strip s) = false → make_int (VStr s) = 0%Z.
Proof.
  intros _ H. unfold make_int. destruct (parse_int s) as [v|] eqn:E; [|done].
  apply parse_int_chars in E. congruence.
Qed.

Lemma make_int_not_a_number_witness : make_int (VStr "n.d.") = 0%Z.
Proof. apply make_int_not_a_number; reflexivity. Defined.

(** ** The short name of the first author *)

Lemma split_ws_blank b : all_chars is_space b = true → split_ws b = [].
Proof.
  induction b as [|c b IH]; [done|]. cbn [all_chars split_ws].
  intros [-> Hb]%andb_true_iff. by apply IH.
Qed.

Lemma last_word_split s :
  all_chars is_space s = true
  ∨ ∃ a w b, s = a +:+ w +:+ b ∧ ends_blank a = true ∧ w ≠ ""
             ∧ all_chars not_space w = true ∧ all_chars is_space b = true.
Proof.
  induction s as [|c s IH]; [by left|]. cbn [all_chars].
  destruct (is_space c) eqn:Hc.
  - destruct IH as [->|(a & w & b & -> & Ha & Hw & Hns & Hb)]; [by left|right].
    exists (String c a), w, b. split_and!; try done.
    cbn [ends_blank]. by destruct a.
  - right. destruct IH as [Hs|(a & w & b & -> & Ha & Hw & Hns & Hb)].
    + exists "", (String c ""), s. split_and!; try done.
      cbn [all_chars]. unfold not_space. by rewrite Hc.
    + destruct a as [|d a].
      * exists "", (String c w), b. split_and!; try done.
        cbn [all_chars]. unfold not_space at 1. by rewrite Hc.
      * exists (String c (String d a)), w, b. by split_and!.
Qed.

Lemma last_snoc {A} (l : list A) x : last (l ++ [x]) = Some x.
Proof. induction l as [|y [|z l] IH]; done. Qed.

Lemma all_blank_head b : all_chars is_space b = true → head_in not_space b = false.
Proof.
  destruct b as [|c b]; [done|]. cbn [all_chars head_in]. unfold not_space.
  by intros [-> _]%andb_true_iff.
Qed.

(** X23: for a first author with an ASCII name,
    [get_ref_author_str] raises [IndexError] when the name is blank;
    otherwise it answers the last white-space separated word of the
    name, followed by et al. when there are more authors. *)
Theorem get_ref_author_str_last_word first_author others name :
  dict_get first_author "name" = Some name →
  is_ascii_text name = true →
  (all_chars is_space name = true
   ∧ get_ref_author_str (first_author :: others) = Raise IndexError)
  ∨ ∃ a w b, name = a +:+ w +:+ b ∧ ends_blank a = true ∧ w ≠ ""
             ∧ all_chars not_space w = true ∧ all_chars is_space b = true
             ∧ get_ref_author_str (first_author :: others)
               = Ok (match others with [] => w | _ :: _ => w +:+ " et al." end).
Proof.
  intros Hname _. unfold get_ref_author_str, getitem. rewrite Hname. cbn [bind]. unfold last_item.
  destruct (last_word_split name) as [Hb|(a & w & b & -> & Ha & Hw & Hns & Hb)].
  - left. split; [done|]. by rewrite split_ws_blank.
  - right. exists a, w, b. split_and!; try done.
    rewrite split_ws_app by done.
    rewrite split_ws_word by (try done; by apply all_blank_head).
    rewrite (split_ws_blank b) by done.
    by rewrite last_snoc.
Qed.

Lemma get_ref_author_str_last_word_witness :
  ∃ a w b, "Ada  King Lovelace " = a +:+ w +:+ b ∧ ends_blank a = true ∧ w ≠ ""
           ∧ all_chars not_space w = true ∧ all_chars is_space b = true
           ∧ get_ref_author_str [[("name", "Ada  King Lovelace ")]; [("name", "B")]]
             = Ok (w +:+ " et al.").
Proof.
  destruct (get_ref_author_str_last_word [("name", "Ada  King Lovelace ")] [[("name", "B")]]
              "Ada  King Lovelace " eq_refl eq_refl) as [[H _]|H]; [discriminate H|exact H].
Defined.

(** ** Numeric metadata *)

Lemma dict_set_fresh {V} (d : dict V) k v : k ∉ dict_keys d → dict_set d k v = (d ++ [(k, v)])%list.
Proof.
  induction d as [|[k0 v0] d IH]; [done|]. cbn [dict_set]. unfold dict_keys. csimpl.
  intros [Hk Hd]%not_elem_of_cons. destruct (String.eqb k k0) eqn:E.
  - by apply String.eqb_eq in E.
  - by rewrite IH.
Qed.

Lemma dict_of_unique {V} (items : list (string * V)) : NoDup items.*1 → dict_of items = items.
Proof.
  unfold dict_of.
  assert (∀ acc, NoDup ((acc ++ items)%list).*1 →
                 fold_left (λ d kv, dict_set d kv.1 kv.2) items acc = (acc ++ items)%list) as H.
  { induction items as [|[k v] items IH]; intros acc Hnd; cbn [fold_left].
    - by rewrite app_nil_r.
    - cbn [fst snd]. rewrite dict_set_fresh.
      + rewrite IH; [by rewrite <- app_assoc|]. by rewrite <- app_assoc.
      + rewrite fmap_app in Hnd. apply NoDup_app in Hnd as (_ & Hnd & _).
        intros Hk. apply (Hnd k Hk). csimpl. by left. }
  intros Hnd. by apply (H []).
Qed.

Lemma dict_get_in {V} (d : dict V) k v : NoDup (dict_keys d) → (k, v) ∈ d → dict_get d k = Some v.
Proof.
  induction d as [|[k0 v0] d IH]; [by intros _ ?%not_elem_of_nil|].
  unfold dict_keys. csimpl. intros [Hk0 Hnd]%NoDup_cons [[= -> ->]|Hin]%elem_of_cons.
  - by rewrite String.eqb_refl.
  - destruct (String.eqb k k0) eqn:E; [|by apply IH].
    apply String.eqb_eq in E as ->. destruct Hk0.
    apply list_elem_of_fmap. by exists (k0, v).
Qed.

Lemma dict_get_fmap {V W} (g : string → V → W) (d : dict V) k :
  dict_get ((λ kv, (kv.1, g kv.1 kv.2)) <$> d) k = g k <$> dict_get d k.
Proof.
  induction d as [|[k0 v0] d IH]; [done|]. csimpl.
  destruct (String.eqb k k0) eqn:E; [|done]. by apply String.eqb_eq in E as ->.
Qed.

Lemma normalized_map pdata :
  NoDup (dict_keys pdata) → normalized pdata = (λ kv, (kv.1, as_stored kv.1 kv.2)) <$> pdata.
Proof.
  intros Hnd. unfold normalized. rewrite dict_of_unique.
  - apply list_fmap_ext. intros i [k v] Hi. cbn [fst snd]. unfold as_stored.
    destruct (bool_decide _); [done|].
    by rewrite (dict_get_in pdata k v Hnd) by (by eapply list_elem_of_lookup_2).
  - rewrite <- list_fmap_compose. by rewrite (list_fmap_ext _ fst pdata) by done.
Qed.

Lemma dict_eq {V} (d1 d2 : dict V) :
  dict_keys d1 = dict_keys d2 → NoDup (dict_keys d1) →
  (∀ k, dict_get d1 k = dict_get d2 k) → d1 = d2.
Proof.
  revert d2. induction d1 as [|[k v] d1 IH]; intros [|[k' v'] d2]; try done.
  unfold dict_keys. csimpl. intros [= <- Hk] [Hk1 Hnd]%NoDup_cons Hget.
  pose proof (Hget k) as Hv. cbn [dict_get] in Hv. rewrite String.eqb_refl in Hv.
  injection Hv as <-. f_equal. apply IH; [done..|]. intros k0.
  specialize (Hget k0). cbn [dict_get] in Hget. destruct (String.eqb k0 k) eqn:E; [|done].
  apply String.eqb_eq in E as ->.
  assert (∀ d : dict V, k ∉ d.*1 → dict_get d k = None) as Hnone.
  { intros d Hd. destruct (dict_get d k) eqn:Eg; [|done]. destruct Hd.
    apply dict_get_keys. by eexists. }
  rewrite !Hnone; [done| |done]. by rewrite <- Hk.
Qed.

Lemma convert_step_keys (paper : dict pyval) field :
  dict_keys (match dict_get paper field with
             | Some v => dict_set paper field (VInt (make_int v))
             | None => paper
             end) = dict_keys paper.
Proof.
  destruct (dict_get paper field) as [v|] eqn:E; [|done].
  rewrite dict_set_keys. unfold dict_has. by rewrite E.
Qed.

Lemma convert_step_get (paper : dict pyval) field k :
  dict_get (match dict_get paper field with
            | Some v => dict_set paper field (VInt (make_int v))
            | None => paper
            end) k
  = (λ v, if String.eqb k field then VInt (make_int v) else v) <$> dict_get paper k.
Proof.
  destruct (dict_get paper field) as [v|] eqn:E.
  - rewrite dict_get_set. destruct (String.eqb k field) eqn:Ek.
    + apply String.eqb_eq in Ek as ->. by rewrite E.
    + by destruct (dict_get paper k).
  - destruct (String.eqb k field) eqn:Ek.
    + apply String.eqb_eq in Ek as ->. by rewrite E.
    + by destruct (dict_get paper k).
Qed.

Lemma make_int_twice v : make_int (VInt (make_int v)) = make_int v.
Proof. done. Qed.

Lemma convert_numeric_fields_get paper k :
  dict_get (convert_numeric_fields paper) k = as_stored k <$> dict_get paper k.
Proof.
  unfold convert_numeric_fields, NUMERIC_META_FIELDS. cbn [fold_left].
  rewrite !convert_step_get. destruct (dict_get paper k) as [v|]; [|done]. cbn.
  f_equal. unfold as_stored, NUMERIC_META_FIELDS.
  destruct (String.eqb k "year") eqn:E1.
  { apply String.eqb_eq in E1 as ->. done. }
  destruct (String.eqb k "citationCount") eqn:E2.
  { apply String.eqb_eq in E2 as ->. done. }
  destruct (String.eqb k "referenceCount") eqn:E3.
  { apply String.eqb_eq in E3 as ->. done. }
  destruct (String.eqb k "influentialCitationCount") eqn:E4.
  { apply String.eqb_eq in E4 as ->. done. }
  rewrite bool_decide_eq_false_2; [done|].
  apply String.eqb_neq in E1, E2, E3, E4. intros Hin.
  repeat (apply elem_of_cons in Hin as [?|Hin]; [done|]). by apply not_elem_of_nil in Hin.
Qed.

Lemma convert_numeric_fields_keys paper :
  dict_keys (convert_numeric_fields paper) = dict_keys paper.
Proof.
  unfold convert_numeric_fields, NUMERIC_META_FIELDS. cbn [fold_left].
  by rewrite !convert_step_keys.
Qed.

Lemma normalized_keys pdata :
  NoDup (dict_keys pdata) → dict_keys (normalized pdata) = dict_keys pdata.
Proof.
  intros Hnd. rewrite normalized_map by done.
  unfold dict_keys. rewrite <- list_fmap_compose. by apply list_fmap_ext.
Qed.

Lemma normalized_get pdata k :
  NoDup (dict_keys pdata) → dict_get (normalized pdata) k = as_stored k <$> dict_get pdata k.
Proof. intros Hnd. rewrite normalized_map by done. apply (dict_get_fmap as_stored). Qed.

Lemma as_stored_twice k v : as_stored k (as_stored k v) = as_stored k v.
Proof. unfold as_stored. by destruct (bool_decide _). Qed.

(** X24: for a paper with distinct field names, the normalized paper
    has the same field names in the same order; a numeric field holds
    the integer [make_int] makes of its value and every other field its
    value; normalizing again changes nothing. *)
Theorem normalized_fields pdata k :
  NoDup (dict_keys pdata) →
  dict_keys (normalized pdata) = dict_keys pdata
  ∧ dict_get (normalized pdata) k = as_stored k <$> dict_get pdata k
  ∧ normalized (normalized pdata) = normalized pdata.
Proof.
  intros Hnd. split_and!; [by apply normalized_keys|by apply normalized_get|].
  assert (NoDup (dict_keys (normalized pdata))) as Hnd' by (by rewrite normalized_keys).
  apply dict_eq; [by rewrite normalized_keys|by rewrite normalized_keys|].
  intros k0. rewrite !normalized_get by done.
  destruct (dict_get pdata k0); [|done]. cbn. by rewrite as_stored_twice.
Qed.

(** X25: for a paper with distinct field names, the conversion in
    place of [LocalhostRetriever] and the normalization of
    [get_paper_metadata] give the same paper. *)
Theorem numeric_fields_agree pdata :
  NoDup (dict_keys pdata) → convert_numeric_fields pdata = normalized pdata.
Proof.
  intros Hnd. apply dict_eq.
  - by rewrite convert_numeric_fields_keys, normalized_keys.
  - by rewrite convert_numeric_fields_keys.
  - intros k. by rewrite convert_numeric_fields_get, normalized_get.
Qed.

Lemma normalized_fields_witness :
  dict_keys (normalized [("year", VStr "2020"); ("title", VStr "T")])
  = dict_keys [("year", VStr "2020"); ("title", VStr "T")]
  ∧ dict_get (normalized [("year", VStr "2020"); ("title", VStr "T")]) "year"
    = as_stored "year" <$> dict_get [("year", VStr "2020"); ("title", VStr "T")] "year"
  ∧ normalized (normalized [("year", VStr "2020"); ("title", VStr "T")])
    = normalized [("year", VStr "2020"); ("title", VStr "T")].
Proof.
  apply normalized_fields. apply (bool_decide_unpack _). vm_compute. exact I.
Defined.

Lemma numeric_fields_agree_witness :
  convert_numeric_fields [("year", VStr "2020"); ("title", VStr "T"); ("citationCount", VNone)]
  = normalized [("year", VStr "2020"); ("title", VStr "T"); ("citationCount", VNone)].
Proof.
  apply numeric_fields_agree. apply (bool_decide_unpack _). vm_compute. exact I.
Defined.

(** ** The metadata of the requested papers *)

Lemma is_empty_false s : is_empty s = false ↔ s ≠ "".
Proof. destruct s; split; done. Qed.

Lemma placeholders_lookup corpus_ids k :
  placeholders corpus_ids !! k
  = if bool_decide (k ∈ corpus_ids ∧ k ≠ "") then Some (placeholder_metadata k) else None.
Proof.
  unfold placeholders.
  assert (∀ acc : gmap string (dict pyval),
            fold_left (λ paper_metadata corpus_id,
                         if is_empty corpus_id then paper_metadata
                         else <[corpus_id := placeholder_metadata corpus_id]> paper_metadata)
              corpus_ids acc !! k
            = if bool_decide (k ∈ corpus_ids ∧ k ≠ "") then Some (placeholder_metadata k)
              else acc !! k) as H.
  { induction corpus_ids as [|cid ids IH]; intros acc; cbn [fold_left].
    - rewrite bool_decide_eq_false_2; [done|]. by intros [?%not_elem_of_nil _].
    - rewrite IH. destruct (decide (k ∈ ids ∧ k ≠ "")) as [[Hin Hne]|Hno].
      + rewrite !bool_decide_eq_true_2; [done|split; [by right|done]|done].
      + rewrite (bool_decide_eq_false_2 _ Hno).
        destruct (is_empty cid) eqn:Hc.
        * apply is_empty_spec in Hc as ->. rewrite bool_decide_eq_false_2; [done|].
          intros [[->|Hin]%elem_of_cons Hne]; [done|]. by apply Hno.
        * apply is_empty_false in Hc. destruct (decide (k = cid)) as [->|Hk].
          -- rewrite lookup_insert_eq, bool_decide_eq_true_2; [done|]. split; [by left|done].
          -- rewrite lookup_insert_ne by done. rewrite bool_decide_eq_false_2; [done|].
             intros [[->|Hin]%elem_of_cons Hne]; [done|]. by apply Hno. }
  rewrite H. by rewrite lookup_empty.
Qed.

Section Stored.
Variable py_str : pyval → string.
Variable requested_keys : list string.
Variable paper_data : list pyval.

Lemma well_stored_insert paper_metadata k pdata :
  well_stored requested_keys paper_data paper_metadata →
  k ∈ requested_keys → VDict pdata ∈ paper_data →
  well_stored requested_keys paper_data (<[k := normalized pdata]> paper_metadata).
Proof.
  intros [Hin Hcov] Hk Hp. split.
  - intros k' m. destruct (decide (k' = k)) as [->|Hne].
    + rewrite lookup_insert_eq. intros [= <-]. split; [done|]. right. by exists pdata.
    + rewrite lookup_insert_ne by done. apply Hin.
  - intros cid Hc Hne. destruct (decide (cid = k)) as [->|Hck].
    + rewrite lookup_insert_eq. by eexists.
    + rewrite lookup_insert_ne by done. by apply Hcov.
Qed.

Lemma store_paper_well_stored paper_metadata pdata :
  well_stored requested_keys paper_data paper_metadata → VDict pdata ∈ paper_data →
  well_stored requested_keys paper_data
    (store_paper py_str requested_keys paper_metadata pdata).
Proof.
  intros Hw Hp. unfold store_paper.
  set (m1 := match dict_get pdata "externalIds" with Some (VDict _) => _ | _ => _ end).
  assert (well_stored requested_keys paper_data m1) as Hw1.
  { subst m1. destruct (dict_get pdata "externalIds") as [[| | | | |ext]|]; try done.
    destruct (dict_get ext "ArXiv") as [arx_id|]; [|done].
    destruct (truthy arx_id); [|done]. cbn [andb].
    destruct (bool_decide_reflect (py_str arx_id ∈ requested_keys)); [|done].
    by apply well_stored_insert. }
  clearbody m1. destruct (dict_get pdata "corpusId") as [cid|]; [|done].
  destruct (bool_decide_reflect (py_str cid ∈ requested_keys)); [|done].
  by apply well_stored_insert.
Qed.
End Stored.

Lemma well_stored_more requested_keys l1 l2 paper_metadata :
  (∀ p, p ∈ l1 → p ∈ l2) → well_stored requested_keys l1 paper_metadata →
  well_stored requested_keys l2 paper_metadata.
Proof.
  intros Hsub [Hin Hcov]. split; [|done]. intros k m Hk.
  destruct (Hin k m Hk) as [? [?|(pdata & Hp & ->)]]; split; try done; [by left|].
  right. exists pdata. split; [by apply Hsub|done].
Qed.

Lemma store_papers_well_stored py_str requested_keys paper_data paper_metadata :
  well_stored requested_keys [] paper_metadata →
  well_stored requested_keys paper_data
    (store_papers py_str requested_keys paper_metadata paper_data).
Proof.
  assert (∀ done_ paper_metadata,
            well_stored requested_keys done_ paper_metadata →
            well_stored requested_keys (done_ ++ paper_data)
              (store_papers py_str requested_keys paper_metadata paper_data)) as H.
  { induction paper_data as [|pdata rest IH]; intros done_ md Hw; cbn [store_papers].
    - by rewrite app_nil_r.
    - assert (well_stored requested_keys (done_ ++ pdata :: rest) md) as Hw'.
      { eapply well_stored_more; [|exact Hw]. intros p Hp. apply elem_of_app. by left. }
      assert (∀ md', well_stored requested_keys ((done_ ++ [pdata]) ++ rest) md' →
                     well_stored requested_keys (done_ ++ pdata :: rest) md') as Hre.
      { intros md'. by rewrite <- app_assoc. }
      destruct (truthy pdata).
      + destruct pdata as [| | | | |d]; try done.
        apply Hre, IH. apply store_paper_well_stored.
        * eapply well_stored_more; [|exact Hw]. intros p Hp. apply elem_of_app. by left.
        * apply elem_of_app. right. by left.
      + apply Hre, IH. eapply well_stored_more; [|exact Hw].
        intros p Hp. apply elem_of_app. by left. }
  intros Hw. by apply (H []).
Qed.

Lemma placeholders_well_stored corpus_ids : well_stored corpus_ids [] (placeholders corpus_ids).
Proof.
  split.
  - intros k m. rewrite placeholders_lookup.
    destruct (bool_decide_reflect (k ∈ corpus_ids ∧ k ≠ "")) as [[Hin Hne]|]; [|done].
    intros [= <-]. split; [done|by left].
  - intros cid Hin Hne. rewrite placeholders_lookup, bool_decide_eq_true_2 by done. by eexists.
Qed.

(** X26: every entry [get_paper_metadata] answers is for a requested
    id and holds the placeholder of that id or the normalized form of a
    paper of the response; every requested id that is not empty has an
    entry. *)
Theorem get_paper_metadata_entries py_str query_s2_api corpus_ids :
  well_stored corpus_ids (papers_of (query_s2_api (payload_id <$> corpus_ids)))
    (get_paper_metadata py_str query_s2_api corpus_ids).
Proof.
  unfold get_paper_metadata. destruct corpus_ids as [|cid ids].
  { split; [by intros k m ?|]. by intros cid ?%not_elem_of_nil. }
  generalize (cid :: ids) as corpus_ids. intros corpus_ids.
  destruct (query_s2_api _) as [[| | | |paper_data|]|e]; cbn [papers_of];
    try apply placeholders_well_stored.
  apply store_papers_well_stored, placeholders_well_stored.
Qed.

(** X27: when the request to the API raises, the citation record
    built for a requested id that is not empty is complete: it has the
    placeholder title, no authors, the year 2024, the venue localhost,
    no citations and the score 0. *)
Theorem placeholder_record py_str query_s2_api corpus_ids cid ref_str_id fixed_quote e :
  query_s2_api (payload_id <$> corpus_ids) = Raise e →
  cid ∈ corpus_ids → cid ≠ "" →
  pop_ref_data ref_str_id cid fixed_quote
    (get_paper_metadata py_str query_s2_api corpus_ids !! cid)
  = Ok {| id := ref_str_id;
          snippets := strip <$> split "..." fixed_quote;
          paper := [("corpus_id", VStr cid); ("title", VStr ("Paper " +:+ cid));
                    ("authors", VList []); ("year", VInt 2024);
                    ("venue", VStr "localhost"); ("n_citations", VInt 0)];
          score := Some (VInt 0) |}.
Proof.
  intros Hq Hin Hne. unfold get_paper_metadata. destruct corpus_ids as [|c0 ids].
  { by apply not_elem_of_nil in Hin. }
  rewrite Hq, placeholders_lookup, bool_decide_eq_true_2 by done. done.
Qed.

Lemma placeholder_record_witness :
  pop_ref_data "(Smith, 2020)" "123" "a quote"
    (get_paper_metadata (λ _, "") (λ _, Raise (Exception_ "HTTPException")) ["123"; ""] !! "123")
  = Ok {| id := "(Smith, 2020)";
          snippets := strip <$> split "..." "a quote";
          paper := [("corpus_id", VStr "123"); ("title", VStr ("Paper " +:+ "123"));
                    ("authors", VList []); ("year", VInt 2024);
                    ("venue", VStr "localhost"); ("n_citations", VInt 0)];
          score := Some (VInt 0) |}.
Proof.
  apply (placeholder_record _ _ _ _ _ _ (Exception_ "HTTPException")); [reflexivity| |done].
  apply elem_of_cons. by left.
Defined.

(** ** The ids of the payload *)

Lemma rstrip_strip s : rstrip is_space (strip s) = strip s.
Proof. apply rstrip_lstrip_fixed, rstrip_rstrip. Qed.

Lemma strip_labelled label s :
  head_in is_space label = false → label ≠ "" → rstrip is_space label = label →
  strip (label +:+ strip s) = label +:+ strip s.
Proof.
  intros Hhead Hne Hlabel. unfold strip at 1, strip_chars.
  assert (rstrip is_space (label +:+ strip s) = label +:+ strip s) as ->.
  { destruct (strip s) eqn:E.
    - by rewrite app_empty_r.
    - rewrite <- E. rewrite rstrip_app; [by rewrite rstrip_strip|]. by rewrite rstrip_strip, E. }
  apply lstrip_head. destruct label; [done|]. by rewrite app_cons.
Qed.

Lemma payload_id_scheme_found cid :
  existsb (startswith (map_chars lower (payload_id cid))) id_schemes = true
  ∧ strip (payload_id cid) = payload_id cid.
Proof.
  unfold payload_id.
  destruct (existsb (startswith (map_chars lower (strip cid))) id_schemes) eqn:E.
  { split; [done|apply strip_strip]. }
  destruct (arxiv_id_shape (strip cid)).
  - split; [done|]. by apply strip_labelled.
  - split; [done|]. by apply strip_labelled.
Qed.

(** X28: the id sent for a requested id starts, letter case aside,
    with one of the schemes corpusid:, arxiv:, doi: and
    semanticscholar:, and is sent as it is when requested again. *)
Theorem payload_id_has_scheme cid :
  existsb (startswith (map_chars lower (payload_id cid))) id_schemes = true
  ∧ payload_id (payload_id cid) = payload_id cid.
Proof.
  destruct (payload_id_scheme_found cid) as [Hs Hstrip]. split; [done|].
  unfold payload_id at 1. by rewrite Hstrip, Hs.
Qed.
